(** * The columnar data codec of [src/milvus/grpc/Data.ts]

    A shallow embedding of the [insert], [search] and [query] methods of the
    [Data] class: the row-to-column encoder of [insert], the request builder
    and the result decoder of [search], and the vector branch of the column
    decoder of [query].  JavaScript values are embedded as the inductive
    [JsValue]; the gRPC exchange is a small error monad that logs every wire
    call. *)

From Stdlib Require Import List ZArith QArith Qabs Qround Bool Lia.
From Stdlib.Strings Require Import String Ascii Byte.
From Stdlib Require Import DecimalString.
From Stdlib Require DecimalPos.
Import ListNotations.

Close Scope Q_scope.
Open Scope list_scope.
Open Scope string_scope.

Set Warnings "-register-all".

Set Implicit Arguments.

(** ** JavaScript numbers and values *)

(** A JavaScript number: [NaN], an infinity, or a finite number.  A finite
    number is held as the exact value of the decimal text JavaScript prints
    for it; the numbers the codec computes with (lengths, dimensions,
    dimension / 8, digit counts) are exact in double precision. *)
Inductive JsNum : Type :=
| NaN
| Infinity (negative : bool)
| Num (q : Q).

Definition num_of_Z (z : Z) : JsNum := Num (inject_Z z).
Definition num_of_nat (n : nat) : JsNum := num_of_Z (Z.of_nat n).

(** [a / b] on numbers, for a non-zero finite divisor. *)
Definition js_div (a : JsNum) (b : Q) : JsNum :=
  match a with
  | NaN => NaN
  | Infinity negative =>
      Infinity (if Qle_bool (inject_Z 0) b then negative else negb negative)
  | Num q => Num (Qred (q / b))
  end.

(** [a === b] on numbers: [NaN] equals nothing, not even itself. *)
Definition js_num_eq (a b : JsNum) : bool :=
  match a, b with
  | Num p, Num q => Qeq_bool p q
  | Infinity s, Infinity t => Bool.eqb s t
  | _, _ => false
  end.

(** [a !== b] on numbers. *)
Definition js_num_neq (a b : JsNum) : bool := negb (js_num_eq a b).

(** The values a row, a request or a response can hold.  An object is the
    list of its own enumerable properties in [Object.keys] order; [VBuf] is
    a Node [Buffer]. *)
Inductive JsValue : Type :=
| VUndefined
| VNull
| VBool (b : bool)
| VNum (n : JsNum)
| VStr (s : string)
| VArr (l : list JsValue)
| VObj (props : list (string * JsValue))
| VBuf (bytes : list byte).

Definition JsObject : Type := list (string * JsValue).

(** [ToBoolean]: the falsy values are [undefined], [null], [false], [0],
    [NaN] and the empty string. *)
Definition truthy (v : JsValue) : bool :=
  match v with
  | VUndefined | VNull => false
  | VBool b => b
  | VNum NaN => false
  | VNum (Infinity _) => true
  | VNum (Num q) => negb (Qeq_bool q (inject_Z 0))
  | VStr s => negb (String.eqb s EmptyString)
  | VArr _ | VObj _ | VBuf _ => true
  end.

(** [a || b] *)
Definition js_or (a b : JsValue) : JsValue := if truthy a then a else b.

(** [a ?? b] *)
Definition js_nullish (a b : JsValue) : JsValue :=
  match a with
  | VUndefined | VNull => b
  | _ => a
  end.

(** [o[k]] on the property list of an object. *)
Fixpoint obj_get (o : JsObject) (k : string) : JsValue :=
  match o with
  | [] => VUndefined
  | (k', v) :: rest => if String.eqb k k' then v else obj_get rest k
  end.

(** [o[k] = v]: an existing property keeps its place, a new one goes last. *)
Fixpoint obj_set (o : JsObject) (k : string) (v : JsValue) : JsObject :=
  match o with
  | [] => [(k, v)]
  | (k', v') :: rest =>
      if String.eqb k k' then (k', v) :: rest else (k', v') :: obj_set rest k v
  end.

Definition Object_keys (o : JsObject) : list string := map fst o.

(** [a[i]] on an array: [undefined] out of range. *)
Definition arr_get (a : list JsValue) (i : Z) : JsValue :=
  if (i <? 0)%Z then VUndefined else nth (Z.to_nat i) a VUndefined.

(** [a[i] = v] on an array.  JavaScript extends the array when [i] is past
    its end; the holes this leaves read as [undefined]. *)
Fixpoint arr_set (a : list JsValue) (i : nat) (v : JsValue) : list JsValue :=
  match a, i with
  | [], O => [v]
  | [], S i' => VUndefined :: arr_set [] i' v
  | _ :: rest, O => v :: rest
  | x :: rest, S i' => x :: arr_set rest i' v
  end.

(** ** Strings, [Number] and [JSON.stringify] *)

Definition is_digit (c : ascii) : bool :=
  let n := nat_of_ascii c in (48 <=? n)%nat && (n <=? 57)%nat.

Fixpoint all_digits (s : string) : bool :=
  match s with
  | EmptyString => true
  | String c rest => is_digit c && all_digits rest
  end.

(** The value of [c] as a digit of the radix (at most 16), if it is one. *)
Definition digit_in (radix : Z) (c : ascii) : option Z :=
  let n := Z.of_nat (nat_of_ascii c) in
  let value :=
    if ((48 <=? n) && (n <=? 57))%Z then (n - 48)%Z
    else if ((97 <=? n) && (n <=? 102))%Z then (n - 87)%Z
    else if ((65 <=? n) && (n <=? 70))%Z then (n - 55)%Z
    else radix in
  if (value <? radix)%Z then Some value else None.

(** The digits a string starts with: their value on top of [acc], their
    number on top of [count], and the rest of the string. *)
Fixpoint read_digits (radix : Z) (s : string) (acc : Z) (count : nat)
  : Z * nat * string :=
  match s with
  | EmptyString => (acc, count, s)
  | String c rest =>
      match digit_in radix c with
      | Some d => read_digits radix rest (radix * acc + d) (S count)
      | None => (acc, count, s)
      end
  end.

Definition utf8 (bytes : list nat) : string :=
  string_of_list_ascii (map ascii_of_nat bytes).

(** The white space and line terminators [Number] skips around a literal
    (TAB, LF, VT, FF, CR, SP, NBSP, U+1680, U+2000 to U+200A, LS, PS, U+202F,
    U+205F, U+3000 and the byte order mark), in UTF-8. *)
Definition white_space : list string :=
  map utf8
      [[9]; [10]; [11]; [12]; [13]; [32]; [194; 160]; [225; 154; 128];
       [226; 128; 128]; [226; 128; 129]; [226; 128; 130]; [226; 128; 131];
       [226; 128; 132]; [226; 128; 133]; [226; 128; 134]; [226; 128; 135];
       [226; 128; 136]; [226; 128; 137]; [226; 128; 138]; [226; 128; 168];
       [226; 128; 169]; [226; 128; 175]; [226; 129; 159]; [227; 128; 128];
       [239; 187; 191]]%nat.

Fixpoint strip_prefix (p s : string) : option string :=
  match p, s with
  | EmptyString, _ => Some s
  | String a p', String b s' => if Ascii.eqb a b then strip_prefix p' s' else None
  | String _ _, EmptyString => None
  end.

Definition skip_one_white (s : string) : option string :=
  fold_right (fun w found =>
                match strip_prefix w s with
                | Some rest => Some rest
                | None => found
                end) None white_space.

Fixpoint skip_white (fuel : nat) (s : string) : string :=
  match fuel with
  | O => s
  | S fuel' =>
      match skip_one_white s with
      | Some rest => skip_white fuel' rest
      | None => s
      end
  end.

Definition trim_start (s : string) : string := skip_white (String.length s) s.

Definition only_white (s : string) : bool :=
  String.eqb (trim_start s) EmptyString.

Definition read_sign (s : string) : bool * string :=
  match s with
  | String c rest =>
      if Ascii.eqb c "-" then (true, rest)
      else if Ascii.eqb c "+" then (false, rest)
      else (false, s)
  | EmptyString => (false, s)
  end.

(** [m * 10 ^ x] *)
Definition scale10 (m x : Z) : Q :=
  if (0 <=? x)%Z then inject_Z (m * 10 ^ x)
  else Qmake m (Z.to_pos (10 ^ (- x))).

(** The number a literal of the given exact value reads as.  Past the
    largest double it is an infinity and below half the smallest one it is
    0; in between the value is kept as it is, where JavaScript rounds it to
    53 significant bits, which a literal of at most 15 significant digits
    survives. *)
Definition number_of_value (v : Q) : JsNum :=
  if Qle_bool (inject_Z (2 ^ 1024 - 2 ^ 970)) (Qabs v)
  then Infinity (negb (Qle_bool (inject_Z 0) v))
  else if Qle_bool (Qabs v) (Qmake 1 (Z.to_pos (2 ^ 1075))) then Num (inject_Z 0)
  else Num (Qred v).

(** An exponent part at the head of a string: its value and the rest.  An
    [e] that no digits follow is no exponent part. *)
Definition read_exponent (s : string) : Z * string :=
  match s with
  | String c rest =>
      if Ascii.eqb c "e" || Ascii.eqb c "E" then
        let (negative, rest') := read_sign rest in
        match read_digits 10 rest' 0 0 with
        | (_, O, _) => (0%Z, s)
        | (e, S _, rest'') => ((if negative then - e else e)%Z, rest'')
        end
      else (0%Z, s)
  | EmptyString => (0%Z, s)
  end.

(** A decimal literal that fills the string up to trailing white space:
    digits with an optional fraction and exponent part, with digits on at
    least one side of the point. *)
Definition decimal_literal (s : string) : option JsNum :=
  let (negative, s1) := read_sign s in
  let '(ip, int_count, s2) := read_digits 10 s1 0 0 in
  let '(fp, frac_count, s3) :=
    match s2 with
    | String c rest =>
        if Ascii.eqb c "." then read_digits 10 rest 0 0 else (0%Z, O, s2)
    | EmptyString => (0%Z, O, s2)
    end in
  match (int_count + frac_count)%nat with
  | O => None
  | S _ =>
      let (e, s4) := read_exponent s3 in
      if only_white s4 then
        let m := (ip * 10 ^ Z.of_nat frac_count + fp)%Z in
        let v := scale10 m (e - Z.of_nat frac_count) in
        Some (number_of_value (if negative then Qopp v else v))
      else None
  end.

(** [Infinity], [+Infinity] or [-Infinity]. *)
Definition infinity_literal (s : string) : option JsNum :=
  let (negative, s1) := read_sign s in
  match strip_prefix "Infinity" s1 with
  | Some rest => if only_white rest then Some (Infinity negative) else None
  | None => None
  end.

(** A literal [0x...], [0o...] or [0b...], in either case of the letter. *)
Definition radix_literal (s : string) : option JsNum :=
  match s with
  | String z (String c rest) =>
      let radix :=
        if Ascii.eqb c "x" || Ascii.eqb c "X" then 16%Z
        else if Ascii.eqb c "o" || Ascii.eqb c "O" then 8%Z
        else if Ascii.eqb c "b" || Ascii.eqb c "B" then 2%Z
        else 0%Z in
      if Ascii.eqb z "0" && negb (radix =? 0)%Z then
        match read_digits radix rest 0 0 with
        | (_, O, _) => None
        | (v, S _, rest') =>
            if only_white rest' then Some (number_of_value (inject_Z v)) else None
        end
      else None
  | _ => None
  end.

(** [Number(x)] where [x] is a string or [undefined] ([StringToNumber]):
    [undefined] and a string that is no numeric literal give [NaN], a
    string of white space only gives 0, and white space around a literal is
    skipped. *)
Definition Number (x : option string) : JsNum :=
  match x with
  | None => NaN
  | Some s =>
      let s1 := trim_start s in
      if String.eqb s1 EmptyString then Num (inject_Z 0)
      else
        match decimal_literal s1 with
        | Some n => n
        | None =>
            match infinity_literal s1 with
            | Some n => n
            | None =>
                match radix_literal s1 with
                | Some n => n
                | None => NaN
                end
            end
        end
  end.

Definition string_of_Z (z : Z) : string := NilZero.string_of_int (Z.to_int z).

Definition digit_char (d : Z) : ascii := ascii_of_nat (48 + Z.to_nat d).

(** The fractional digits of [r / d] (with [0 <= r < d]) by long division. *)
Fixpoint frac_digits (fuel : nat) (r d : Z) : string :=
  match fuel with
  | O => EmptyString
  | S fuel' =>
      if (r =? 0)%Z then EmptyString
      else String (digit_char (10 * r / d)) (frac_digits fuel' ((10 * r) mod d) d)
  end.

(** JavaScript prints a magnitude from 1e-6 up to 1e21, and 0, in plain
    decimal notation. *)
Definition plain_notation (q : Q) : bool :=
  Qeq_bool q (inject_Z 0)
  || (Qle_bool (Qmake 1 1000000) (Qabs q)
      && negb (Qle_bool (inject_Z (10 ^ 21)) (Qabs q))).

Fixpoint drop_zeros (s : string) : string :=
  match s with
  | String c rest => if Ascii.eqb c "0" then drop_zeros rest else s
  | EmptyString => s
  end.

Definition string_rev (s : string) : string :=
  string_of_list_ascii (rev (list_ascii_of_string s)).

(** Exponent notation: the significant digits with a point after the first
    one, and the power of ten of that digit. *)
Definition exponent_notation (ip r den : Z) : string :=
  let int_part := if (ip =? 0)%Z then EmptyString else string_of_Z ip in
  let fraction := frac_digits 1074 r den in
  let digits := string_rev (drop_zeros (string_rev (drop_zeros (int_part ++ fraction)))) in
  let e :=
    if (ip =? 0)%Z
    then (- Z.of_nat (S (String.length fraction
                         - String.length (drop_zeros fraction))))%Z
    else (Z.of_nat (String.length int_part) - 1)%Z in
  match digits with
  | EmptyString => "0"
  | String d rest =>
      String d (match rest with
                | EmptyString => EmptyString
                | _ => "." ++ rest
                end)
      ++ "e" ++ (if (e <? 0)%Z then "-" else "+") ++ string_of_Z (Z.abs e)
  end.

(** [Number.prototype.toString]: plain decimal notation for 0 and the
    magnitudes from 1e-6 up to 1e21, exponent notation for the others.  A
    double has at most 1074 fractional digits. *)
Definition Number_toString (n : JsNum) : string :=
  match n with
  | NaN => "NaN"
  | Infinity negative => if negative then "-Infinity" else "Infinity"
  | Num q =>
      let q' := Qred q in
      let num := Qnum q' in
      let den := Z.pos (Qden q') in
      let ip := (Z.abs num / den)%Z in
      let r := (Z.abs num mod den)%Z in
      let sign := if (num <? 0)%Z then "-" else EmptyString in
      if plain_notation q' then
        sign ++ string_of_Z ip
        ++ (if (r =? 0)%Z then EmptyString else "." ++ frac_digits 1074 r den)
      else sign ++ exponent_notation ip r den
  end.

Arguments frac_digits : simpl never.
Arguments Number_toString : simpl never.
Arguments Number : simpl never.
Arguments number_of_value : simpl never.
Arguments scale10 : simpl never.

Definition hex_char (n : nat) : ascii :=
  if (n <? 10)%nat then ascii_of_nat (48 + n) else ascii_of_nat (87 + n).

(** The escape [JSON.stringify] writes for one character of a string. *)
Definition json_escape_char (c : ascii) : string :=
  let n := nat_of_ascii c in
  if (n =? 34)%nat then String (ascii_of_nat 92) (String c EmptyString)
  else if (n =? 92)%nat then "\\"
  else if (n =? 8)%nat then "\b"
  else if (n =? 9)%nat then "\t"
  else if (n =? 10)%nat then "\n"
  else if (n =? 12)%nat then "\f"
  else if (n =? 13)%nat then "\r"
  else if (n <? 32)%nat then
    "\u00" ++ String (hex_char (n / 16)) (String (hex_char (n mod 16)) EmptyString)
  else String c EmptyString.

Fixpoint json_escape (s : string) : string :=
  match s with
  | EmptyString => EmptyString
  | String c rest => json_escape_char c ++ json_escape rest
  end.

Definition json_quote (s : string) : string :=
  String (ascii_of_nat 34) (json_escape s ++ String (ascii_of_nat 34) EmptyString).

Fixpoint join_comma (l : list string) : string :=
  match l with
  | [] => EmptyString
  | [s] => s
  | s :: rest => s ++ "," ++ join_comma rest
  end.

Definition byte_value (b : byte) : JsValue :=
  VNum (num_of_nat (nat_of_ascii (ascii_of_byte b))).

(** [JSON.stringify(v)]; [None] is the [undefined] it returns for
    [undefined].  Inside an array [undefined] prints as [null], inside an
    object the property is dropped; a [Buffer] prints through its
    [toJSON]. *)
Fixpoint JSON_stringify (v : JsValue) : option string :=
  match v with
  | VUndefined => None
  | VNull => Some "null"
  | VBool true => Some "true"
  | VBool false => Some "false"
  | VNum NaN => Some "null"
  | VNum (Infinity _) => Some "null"
  | VNum n => Some (Number_toString n)
  | VStr s => Some (json_quote s)
  | VArr l =>
      Some ("[" ++ join_comma
              (map (fun x => match JSON_stringify x with
                             | Some s => s
                             | None => "null"
                             end) l) ++ "]")
  | VObj props =>
      Some ("{" ++ join_comma
              (flat_map (fun kv => match JSON_stringify (snd kv) with
                                   | Some s => [json_quote (fst kv) ++ ":" ++ s]
                                   | None => []
                                   end) props) ++ "}")
  | VBuf bytes =>
      Some ("{" ++ json_quote "type" ++ ":" ++ json_quote "Buffer" ++ ","
            ++ json_quote "data" ++ ":["
            ++ join_comma
                 (map (fun b => Number_toString
                                  (num_of_nat (nat_of_ascii (ascii_of_byte b))))
                      bytes)
            ++ "]}")
  end.

(** [Buffer.from(s)]: the UTF-8 bytes of the string.  A [string] here is
    already its UTF-8 byte sequence. *)
Definition Buffer_from (s : string) : list byte := list_byte_of_string s.

(** ** Data types, schemas and errors *)

(** The members of the [DataType] enum that [Data.ts] names; every other
    member is an [Other]. *)
Module DataType.
Inductive t : Type :=
| Bool | Int8 | Int16 | Int32 | Int64 | Float | Double | VarChar | JSON
| BinaryVector | FloatVector
| Other (code : Z).

Definition eqb (a b : t) : bool :=
  match a, b with
  | Bool, Bool | Int8, Int8 | Int16, Int16 | Int32, Int32 | Int64, Int64
  | Float, Float | Double, Double | VarChar, VarChar | JSON, JSON
  | BinaryVector, BinaryVector | FloatVector, FloatVector => true
  | Other x, Other y => Z.eqb x y
  | _, _ => false
  end.
End DataType.

(** One field of [collectionInfo.schema.fields]. *)
Record FieldSchema : Type := {
  fs_name : string;
  fs_data_type : string;
  fs_type_params : list (string * string);
  fs_is_primary_key : bool;
  fs_autoID : bool
}.

(** What the methods throw.  The [ERROR_REASONS] members keep their names;
    [TypeError] is the runtime's own (a property read on [undefined], a
    value that is not iterable). *)
Inductive Error : Type :=
| INSERT_CHECK_FIELD_DATA_IS_REQUIRED
| INSERT_CHECK_WRONG_FIELD (row : nat)
| INSERT_CHECK_WRONG_DIM
| INSERT_CHECK_WRONG_DATA_TYPE (type : string)
| StatusReason (reason : string)
| TypeError
| External (reason : string)
| Rethrown (err : Error).

Inductive Result (A : Type) : Type :=
| Ok (a : A)
| Throw (e : Error).
Arguments Ok {A} a.
Arguments Throw {A} e.

Definition bindR {A B} (r : Result A) (k : A -> Result B) : Result B :=
  match r with
  | Ok a => k a
  | Throw e => Throw e
  end.

(** [l.forEach((x, i) => ...)] over a state, stopping at the first throw. *)
Fixpoint forEach_from {A St} (i : nat) (f : St -> A -> nat -> Result St)
         (l : list A) (s : St) : Result St :=
  match l with
  | [] => Ok s
  | x :: rest => bindR (f s x i) (forEach_from (S i) f rest)
  end.

Definition forEach {A St} (f : St -> A -> nat -> Result St) (l : list A) (s : St)
  : Result St := forEach_from 0 f l s.

(** [l.map(f)] where [f] may throw. *)
Fixpoint mapR {A B} (f : A -> Result B) (l : list A) : Result (list B) :=
  match l with
  | [] => Ok []
  | x :: rest =>
      bindR (f x) (fun y => bindR (mapR f rest) (fun ys => Ok (y :: ys)))
  end.

(** ** An insertion-ordered [Map] *)

Section JsMap.
Variable V : Type.

Definition JsMap : Type := list (string * V).

Fixpoint Map_get (m : JsMap) (k : string) : option V :=
  match m with
  | [] => None
  | (k', v) :: rest => if String.eqb k k' then Some v else Map_get rest k
  end.

(** [m.set(k, v)]: a key already present keeps its position. *)
Fixpoint Map_set (m : JsMap) (k : string) (v : V) : JsMap :=
  match m with
  | [] => [(k, v)]
  | (k', v') :: rest =>
      if String.eqb k k' then (k', v) :: rest else (k', v') :: Map_set rest k v
  end.

(** [new Map(entries)] *)
Definition Map_new (entries : list (string * V)) : JsMap :=
  fold_left (fun m kv => Map_set m (fst kv) (snd kv)) entries [].

Definition Map_values (m : JsMap) : list V := map snd m.
End JsMap.

(** ** Property reads the encoder performs on row values *)

(** [x.length] *)
Definition js_length (x : JsValue) : Result JsValue :=
  match x with
  | VUndefined | VNull => Throw TypeError
  | VArr l => Ok (VNum (num_of_nat (List.length l)))
  | VStr s => Ok (VNum (num_of_nat (String.length s)))
  | VBuf b => Ok (VNum (num_of_nat (List.length b)))
  | VObj o => Ok (obj_get o "length")
  | VBool _ | VNum _ => Ok VUndefined
  end.

(** [x !== n] for a number [n]: a value that is not a number differs. *)
Definition js_strict_neq (x : JsValue) (n : JsNum) : bool :=
  match x with
  | VNum m => js_num_neq m n
  | _ => true
  end.

Fixpoint chars_of (s : string) : list JsValue :=
  match s with
  | EmptyString => []
  | String c rest => VStr (String c EmptyString) :: chars_of rest
  end.

(** The values [for (let val of x)] visits. *)
Definition js_iterate (x : JsValue) : Result (list JsValue) :=
  match x with
  | VArr l => Ok l
  | VStr s => Ok (chars_of s)
  | VBuf b => Ok (map byte_value b)
  | _ => Throw TypeError
  end.

(** ** Requests and responses *)

Inductive ErrorCode : Type :=
| SUCCESS
| Failure (code : string).

Record ResStatus : Type := {
  error_code : ErrorCode;
  reason : string
}.

Definition is_success (s : ResStatus) : bool :=
  match error_code s with
  | SUCCESS => true
  | Failure _ => false
  end.

(** The reply of [describeCollection], as far as [Data.ts] reads it. *)
Record DescribeCollectionResponse : Type := {
  dc_status : ResStatus;
  dc_fields : list FieldSchema
}.

(** [InsertReq]; [ins_fields_data] is [None] when the property is missing
    or is not an array. *)
Record InsertReq : Type := {
  ins_collection_name : string;
  ins_partition_name : option string;
  ins_fields_data : option (list JsObject);
  ins_hash_keys : option (list Z);
  ins_timeout : option Z
}.

(** The value of the [vectors] or [scalars] key of one outgoing column. *)
Inductive ColumnPayload : Type :=
| vectors_float (dim : JsNum) (data : list JsValue)
| vectors_binary (dim : JsNum) (bytes : list byte)
| scalars (dataKey : string) (data : list JsValue).

Record ColumnBuffer : Type := {
  col_type : DataType.t;
  col_field_name : string;
  col_payload : ColumnPayload
}.

(** The [params] object handed to the [Insert] call. *)
Record InsertParams : Type := {
  ip_collection_name : string;
  ip_partition_name : option string;
  ip_hash_keys : option (list Z);
  ip_num_rows : nat;
  ip_fields_data : list ColumnBuffer
}.

(** A [search_params] object, given by the caller or built by [search]. *)
Record SearchParam : Type := {
  sp_anns_field : option string;
  sp_topk : Z;
  sp_offset : option Z;
  sp_metric_type : string;
  sp_params : string;
  sp_round_decimal : JsValue
}.

(** [SearchReq | SearchSimpleReq]: the properties of both shapes, each
    [None] (or [VUndefined]) when the caller left it out. *)
Record SearchData : Type := {
  s_collection_name : string;
  s_partition_names : option (list string);
  s_search_params : option SearchParam;
  s_vectors : option (list JsValue);
  s_vector : JsValue;
  s_limit : option Z;
  s_topk : option Z;
  s_offset : option Z;
  s_metric_type : option string;
  s_params : option JsObject;
  s_output_fields : option (list string);
  s_nq : option Z;
  s_expr : option string;
  s_filter : option string;
  s_timeout : option Z
}.

(** The one placeholder of the placeholder group; the protobuf encoding of
    the message is left to the protobuf library. *)
Record Placeholder : Type := {
  ph_tag : string;
  ph_type : option DataType.t;
  ph_values : list (list byte)
}.

Inductive DslType : Type := Dsl | BoolExprV1.

(** The request object handed to the [Search] call. *)
Record SearchWireReq : Type := {
  w_collection_name : string;
  w_partition_names : option (list string);
  w_output_fields : list string;
  w_nq : Z;
  w_dsl : string;
  w_dsl_type : DslType;
  w_placeholder_group : list Placeholder;
  w_search_params : list (string * string)
}.

(** One column of a search reply.  [r_column] is
    [item[item.field][item[item.field].data].data], and [None] when
    [item.field] is unset. *)
Record FieldDataRes : Type := {
  r_type : string;
  r_field_name : string;
  r_column : option (list JsValue)
}.

(** [promise.results]; [res_ids] is [ids[ids.id_field]?.data]. *)
Record SearchResultData : Type := {
  res_topks : list Z;
  res_scores : list JsNum;
  res_fields_data : list FieldDataRes;
  res_ids : option (list JsValue)
}.

Record SearchRes : Type := {
  sr_status : ResStatus;
  sr_results : option SearchResultData
}.

(** What [search] returns. *)
Record SearchResults : Type := {
  status : ResStatus;
  results : list JsObject
}.

(** ** What [Data.ts] imports *)

(** The helpers and constants [Data.ts] imports from ['../'], and
    [JSON.parse]: the codec is verified for every implementation of them.
    [check*] give the error thrown, if any; [JSON_parse x] stands for
    [JSON.parse(x.toString())]. *)
Class Externals : Type := {
  DataTypeMap : string -> option DataType.t;
  checkCollectionName : string -> option Error;
  checkSearchParams : SearchData -> option Error;
  parseBinaryVectorToBytes : JsValue -> list byte;
  parseFloatVectorToBytes : JsValue -> list byte;
  parseToKeyValue : SearchParam -> list (string * string);
  formatNumberPrecision : JsNum -> JsValue -> JsNum;
  JSON_parse : JsValue -> Result JsValue;
  DEFAULT_TOPK : Z;
  DEFAULT_METRIC_TYPE : string
}.

(** Modelled from the spec: [findKeyValue], imported from ['../'] and not
    under src/.  The spec has the resolver read a field's dimension
    parameter from its type parameters; this is the lookup of the first
    entry with the given key, [undefined] when there is none. *)
Fixpoint findKeyValue (obj : list (string * string)) (key : string)
  : option string :=
  match obj with
  | [] => None
  | (k, v) :: rest => if String.eqb k key then Some v else findKeyValue rest key
  end.

(** ** The wire *)

Inductive WireCall : Type :=
| DescribeCollection (collection_name : string)
| Insert (params : InsertParams) (timeout : option Z)
| Search (req : SearchWireReq) (timeout : option Z).

(** The server behind [this.client], and the client's default timeout. *)
Class Server : Type := {
  describe_reply : string -> Result DescribeCollectionResponse;
  insert_reply : InsertParams -> Result JsValue;
  search_reply : SearchWireReq -> Result SearchRes;
  this_timeout : option Z
}.

(** A method body: it extends the log of wire calls and returns or throws. *)
Definition M (A : Type) : Type := list WireCall -> list WireCall * Result A.

Definition ret {A} (a : A) : M A := fun log => (log, Ok a).
Definition throw {A} (e : Error) : M A := fun log => (log, Throw e).

Definition bind {A B} (m : M A) (k : A -> M B) : M B :=
  fun log =>
    match m log with
    | (log', Ok a) => k a log'
    | (log', Throw e) => (log', Throw e)
    end.

Definition lift {A} (r : Result A) : M A := fun log => (log, r).

(** [try { m } catch (err) { throw new Error(err) }] *)
Definition rethrow {A} (m : M A) : M A :=
  fun log =>
    match m log with
    | (log', Ok a) => (log', Ok a)
    | (log', Throw e) => (log', Throw (Rethrown e))
    end.

(** A call through [promisify]: logged, then answered by the server. *)
Definition call {A} (c : WireCall) (reply : Result A) : M A :=
  fun log => (log ++ [c], reply)%list.

Definition guard (check : option Error) : M unit :=
  match check with
  | Some e => throw e
  | None => ret tt
  end.

Declare Scope wire_scope.
Delimit Scope wire_scope with wire.
Notation "x <- m ;; k" := (bind m (fun x => k))
  (at level 61, m at next level, right associativity) : wire_scope.
Notation "m ;; k" := (bind m (fun _ => k))
  (at level 61, right associativity) : wire_scope.

(** [a || b] where [a] is an optional number: 0 is falsy. *)
Definition or_num (a : option Z) (b : Z) : Z :=
  match a with
  | Some z => if (z =? 0)%Z then b else z
  | None => b
  end.

(** [a || b] where [a] is an optional string: the empty string is falsy. *)
Definition or_str (a : option string) (b : string) : string :=
  match a with
  | Some s => if String.eqb s EmptyString then b else s
  | None => b
  end.

(** [data.timeout || this.timeout] *)
Definition or_timeout (a b : option Z) : option Z :=
  match a with
  | Some z => if (z =? 0)%Z then b else Some z
  | None => b
  end.

(** ** [insert] *)

Section Insert.
Context {ext : Externals} {srv : Server}.
Local Open Scope wire_scope.

(** The accumulator [insert] keeps per field, a value of [fieldsData]. *)
Record Target : Type := {
  t_name : string;
  t_type : string;
  t_dim : JsNum;
  t_value : list JsValue
}.

Definition with_value (t : Target) (value : list JsValue) : Target :=
  {| t_name := t_name t; t_type := t_type t; t_dim := t_dim t;
     t_value := value |}.

(** The entry of [fieldsData] for one schema field (lines 106-114). *)
Definition resolve_field (v : FieldSchema) : string * Target :=
  (fs_name v,
   {| t_name := fs_name v;
      t_type := fs_data_type v;
      t_dim := Number (findKeyValue (fs_type_params v) "dim");
      t_value := [] |}).

(** [fieldsData] (lines 103-115): the fields that are not both primary
    key and auto-id, keyed by name in schema order. *)
Definition resolve (fields : list FieldSchema) : JsMap Target :=
  Map_new
    (map resolve_field
         (filter (fun v => negb (fs_is_primary_key v) || negb (fs_autoID v))
                 fields)).

Definition is_type (ty : option DataType.t) (d : DataType.t) : bool :=
  match ty with
  | Some x => DataType.eqb x d
  | None => false
  end.

(** The [switch] of lines 136-150: the new [target.value] for the value
    [x] of row [i]. *)
Definition encode_value (ty : option DataType.t) (value : list JsValue)
           (i : nat) (x : JsValue) : Result (list JsValue) :=
  match ty with
  | Some DataType.BinaryVector | Some DataType.FloatVector =>
      bindR (js_iterate x) (fun vals => Ok (value ++ vals)%list)
  | Some DataType.JSON =>
      match JSON_stringify (js_or x (VObj [])) with
      | Some s => Ok (arr_set value i (VBuf (Buffer_from s)))
      | None => Throw TypeError
      end
  | _ => Ok (arr_set value i x)
  end.

(** The body of [fieldNames.forEach] (lines 123-151) for the key [name]
    of row [v], the [i]-th row. *)
Definition encode_field (i : nat) (v : JsObject)
           (fieldsData : JsMap Target) (name : string) (_ : nat)
  : Result (JsMap Target) :=
  match Map_get fieldsData name with
  | None => Throw (INSERT_CHECK_WRONG_FIELD i)
  | Some target =>
      let ty := DataTypeMap (t_type target) in
      bindR
        (if is_type ty DataType.BinaryVector then
           bindR (js_length (obj_get v name)) (fun len =>
             if js_strict_neq len (js_div (t_dim target) (inject_Z 8))
             then Throw INSERT_CHECK_WRONG_DIM
             else Ok tt)
         else Ok tt)
        (fun _ =>
           bindR (encode_value ty (t_value target) i (obj_get v name))
                 (fun value =>
                    Ok (Map_set fieldsData name (with_value target value))))
  end.

(** The body of [data.fields_data.forEach] (lines 121-152). *)
Definition encode_row (fieldsData : JsMap Target) (v : JsObject) (i : nat)
  : Result (JsMap Target) :=
  forEach (encode_field i v) (Object_keys v) fieldsData.

Definition encode_rows (rows : list JsObject) (fieldsData : JsMap Target)
  : Result (JsMap Target) :=
  forEach encode_row rows fieldsData.

(** The [switch] of lines 160-194. *)
Definition dataKey_of (ty : option DataType.t) (type_name : string)
  : Result string :=
  match ty with
  | Some DataType.FloatVector => Ok "float_vector"
  | Some DataType.BinaryVector => Ok "binary_vector"
  | Some DataType.Double => Ok "double_data"
  | Some DataType.Float => Ok "float_data"
  | Some DataType.Int64 => Ok "long_data"
  | Some DataType.Int32 | Some DataType.Int16 | Some DataType.Int8 =>
      Ok "int_data"
  | Some DataType.Bool => Ok "bool_data"
  | Some DataType.VarChar => Ok "string_data"
  | Some DataType.JSON => Ok "json_data"
  | _ => Throw (INSERT_CHECK_WRONG_DATA_TYPE type_name)
  end.

(** The callback of lines 154-217: one outgoing column per accumulator. *)
Definition to_column (v : Target) : Result ColumnBuffer :=
  let ty := DataTypeMap (t_type v) in
  bindR (dataKey_of ty (t_type v)) (fun dataKey =>
    match ty with
    | Some type =>
        Ok {| col_type := type;
              col_field_name := t_name v;
              col_payload :=
                match type with
                | DataType.FloatVector => vectors_float (t_dim v) (t_value v)
                | DataType.BinaryVector =>
                    vectors_binary (t_dim v)
                                   (parseBinaryVectorToBytes (VArr (t_value v)))
                | _ => scalars dataKey (t_value v)
                end |}
    | None => Throw (INSERT_CHECK_WRONG_DATA_TYPE (t_type v))
    end).

(** [insert] (lines 83-227). *)
Definition insert (data : InsertReq) : M JsValue :=
  guard (checkCollectionName (ins_collection_name data)) ;;
  match ins_fields_data data with
  | None | Some [] => throw INSERT_CHECK_FIELD_DATA_IS_REQUIRED
  | Some rows =>
      collectionInfo <-
        call (DescribeCollection (ins_collection_name data))
             (describe_reply (ins_collection_name data)) ;;
      if negb (is_success (dc_status collectionInfo))
      then throw (StatusReason (reason (dc_status collectionInfo)))
      else
        fieldsData <- lift (encode_rows rows (resolve (dc_fields collectionInfo))) ;;
        columns <- lift (mapR to_column (Map_values fieldsData)) ;;
        let params :=
          {| ip_collection_name := ins_collection_name data;
             ip_partition_name := ins_partition_name data;
             ip_hash_keys := ins_hash_keys data;
             ip_num_rows := List.length rows;
             ip_fields_data := columns |} in
        call (Insert params (or_timeout (ins_timeout data) this_timeout))
             (insert_reply params)
  end.

(** Whether a log holds an [Insert] call. *)
Definition is_Insert (c : WireCall) : bool :=
  match c with
  | Insert _ _ => true
  | _ => false
  end.
End Insert.

(** ** [search] *)

Section Search.
Context {ext : Externals} {srv : Server}.
Local Open Scope wire_scope.

(** The variables the schema loop of [search] assigns (lines 314-317). *)
Record SchemaInfo : Type := {
  vectorType : option DataType.t;
  defaultOutputFields : list string;
  dim : JsNum;
  anns_field : option string
}.

Definition SchemaInfo_init : SchemaInfo :=
  {| vectorType := None; defaultOutputFields := []; dim := num_of_Z 0;
     anns_field := None |}.

(** The test of line 323 on a schema field. *)
Definition is_vector_field (f : FieldSchema) : bool :=
  let type := DataTypeMap (fs_data_type f) in
  is_type type DataType.FloatVector || is_type type DataType.BinaryVector.

Definition not_vector (f : FieldSchema) : bool := negb (is_vector_field f).

(** The dimension lines 325-327 compute for a vector field. *)
Definition search_dim (f : FieldSchema) : JsNum :=
  let dim := Number (findKeyValue (fs_type_params f) "dim") in
  if is_type (DataTypeMap (fs_data_type f)) DataType.BinaryVector
  then js_div dim (inject_Z 8)
  else dim.

(** One turn of the loop of lines 318-336. *)
Definition classify_step (st : SchemaInfo) (f : FieldSchema) : SchemaInfo :=
  if is_vector_field f then
    {| vectorType := DataTypeMap (fs_data_type f);
       defaultOutputFields := defaultOutputFields st;
       dim := search_dim f;
       anns_field := Some (fs_name f) |}
  else
    {| vectorType := vectorType st;
       defaultOutputFields := (defaultOutputFields st ++ [fs_name f])%list;
       dim := dim st;
       anns_field := anns_field st |}.

(** The loop of lines 318-336 over [collectionInfo.schema.fields]. *)
Definition classify (fields : list FieldSchema) : SchemaInfo :=
  fold_left classify_step fields SchemaInfo_init.

(** [search_params] (lines 339-349). *)
Definition make_search_params (data : SearchData) (info : SchemaInfo)
  : SearchParam :=
  match s_search_params data with
  | Some sp => sp
  | None =>
      {| sp_anns_field := anns_field info;
         sp_topk := or_num (s_limit data) (or_num (s_topk data) DEFAULT_TOPK);
         sp_offset := Some (or_num (s_offset data) 0);
         sp_metric_type := or_str (s_metric_type data) DEFAULT_METRIC_TYPE;
         sp_params :=
           match JSON_stringify
                   (VObj match s_params data with Some o => o | None => [] end)
           with
           | Some s => s
           | None => EmptyString
           end;
         sp_round_decimal := VUndefined |}
  end.

(** [searchVectors] (lines 352-354). *)
Definition searchVectors (data : SearchData) : list JsValue :=
  match s_vectors data with
  | Some vs => vs
  | None => [s_vector data]
  end.

(** [round_decimal] (lines 362-364):
    [search_params?.round_decimal ?? params?.round_decimal]. *)
Definition explicit_round_decimal (data : SearchData) : JsValue :=
  match s_search_params data with
  | Some sp => sp_round_decimal sp
  | None => VUndefined
  end.

Definition simple_round_decimal (data : SearchData) : JsValue :=
  match s_params data with
  | Some params => obj_get params "round_decimal"
  | None => VUndefined
  end.

Definition round_decimal (data : SearchData) : JsValue :=
  js_nullish (explicit_round_decimal data) (simple_round_decimal data).

(** The placeholder group (lines 371-385). *)
Definition placeholders (data : SearchData) (info : SchemaInfo)
  : list Placeholder :=
  [ {| ph_tag := "$0";
       ph_type := vectorType info;
       ph_values :=
         map (fun v =>
                if is_type (vectorType info) DataType.BinaryVector
                then parseBinaryVectorToBytes v
                else parseFloatVectorToBytes v)
             (searchVectors data) |} ].

(** The request object of lines 390-400. *)
Definition search_request (data : SearchData) (info : SchemaInfo)
  : SearchWireReq :=
  {| w_collection_name := s_collection_name data;
     w_partition_names := s_partition_names data;
     w_output_fields :=
       match s_output_fields data with
       | Some fs => fs
       | None => defaultOutputFields info
       end;
     w_nq := or_num (s_nq data) (Z.of_nat (List.length (searchVectors data)));
     w_dsl := or_str (s_expr data) (or_str (s_filter data) EmptyString);
     w_dsl_type := BoolExprV1;
     w_placeholder_group := placeholders data info;
     w_search_params := parseToKeyValue (make_search_params data info) |}.

(** *** The result decoder (lines 404-461) *)

(** An element of [fieldsData] (lines 414-422); [data] is [''] when the
    reply gives the column no value, and [''[i]] is [undefined] like an
    element of the empty array. *)
Record DecodedColumn : Type := {
  d_type : string;
  d_field_name : string;
  d_data : list JsValue
}.

Definition decode_column (item : FieldDataRes) : DecodedColumn :=
  {| d_type := r_type item;
     d_field_name := r_field_name item;
     d_data := match r_column item with Some d => d | None => [] end |}.

(** [typeof round_decimal === 'undefined' || round_decimal === -1] *)
Definition no_rounding (round_decimal : JsValue) : bool :=
  match round_decimal with
  | VUndefined => true
  | VNum n => js_num_eq n (num_of_Z (-1))
  | _ => false
  end.

(** [fixedScore] (lines 436-439). *)
Definition fixedScore (round_decimal : JsValue) (score : JsNum) : JsNum :=
  if no_rounding round_decimal then score
  else formatNumberPrecision score round_decimal.

(** [i] (line 435): the index into [ids] and the field columns. *)
Definition absolute_index (index scoreIndex : nat) (topk : Z) : Z :=
  if (index =? 0)%nat then Z.of_nat scoreIndex
  else (Z.of_nat scoreIndex + topk)%Z.

(** The body of [fieldsData.forEach] (lines 445-457). *)
Definition project_field (i : Z) (result : JsObject) (field : DecodedColumn)
           (_ : nat) : Result JsObject :=
  if String.eqb (d_type field) "JSON" then
    match arr_get (d_data field) i with
    | VUndefined | VNull => Throw TypeError
    | x => bindR (JSON_parse x)
                 (fun v => Ok (obj_set result (d_field_name field) v))
    end
  else Ok (obj_set result (d_field_name field) (arr_get (d_data field) i)).

(** The row built for one score (lines 435-458). *)
Definition decode_score (round_decimal : JsValue)
           (fieldsData : list DecodedColumn) (idData : option (list JsValue))
           (index : nat) (topk : Z) (score : JsNum) (scoreIndex : nat)
  : Result JsObject :=
  let i := absolute_index index scoreIndex topk in
  let result :=
    [("score", VNum (fixedScore round_decimal score));
     ("id", match idData with
            | Some ids => arr_get ids i
            | None => VStr EmptyString
            end)] in
  forEach (project_field i) fieldsData result.

(** The body of [topks.forEach] (lines 431-460) on the state
    (remaining [scores], [results]): [scores.splice(0, topk)] takes the
    next [topk] scores off the front. *)
Definition decode_query (round_decimal : JsValue)
           (fieldsData : list DecodedColumn) (idData : option (list JsValue))
           (st : list JsNum * list JsObject) (v : Z) (index : nat)
  : Result (list JsNum * list JsObject) :=
  let topk := v in
  let spliced := firstn (Z.to_nat topk) (fst st) in
  bindR
    (forEach (fun results score scoreIndex =>
                bindR (decode_score round_decimal fieldsData idData
                                    index topk score scoreIndex)
                      (fun result => Ok (results ++ [result])%list))
             spliced (snd st))
    (fun results => Ok (skipn (Z.to_nat topk) (fst st), results)).

(** [results] (lines 404-461). *)
Definition decode_results (round_decimal : JsValue) (promise : SearchRes)
  : Result (list JsObject) :=
  match sr_results promise with
  | None => Ok []
  | Some r =>
      bindR (forEach (decode_query round_decimal
                                   (map decode_column (res_fields_data r))
                                   (res_ids r))
                     (res_topks r) (res_scores r, []))
            (fun st => Ok (snd st))
  end.

(** [search] (lines 303-471). *)
Definition search (data : SearchData) : M SearchResults :=
  guard (checkSearchParams data) ;;
  rethrow (
    collectionInfo <-
      call (DescribeCollection (s_collection_name data))
           (describe_reply (s_collection_name data)) ;;
    let info := classify (dc_fields collectionInfo) in
    let req := search_request data info in
    promise <- call (Search req (or_timeout (s_timeout data) this_timeout))
                    (search_reply req) ;;
    results <- lift (decode_results (round_decimal data) promise) ;;
    ret {| status := sr_status promise; results := results |}).

Definition is_Search (c : WireCall) : bool :=
  match c with
  | Search _ _ => true
  | _ => false
  end.
End Search.

(** ** [query]: the vector branch of the column decoder (lines 631-659) *)

(** [item.vectors[item.vectors.data]] of a reply column. *)
Inductive VectorData : Type :=
| float_vector (data : list JsNum)
| binary_vector (buffer : list byte).

(** [item.vectors]; the wire carries [dim] as an int64, read as a string. *)
Record VectorField : Type := {
  vf_dim : string;
  vf_data : VectorData
}.

(** [buffer.toJSON().data]: the bytes of a buffer as numbers. *)
Definition bytes_as_numbers (buffer : list byte) : list JsNum :=
  map (fun b => num_of_nat (nat_of_ascii (ascii_of_byte b))) buffer.

(** [vectorValue] (lines 634-637). *)
Definition vectorValue (vectors : VectorField) : list JsNum :=
  match vf_data vectors with
  | float_vector data => data
  | binary_vector buffer => bytes_as_numbers buffer
  end.

(** [dim] (lines 640-643). *)
Definition query_dim (vectors : VectorField) : JsNum :=
  match vf_data vectors with
  | float_vector _ => Number (Some (vf_dim vectors))
  | binary_vector _ => js_div (Number (Some (vf_dim vectors))) (inject_Z 8)
  end.

(** [Math.floor(i / dim)] as an array index (line 648).  [NaN] (from a
    [NaN] or zero [dim]), an infinity (from a zero [dim]) and a negative
    number name a property that is no element of the array: [None].  An
    infinite [dim] gives the index 0. *)
Definition row_index (i : nat) (dim : JsNum) : option nat :=
  match dim with
  | NaN => None
  | Infinity _ => Some 0%nat
  | Num d =>
      if Qeq_bool d (inject_Z 0) then None
      else
        let index := Qfloor (inject_Z (Z.of_nat i) / d) in
        if (index <? 0)%Z then None else Some (Z.to_nat index)
  end.

Arguments row_index : simpl never.

(** Lines 649-652 on the sparse array [data]: [data[index]] is created
    empty when it is a hole, then [v] is pushed onto it. *)
Fixpoint push_at (data : list (option (list JsNum))) (index : nat) (v : JsNum)
  : list (option (list JsNum)) :=
  match data, index with
  | [], O => [Some [v]]
  | [], S k => None :: push_at [] k v
  | None :: rest, O => Some [v] :: rest
  | Some row :: rest, O => Some (row ++ [v])%list :: rest
  | x :: rest, S k => x :: push_at rest k v
  end.

(** The loop of lines 647-653 from position [i] on. *)
Fixpoint unflatten_from (i : nat) (dim : JsNum) (vectorValue : list JsNum)
         (data : list (option (list JsNum))) : list (option (list JsNum)) :=
  match vectorValue with
  | [] => data
  | v :: rest =>
      unflatten_from (S i) dim rest
        match row_index i dim with
        | Some index => push_at data index v
        | None => data
        end
  end.

(** [data] of a vector column (lines 632-658). *)
Definition decode_vector_column (vectors : VectorField)
  : list (option (list JsNum)) :=
  unflatten_from 0 (query_dim vectors) (vectorValue vectors) [].

(** The reading of the specification: the flat array cut into consecutive
    slices of [d] elements, the last one shorter when the length is no
    multiple of [d]. *)
Fixpoint chunks_fuel (fuel d : nat) (l : list JsNum) : list (list JsNum) :=
  match fuel, l with
  | O, _ | _, [] => []
  | S fuel', _ => firstn d l :: chunks_fuel fuel' d (skipn d l)
  end.

Definition chunks (d : nat) (l : list JsNum) : list (list JsNum) :=
  chunks_fuel (List.length l) d l.

(** ** A reference environment

    One implementation of what [Data.ts] imports and one server, to run the
    codec on concrete inputs. *)

(** Modelled from the spec: the [DataTypeMap] table, declared outside
    src/.  The spec has every field carry a declared type out of a fixed
    set, and by the comment of lines 155-156 the server gives it as a
    string that the table maps to the [DataType] member; here the string is
    the member's own name. *)
Definition reference_DataTypeMap (type_name : string) : option DataType.t :=
  if String.eqb type_name "Bool" then Some DataType.Bool
  else if String.eqb type_name "Int8" then Some DataType.Int8
  else if String.eqb type_name "Int16" then Some DataType.Int16
  else if String.eqb type_name "Int32" then Some DataType.Int32
  else if String.eqb type_name "Int64" then Some DataType.Int64
  else if String.eqb type_name "Float" then Some DataType.Float
  else if String.eqb type_name "Double" then Some DataType.Double
  else if String.eqb type_name "VarChar" then Some DataType.VarChar
  else if String.eqb type_name "JSON" then Some DataType.JSON
  else if String.eqb type_name "BinaryVector" then Some DataType.BinaryVector
  else if String.eqb type_name "FloatVector" then Some DataType.FloatVector
  else None.

(** JavaScript's own [String], [ToNumber], [slice], [split] and [map], which
    the text of a number goes through below. *)

(** [String(v)]; the elements [undefined] and [null] of an array print as
    nothing, and a [Buffer] prints the text its bytes encode. *)
Fixpoint js_to_string (v : JsValue) : string :=
  match v with
  | VUndefined => "undefined"
  | VNull => "null"
  | VBool true => "true"
  | VBool false => "false"
  | VNum n => Number_toString n
  | VStr s => s
  | VArr l =>
      join_comma (map (fun x => match x with
                                | VUndefined | VNull => EmptyString
                                | _ => js_to_string x
                                end) l)
  | VObj _ => "[object Object]"
  | VBuf bytes => string_of_list_byte bytes
  end.

(** [ToNumber] *)
Definition to_number (v : JsValue) : JsNum :=
  match v with
  | VUndefined => NaN
  | VNull => Num (inject_Z 0)
  | VBool b => Num (inject_Z (if b then 1 else 0))
  | VNum n => n
  | VStr s => Number (Some s)
  | VArr _ | VObj _ | VBuf _ => Number (Some (js_to_string v))
  end.

(** [s.slice(0, end)]: [end] is read as an integer, counts from the end of
    the string when it is negative, and is the length when it is
    [undefined]. *)
Definition slice_to (s : string) (end_ : JsValue) : string :=
  let len := Z.of_nat (String.length s) in
  let to :=
    match end_ with
    | VUndefined => len
    | _ =>
        match to_number end_ with
        | NaN => 0%Z
        | Infinity negative => if negative then 0%Z else len
        | Num q =>
            let t := Z.quot (Qnum q) (Z.pos (Qden q)) in
            if (t <? 0)%Z then Z.max (len + t) 0 else Z.min t len
        end
    end in
  substring 0 (Z.to_nat to) s.

(** [s.split('.')] *)
Fixpoint split_dot (s : string) : list string :=
  match s with
  | EmptyString => [EmptyString]
  | String c rest =>
      if Ascii.eqb c "." then EmptyString :: split_dot rest
      else
        match split_dot rest with
        | part :: parts => String c part :: parts
        | [] => [String c EmptyString]
        end
  end.

(** [l.map((v, i) => f v i)] from index [i] on. *)
Fixpoint map_from {A B} (i : nat) (f : A -> nat -> B) (l : list A) : list B :=
  match l with
  | [] => []
  | x :: rest => f x i :: map_from (S i) f rest
  end.

(** Modelled from the spec: [formatNumberPrecision], imported from ['../']
    and not under src/.  The spec has the decoder cut the score to
    [roundDecimal] decimal digits, and the comment of lines 356-361 has the
    score sliced by [round_decimal]: the text of the number is split at the
    point, the fractional digits are sliced with [slice(0, precision)], and
    the text put together again is read back as a number. *)
Definition reference_formatNumberPrecision (number : JsNum)
           (precision : JsValue) : JsNum :=
  Number
    (Some (String.concat "."
             (map_from 0 (fun v i => if (i =? 1)%nat then slice_to v precision else v)
                       (split_dot (Number_toString number))))).

Definition reference_externals : Externals :=
  {| DataTypeMap := reference_DataTypeMap;
     checkCollectionName := fun name =>
       if String.eqb name EmptyString
       then Some (External "COLLECTION_NAME_IS_REQUIRED") else None;
     checkSearchParams := fun data =>
       if String.eqb (s_collection_name data) EmptyString
       then Some (External "COLLECTION_NAME_IS_REQUIRED") else None;
     parseBinaryVectorToBytes := fun _ => [];
     parseFloatVectorToBytes := fun _ => [];
     parseToKeyValue := fun sp =>
       [("anns_field", match sp_anns_field sp with Some a => a | None => "undefined" end);
        ("topk", string_of_Z (sp_topk sp));
        ("metric_type", sp_metric_type sp);
        ("params", sp_params sp)];
     formatNumberPrecision := reference_formatNumberPrecision;
     JSON_parse := fun x => Ok x;
     DEFAULT_TOPK := 100;
     DEFAULT_METRIC_TYPE := "L2" |}.

Definition success : ResStatus :=
  {| error_code := SUCCESS; reason := EmptyString |}.

(** A server that holds one collection schema and answers every search
    with the same reply. *)
Definition reference_server (fields : list FieldSchema) (reply : SearchRes)
  : Server :=
  {| describe_reply := fun _ => Ok {| dc_status := success; dc_fields := fields |};
     insert_reply := fun _ => Ok VNull;
     search_reply := fun _ => Ok reply;
     this_timeout := None |}.

Definition no_results : SearchRes :=
  {| sr_status := success; sr_results := None |}.

Definition field (name type_name : string) (type_params : list (string * string))
  : FieldSchema :=
  {| fs_name := name; fs_data_type := type_name; fs_type_params := type_params;
     fs_is_primary_key := false; fs_autoID := false |}.

Definition insert_of (rows : list JsObject) : InsertReq :=
  {| ins_collection_name := "c"; ins_partition_name := None;
     ins_fields_data := Some rows; ins_hash_keys := None;
     ins_timeout := None |}.

(** The simple request shape: one query vector, nothing else set. *)
Definition simple_search (vector : JsValue) : SearchData :=
  {| s_collection_name := "c"; s_partition_names := None;
     s_search_params := None; s_vectors := None; s_vector := vector;
     s_limit := None; s_topk := None; s_offset := None;
     s_metric_type := None; s_params := None; s_output_fields := None;
     s_nq := None; s_expr := None; s_filter := None; s_timeout := None |}.

Definition jnum (z : Z) : JsValue := VNum (num_of_Z z).

(** A reply to two query vectors that found two and three entities. *)
Definition two_and_three : SearchRes :=
  {| sr_status := success;
     sr_results :=
       Some {| res_topks := [2; 3]%Z;
               res_scores := map num_of_Z [90; 80; 70; 60; 50]%Z;
               res_fields_data :=
                 [{| r_type := "Int64"; r_field_name := "age";
                     r_column := Some (map jnum [20; 21; 22; 23; 24]%Z) |}];
               res_ids := Some (map jnum [10; 11; 12; 13; 14]%Z) |} |}.

Definition result_row (score id age : JsValue) : JsObject :=
  [("score", score); ("id", id); ("age", age)].


(** Two vector fields around a scalar one. *)
Definition two_vector_fields : list FieldSchema :=
  [field "a" "FloatVector" [("dim", "4")];
   field "age" "Int64" [];
   field "b" "BinaryVector" [("dim", "16")]].

Definition scalar_fields : list FieldSchema :=
  [field "age" "Int64" []; field "tags" "JSON" []].

Definition sample_search_params (round_decimal : JsValue) : SearchParam :=
  {| sp_anns_field := Some "a"; sp_topk := 10; sp_offset := None;
     sp_metric_type := "L2"; sp_params := "{}";
     sp_round_decimal := round_decimal |}.

(** A request with the given explicit [search_params] and simple-shape
    [params]. *)
Definition search_with (search_params : option SearchParam)
           (params : option JsObject) : SearchData :=
  {| s_collection_name := "c"; s_partition_names := None;
     s_search_params := search_params; s_vectors := None;
     s_vector := VArr [jnum 1; jnum 2; jnum 3; jnum 4];
     s_limit := None; s_topk := None; s_offset := None;
     s_metric_type := None; s_params := params; s_output_fields := None;
     s_nq := None; s_expr := None; s_filter := None; s_timeout := None |}.

(** ** Vocabulary for the encoder's properties *)

Section EncoderVocabulary.
Context {ext : Externals}.

(** What the encoder reads of an accumulator and never changes: the
    declared type and the dimension. *)
Definition field_sig (fieldsData : JsMap Target) (name : string)
  : option (string * JsNum) :=
  option_map (fun t => (t_type t, t_dim t)) (Map_get fieldsData name).

Definition is_vector_type (ty : option DataType.t) : bool :=
  is_type ty DataType.BinaryVector || is_type ty DataType.FloatVector.

(** Every key of every row names a resolved field, and every value of a
    vector field is an array. *)
Definition rows_well_formed (fieldsData : JsMap Target) (rows : list JsObject)
  : Prop :=
  forall row name,
    In row rows -> In name (Object_keys row) ->
    exists target,
      Map_get fieldsData name = Some target
      /\ (is_vector_type (DataTypeMap (t_type target)) = true ->
          exists l, obj_get row name = VArr l).
(** A binary-vector value of the wrong length, judged on what the encoder
    reads of the accumulator. *)
Definition mismatch (sig : option (string * JsNum)) (x : JsValue) : Prop :=
  exists type_name d len,
    sig = Some (type_name, d)
    /\ DataTypeMap type_name = Some DataType.BinaryVector
    /\ js_length x = Ok len
    /\ js_strict_neq len (js_div d (inject_Z 8)) = true.

(** A value the encoder can take for the field it names: the field is
    resolved, and a vector field gets an array. *)
Definition entry_ok (sig : option (string * JsNum)) (x : JsValue) : Prop :=
  exists type_name d,
    sig = Some (type_name, d)
    /\ (is_vector_type (DataTypeMap type_name) = true -> exists l, x = VArr l).

(** The kinds of error the encoder throws. *)
Definition encoder_error (e : Error) : Prop :=
  e = INSERT_CHECK_WRONG_DIM
  \/ (exists i, e = INSERT_CHECK_WRONG_FIELD i)
  \/ e = TypeError.
End EncoderVocabulary.

Definition binary_field : list FieldSchema :=
  [field "bv" "BinaryVector" [("dim", "16")]].


Definition json_field : list FieldSchema := [field "tags" "JSON" []].

(** A float-vector field of dimension 4 and rows for the encoder. *)
Definition float_field : list FieldSchema :=
  [field "v" "FloatVector" [("dim", "4")]].

Definition short_binary_row : JsObject := [("bv", VArr [jnum 1])].

Definition unknown_then_short_binary_row : JsObject :=
  [("x", jnum 1); ("bv", VArr [jnum 1])].

Definition short_float_row : JsObject := [("v", VArr [jnum 1; jnum 2])].

Definition zero_json_row : JsObject := [("tags", jnum 0)].

Definition target_of (name type_name : string) (d : JsNum)
           (value : list JsValue) : Target :=
  {| t_name := name; t_type := type_name; t_dim := d; t_value := value |}.

(** The array [data] while [unflatten_from] runs over a column of positive
    integer dimension: the completed rows, then the row being filled. *)
Definition rows_so_far (full : list (list JsNum)) (partial : list JsNum)
  : list (option (list JsNum)) :=
  (map Some full ++ match partial with
                    | [] => []
                    | _ => [Some partial]
                    end)%list.

(** The column of the specification's example. *)
Definition eight_floats : VectorField :=
  {| vf_dim := "4";
     vf_data := float_vector (map num_of_Z [1; 2; 3; 4; 5; 6; 7; 8]%Z) |}.

(** A binary column of dimension 16 holding two entities. *)
Definition four_bytes : VectorField :=
  {| vf_dim := "16"; vf_data := binary_vector ["a"; "b"; "c"; "d"]%byte |}.

(** The reading of the specification for the index of entry [i] of query
    [q]: [i] for the first query, and the running offset of the counts of
    the prior queries plus [i] for a later one. *)
Definition running_offset_index (topks : list Z) (q i : nat) : Z :=
  if (q =? 0)%nat then Z.of_nat i
  else (fold_right Z.add 0 (firstn q topks) + Z.of_nat i)%Z.

(** ** Vocabulary for the columns [insert] builds *)

Section ColumnVocabulary.
Context {ext : Externals}.

(** The filter of line 105. *)
Definition kept (v : FieldSchema) : bool :=
  negb (fs_is_primary_key v) || negb (fs_autoID v).

(** The declared types that take the [default] branch of lines 147-149. *)
Definition plain_scalar (ty : option DataType.t) : bool :=
  match ty with
  | Some DataType.BinaryVector | Some DataType.FloatVector
  | Some DataType.JSON => false
  | _ => true
  end.

(** The declared types the [switch] of lines 160-194 has a case for. *)
Definition supported (ty : option DataType.t) : bool :=
  match ty with
  | Some (DataType.Other _) | None => false
  | Some _ => true
  end.

Definition has_key (row : JsObject) (name : string) : bool :=
  existsb (String.eqb name) (Object_keys row).

(** The elements a row contributes to the flat buffer of a vector field. *)
Definition row_elements (name : string) (row : JsObject) : list JsValue :=
  if has_key row name then
    match js_iterate (obj_get row name) with
    | Ok vals => vals
    | Throw _ => []
    end
  else [].

(** What the encoder never changes of [fieldsData]: the keys in order, and
    the name, declared type and dimension of every accumulator. *)
Definition skeleton (fieldsData : JsMap Target)
  : list (string * (string * string * JsNum)) :=
  map (fun kv => (fst kv, (t_name (snd kv), t_type (snd kv), t_dim (snd kv))))
      fieldsData.
End ColumnVocabulary.

(** A schema with an auto-id primary key, a scalar and a float vector, two
    rows for it, and the request [insert] sends for them. *)
Definition people_fields : list FieldSchema :=
  [{| fs_name := "id"; fs_data_type := "Int64"; fs_type_params := [];
      fs_is_primary_key := true; fs_autoID := true |};
   field "age" "Int64" [];
   field "v" "FloatVector" [("dim", "2")]].

Definition people_rows : list JsObject :=
  [[("v", VArr [jnum 1; jnum 2]); ("age", jnum 30)];
   [("age", jnum 40); ("v", VArr [jnum 3; jnum 4])]].

Definition people_params : InsertParams :=
  {| ip_collection_name := "c"; ip_partition_name := None;
     ip_hash_keys := None; ip_num_rows := 2;
     ip_fields_data :=
       [{| col_type := DataType.Int64; col_field_name := "age";
           col_payload := scalars "long_data" [jnum 30; jnum 40] |};
        {| col_type := DataType.FloatVector; col_field_name := "v";
           col_payload :=
             vectors_float (num_of_Z 2) [jnum 1; jnum 2; jnum 3; jnum 4] |}] |}.

Definition people_info : DescribeCollectionResponse :=
  {| dc_status := success; dc_fields := people_fields |}.

(** A schema with a field of a type [insert] has no wire key for. *)
Definition fields_with_string : list FieldSchema :=
  [field "age" "Int64" []; field "note" "String" []].

(** Rows that name the auto-id primary key, and rows for a binary field. *)
Definition rows_with_id : list JsObject :=
  [[("age", jnum 30); ("v", VArr [jnum 1; jnum 2])];
   [("age", jnum 40); ("id", jnum 7)]].

Definition two_byte_row : JsObject := [("bv", VArr [jnum 1; jnum 2])].

(** The [score] a result row reports. *)
Definition score_of (row : JsObject) : JsValue := obj_get row "score".

(** The number of scores the decoder takes off the queue: the sum of the
    counts in [topks], a negative count taking none. *)
Definition total_topk (topks : list Z) : nat :=
  fold_right (fun v acc => Z.to_nat v + acc)%nat 0%nat topks.

(** [ids[i]] as a result row reports it (line 443). *)
Definition id_at (ids : option (list JsValue)) (i : Z) : JsValue :=
  match ids with
  | Some l => arr_get l i
  | None => VStr EmptyString
  end.

Definition two_and_three_data : SearchResultData :=
  {| res_topks := [2; 3]%Z;
     res_scores := map num_of_Z [90; 80; 70; 60; 50]%Z;
     res_fields_data :=
       [{| r_type := "Int64"; r_field_name := "age";
           r_column := Some (map jnum [20; 21; 22; 23; 24]%Z) |}];
     res_ids := Some (map jnum [10; 11; 12; 13; 14]%Z) |}.

Definition two_and_three_rows : list JsObject :=
  [result_row (jnum 90) (jnum 10) (jnum 20);
   result_row (jnum 80) (jnum 11) (jnum 21);
   result_row (jnum 70) (jnum 13) (jnum 23);
   result_row (jnum 60) (jnum 14) (jnum 24);
   result_row (jnum 50) VUndefined VUndefined].

(** ** [query], [flush] and [flushSync] *)

(** [QueryReq], as far as [query] reads it. *)
Record QueryReq : Type := {
  q_collection_name : string;
  q_expr : string;
  q_partition_names : option (list string);
  q_output_fields : option (list string);
  q_limit : JsValue;
  q_offset : JsValue;
  q_timeout : option Z
}.

(** [item.vectors] or [item.scalars] of a reply column, by [item.field];
    [key] is [item.scalars.data] and [data] is [item.scalars[key].data]. *)
Inductive QueryColumnData : Type :=
| column_vectors (vectors : VectorField)
| column_scalars (key : string) (data : list JsValue).

Record QueryColumn : Type := {
  qc_field_name : string;
  qc_data : QueryColumnData
}.

Record QueryRes : Type := {
  qr_status : ResStatus;
  qr_fields_data : list QueryColumn
}.

(** What [query] returns; [data] is an array that may have holes. *)
Record QueryResults : Type := {
  q_status : ResStatus;
  q_data : list (option JsObject)
}.

(** The reply of [Flush]: [coll_segIDs] maps a collection name to the
    [data] of its segment ids. *)
Record FlushResult : Type := {
  fl_status : ResStatus;
  coll_segIDs : list (string * list Z)
}.

Record GetFlushStateResponse : Type := {
  gfs_status : ResStatus;
  flushed : bool
}.

(** The calls of [query], [flush], [getFlushState] and [flushSync]. *)
Inductive DataCall : Type :=
| Query (data : QueryReq) (query_params : list (string * string))
        (timeout : option Z)
| Flush (collection_names : option (list string)) (timeout : option Z)
| GetFlushState (segmentIDs : list Z) (timeout : option Z).

(** The server as these methods see it.  The answer to [GetFlushState] may
    change from one poll to the next: [flush_state_reply n] answers the
    poll that [n] polls came before. *)
Class DataServer : Type := {
  query_reply : QueryReq -> list (string * string) -> Result QueryRes;
  flush_reply : option (list string) -> Result FlushResult;
  flush_state_reply : nat -> list Z -> Result GetFlushStateResponse;
  client_timeout : option Z
}.

(** [parseToKeyValue] on the object [query] builds; imported from ['../']. *)
Class QueryExternals : Type := {
  parseObjectToKeyValue : JsObject -> list (string * string)
}.

(** A method body over the log of these calls. *)
Definition Rpc (A : Type) : Type := list DataCall -> list DataCall * Result A.

Definition rpc_ret {A} (a : A) : Rpc A := fun log => (log, Ok a).
Definition rpc_throw {A} (e : Error) : Rpc A := fun log => (log, Throw e).

Definition rpc_bind {A B} (m : Rpc A) (k : A -> Rpc B) : Rpc B :=
  fun log =>
    match m log with
    | (log', Ok a) => k a log'
    | (log', Throw e) => (log', Throw e)
    end.

(** A call through [promisify] whose answer may depend on the calls made
    before it. *)
Definition rpc_call {A} (c : DataCall) (reply : list DataCall -> Result A)
  : Rpc A :=
  fun log => ((log ++ [c])%list, reply log).

Declare Scope rpc_scope.
Delimit Scope rpc_scope with rpc.
Notation "x <- m ;; k" := (rpc_bind m (fun x => k))
  (at level 61, m at next level, right associativity) : rpc_scope.

Definition is_GetFlushState (c : DataCall) : bool :=
  match c with
  | GetFlushState _ _ => true
  | _ => false
  end.

(** The number of polls in a log. *)
Definition polls (log : list DataCall) : nat :=
  List.length (filter is_GetFlushState log).

(** The error of [ERROR_REASONS.COLLECTION_NAME_IS_REQUIRED]. *)
Definition COLLECTION_NAME_IS_REQUIRED : Error :=
  External "COLLECTION_NAME_IS_REQUIRED".

Section Query.
Context {ext : Externals} {qext : QueryExternals} {dsrv : DataServer}.
Local Open Scope rpc_scope.

(** [typeof v === 'number'] *)
Definition is_number (v : JsValue) : bool :=
  match v with
  | VNum _ => true
  | _ => false
  end.

(** [{ ...limits, ...offset }] (lines 602-617). *)
Definition query_params_object (data : QueryReq) : JsObject :=
  ((if is_number (q_limit data) then [("limit", q_limit data)] else [])
     ++ (if is_number (q_offset data) then [("offset", q_offset data)] else []))%list.

(** [JSON.parse(buffer.toString())] (line 668); [toString] is read on the
    element first. *)
Definition parse_buffer (buffer : JsValue) : Result JsValue :=
  match buffer with
  | VUndefined | VNull => Throw TypeError
  | x => JSON_parse x
  end.

(** The callback of lines 631-679: the name and the [data] of a column.
    The rows of a vector column are arrays of numbers. *)
Definition decode_query_column (item : QueryColumn)
  : Result (string * list (option JsValue)) :=
  match qc_data item with
  | column_vectors vectors =>
      Ok (qc_field_name item,
          map (option_map (fun row => VArr (map VNum row)))
              (decode_vector_column vectors))
  | column_scalars key scalarValue =>
      if String.eqb key "json_data" then
        bindR (mapR parse_buffer scalarValue)
              (fun parsed => Ok (qc_field_name item, map Some parsed))
      else Ok (qc_field_name item, map Some scalarValue)
  end.

(** Lines 684-693 on the sparse array [results]: row [i] is created with
    the one field when it is a hole, and is replaced by a copy with the
    field set otherwise. *)
Fixpoint set_field (results : list (option JsObject)) (i : nat)
         (name : string) (d : JsValue) : list (option JsObject) :=
  match results, i with
  | [], O => [Some [(name, d)]]
  | [], S k => None :: set_field [] k name d
  | None :: rest, O => Some [(name, d)] :: rest
  | Some row :: rest, O => Some (obj_set row name d) :: rest
  | x :: rest, S k => x :: set_field rest k name d
  end.

(** [v.data.forEach] (lines 683-694) from index [i] on; [forEach] skips
    the holes of the column. *)
Fixpoint transpose_column (name : string) (i : nat)
         (column : list (option JsValue)) (results : list (option JsObject))
  : list (option JsObject) :=
  match column with
  | [] => results
  | Some d :: rest =>
      transpose_column name (S i) rest (set_field results i name d)
  | None :: rest => transpose_column name (S i) rest results
  end.

(** [results] after [fieldsData.forEach] (lines 682-695). *)
Definition transpose (fieldsData : list (string * list (option JsValue)))
  : list (option JsObject) :=
  fold_left (fun results v => transpose_column (fst v) 0 (snd v) results)
            fieldsData [].

(** [query] (lines 599-700). *)
Definition query (data : QueryReq) : Rpc QueryResults :=
  _ <- (match checkCollectionName (q_collection_name data) with
        | Some e => rpc_throw e
        | None => rpc_ret tt
        end) ;;
  let query_params := parseObjectToKeyValue (query_params_object data) in
  promise <- rpc_call (Query data query_params
                             (or_timeout (q_timeout data) client_timeout))
                      (fun _ => query_reply data query_params) ;;
  match mapR decode_query_column (qr_fields_data promise) with
  | Throw e => rpc_throw e
  | Ok fieldsData =>
      rpc_ret {| q_status := qr_status promise;
                 q_data := transpose fieldsData |}
  end.

(** The value row [i] of a result holds under [name]; [None] when the
    array has no row there. *)
Definition cell (results : list (option JsObject)) (i : nat) (name : string)
  : option JsValue :=
  match nth i results None with
  | Some row => Some (obj_get row name)
  | None => None
  end.

(** [flush] (lines 496-511); [collection_names] is [None] when [data] has
    no array under that name. *)
Definition flush (collection_names : option (list string))
           (timeout : option Z) : Rpc FlushResult :=
  match collection_names with
  | None | Some [] => rpc_throw COLLECTION_NAME_IS_REQUIRED
  | Some _ =>
      rpc_call (Flush collection_names (or_timeout timeout client_timeout))
               (fun _ => flush_reply collection_names)
  end.

(** [getFlushState] (lines 752-763) as [flushSync] calls it: with an array
    of segment ids, which passes the parameter check, and no timeout. *)
Definition getFlushState (segmentIDs : list Z) : Rpc GetFlushStateResponse :=
  rpc_call (GetFlushState segmentIDs (or_timeout None client_timeout))
           (fun log => flush_state_reply (polls log) segmentIDs).

(** [segIDs] (lines 553-555): the segment ids of all collections. *)
Definition segIDs_of (res : FlushResult) : list Z :=
  fold_left (fun pre cur => (pre ++ cur)%list) (map snd (coll_segIDs res)) [].

(** The loop of lines 559-563, for at most [fuel] polls; [None] when it is
    still polling after them.  The pause of 100 ms between two polls is
    not modelled. *)
Fixpoint poll (fuel : nat) (segIDs : list Z)
  : Rpc (option GetFlushStateResponse) :=
  match fuel with
  | O => rpc_ret None
  | S fuel' =>
      flushRes <- getFlushState segIDs ;;
      if flushed flushRes then rpc_ret (Some flushRes) else poll fuel' segIDs
  end.

(** [flushSync] (lines 537-566). *)
Definition flushSync (fuel : nat) (collection_names : option (list string))
           (timeout : option Z) : Rpc (option GetFlushStateResponse) :=
  match collection_names with
  | None | Some [] => rpc_throw COLLECTION_NAME_IS_REQUIRED
  | Some _ =>
      res <- rpc_call (Flush collection_names
                             (or_timeout timeout client_timeout))
                      (fun _ => flush_reply collection_names) ;;
      poll fuel (segIDs_of res)
  end.
End Query.

(** A server for these methods: it answers a query with the given reply,
    and reports the flush done from the poll of index [n] on. *)
Definition reference_data_server (reply : QueryRes) (n : nat) : DataServer :=
  {| query_reply := fun _ _ => Ok reply;
     flush_reply := fun _ =>
       Ok {| fl_status := success;
             coll_segIDs := [("c", [1; 2]%Z); ("d", [3]%Z)] |};
     flush_state_reply := fun k _ =>
       Ok {| gfs_status := success; flushed := (n <=? k)%nat |};
     client_timeout := None |}.

Definition reference_query_externals : QueryExternals :=
  {| parseObjectToKeyValue := fun o =>
       map (fun kv => (fst kv,
                       match JSON_stringify (snd kv) with
                       | Some s => s
                       | None => EmptyString
                       end)) o |}.

Definition query_of (expr : string) : QueryReq :=
  {| q_collection_name := "c"; q_expr := expr; q_partition_names := None;
     q_output_fields := None; q_limit := VUndefined; q_offset := VUndefined;
     q_timeout := None |}.

(** A reply with a scalar column and a float-vector column of two
    entities. *)
Definition two_entities : QueryRes :=
  {| qr_status := success;
     qr_fields_data :=
       [{| qc_field_name := "age";
           qc_data := column_scalars "long_data" [jnum 30; jnum 40] |};
        {| qc_field_name := "v";
           qc_data :=
             column_vectors
               {| vf_dim := "2";
                  vf_data := float_vector (map num_of_Z [1; 2; 3; 4]%Z) |} |}] |}.

(** The rows that hold one float vector each under [name]. *)
Definition vector_rows (name : string) (vecs : list (list JsNum))
  : list JsObject :=
  map (fun v => [(name, VArr (map VNum v))]) vecs.

(** The length of the values of a scalar column; 0 for a vector column. *)
Definition scalar_length (item : QueryColumn) : nat :=
  match qc_data item with
  | column_scalars _ values => List.length values
  | column_vectors _ => 0
  end.

Definition is_scalars (item : QueryColumn) : bool :=
  match qc_data item with
  | column_scalars _ _ => true
  | column_vectors _ => false
  end.

(** The poll [flushSync] repeats. *)
Definition poll_call {dsrv : DataServer} (segIDs : list Z) : DataCall :=
  GetFlushState segIDs (or_timeout None client_timeout).

(** A server that never reports the flush done. *)
Definition never_flushed_server : DataServer :=
  {| query_reply := fun _ _ => Ok two_entities;
     flush_reply := fun _ =>
       Ok {| fl_status := success; coll_segIDs := [("c", [1; 2]%Z)] |};
     flush_state_reply := fun _ _ =>
       Ok {| gfs_status := success; flushed := false |};
     client_timeout := None |}.

(** ** Vocabulary for the score formatting *)






(** Two float vectors, and the request [insert] sends for the rows that
    hold them under [v] in a collection of [people_fields]. *)
Definition two_vectors : list (list JsNum) :=
  [map num_of_Z [1; 2]%Z; map num_of_Z [3; 4]%Z].

Definition two_vectors_params : InsertParams :=
  {| ip_collection_name := "c"; ip_partition_name := None;
     ip_hash_keys := None; ip_num_rows := 2;
     ip_fields_data :=
       [{| col_type := DataType.Int64; col_field_name := "age";
           col_payload := scalars "long_data" [] |};
        {| col_type := DataType.FloatVector; col_field_name := "v";
           col_payload :=
             vectors_float (num_of_Z 2) [jnum 1; jnum 2; jnum 3; jnum 4] |}] |}.

(** * Properties *)

Unset Implicit Arguments.

(** * Properties of [Number] and [toString] *)














Lemma substring_nil (p : nat) : substring 0 p EmptyString = EmptyString.
Proof. destruct p; reflexivity. Qed.










Lemma all_digits_substring (s : string) :
  forall p, all_digits s = true -> all_digits (substring 0 p s) = true.
Proof.
  induction s as [|c s IH]; intros p H; [rewrite substring_nil; reflexivity|].
  destruct p as [|p]; [reflexivity|]. simpl in *.
  apply andb_true_iff in H. destruct H as [Hc Hs]. rewrite Hc. apply IH. exact Hs.
Qed.










(** ** Helper lemmas *)

Lemma forEach_from_inv {A St} (P : St -> Prop) (f : St -> A -> nat -> Result St) :
  forall (l : list A) (i : nat) (s s' : St),
    (forall s x j s', In x l -> P s -> f s x j = Ok s' -> P s') ->
    P s -> forEach_from i f l s = Ok s' -> P s'.
Proof.
  induction l as [|x rest IH]; intros i s s' Hstep Hs Hrun; simpl in Hrun.
  - inversion Hrun; subst; exact Hs.
  - destruct (f s x i) as [s1|e] eqn:E; simpl in Hrun; [|discriminate].
    apply (IH (S i) s1 s'); auto.
    + intros s2 y j s3 Hy; apply Hstep; right; exact Hy.
    + apply (Hstep s x i s1); auto. left; reflexivity.
Qed.

Lemma obj_get_set_other (o : JsObject) (k k' : string) (v : JsValue) :
  k <> k' -> obj_get (obj_set o k' v) k = obj_get o k.
Proof.
  intros Hne. induction o as [|[k0 v0] rest IH]; simpl.
  - destruct (String.eqb k k') eqn:E; [apply String.eqb_eq in E; contradiction|reflexivity].
  - destruct (String.eqb k' k0) eqn:E'; simpl.
    + apply String.eqb_eq in E'; subst k0.
      destruct (String.eqb k k') eqn:E; [apply String.eqb_eq in E; contradiction|reflexivity].
    + destruct (String.eqb k k0); [reflexivity|exact IH].
Qed.

Lemma obj_get_set_same (o : JsObject) (k : string) (v : JsValue) :
  obj_get (obj_set o k v) k = v.
Proof.
  induction o as [|[k0 v0] rest IH]; simpl.
  - rewrite String.eqb_refl. reflexivity.
  - destruct (String.eqb k k0) eqn:E; simpl; rewrite E; [reflexivity|exact IH].
Qed.


Section SearchDecoding.
Context {ext : Externals}.

Lemma project_field_keeps (i : Z) (k : string) (result result' : JsObject)
      (column : DecodedColumn) (j : nat) :
  d_field_name column <> k ->
  project_field i result column j = Ok result' ->
  obj_get result' k = obj_get result k.
Proof.
  intros Hne. unfold project_field.
  destruct (String.eqb (d_type column) "JSON").
  - destruct (arr_get (d_data column) i) eqn:Ex; try discriminate;
      (destruct (JSON_parse _) as [v|e]; simpl; [|discriminate];
       intros H; inversion H; subst; apply obj_get_set_other; congruence).
  - intros H; inversion H; subst; apply obj_get_set_other; congruence.
Qed.

Lemma decode_score_score (rd : JsValue) (fieldsData : list DecodedColumn)
      (idData : option (list JsValue)) (index : nat) (topk : Z)
      (score : JsNum) (scoreIndex : nat) (row : JsObject) :
  (forall column, In column fieldsData -> d_field_name column <> "score") ->
  decode_score rd fieldsData idData index topk score scoreIndex = Ok row ->
  obj_get row "score" = VNum (fixedScore rd score).
Proof.
  intros Hnames Hrun. unfold decode_score, forEach in Hrun.
  refine (forEach_from_inv
            (fun r => obj_get r "score" = VNum (fixedScore rd score))
            _ _ _ _ _ _ _ Hrun).
  - intros s x j s' Hin Hs Hstep.
    rewrite (project_field_keeps _ _ _ _ _ _ (Hnames x Hin) Hstep). exact Hs.
  - reflexivity.
Qed.


End SearchDecoding.

(** C1, on the code as it is: a reply with [topks = [2, 3]] decodes to five
    rows that read [ids] and the field column at the positions 0, 1, 3, 4
    and 5, where the running offset of the specification gives 0, 1, 2, 3
    and 4.  The third row takes the entity at position 3 instead of 2, and
    the fifth reads past the end of both arrays. *)
Theorem search_splice_two_and_three (ext : Externals) :
  decode_results VUndefined two_and_three
  = Ok [result_row (jnum 90) (jnum 10) (jnum 20);
        result_row (jnum 80) (jnum 11) (jnum 21);
        result_row (jnum 70) (jnum 13) (jnum 23);
        result_row (jnum 60) (jnum 14) (jnum 24);
        result_row (jnum 50) VUndefined VUndefined]
  /\ (map (fun scoreIndex => absolute_index 0 scoreIndex 2) [0; 1]%nat
       ++ map (fun scoreIndex => absolute_index 1 scoreIndex 3) [0; 1; 2]%nat)%list
     = [0; 1; 3; 4; 5]%Z
  /\ (map (running_offset_index [2; 3]%Z 0) [0; 1]%nat
       ++ map (running_offset_index [2; 3]%Z 1) [0; 1; 2]%nat)%list
     = [0; 1; 2; 3; 4]%Z.
Proof. repeat split. Qed.




Section SearchBuilder.
Context {ext : Externals}.

Lemma classify_snoc (fields : list FieldSchema) (f : FieldSchema) :
  classify (fields ++ [f]) = classify_step (classify fields) f.
Proof. unfold classify. rewrite fold_left_app. reflexivity. Qed.

Lemma classify_defaultOutputFields (fields : list FieldSchema) :
  defaultOutputFields (classify fields) = map fs_name (filter not_vector fields).
Proof.
  induction fields as [|f fields IH] using rev_ind; [reflexivity|].
  rewrite classify_snoc, filter_app, map_app. unfold classify_step, not_vector.
  simpl. destruct (is_vector_field f); simpl.
  - rewrite IH, app_nil_r. reflexivity.
  - rewrite IH. reflexivity.
Qed.

Lemma classify_last_vector (fields : list FieldSchema) :
  existsb is_vector_field fields = true ->
  exists pre f post,
    fields = (pre ++ f :: post)%list
    /\ is_vector_field f = true
    /\ forallb not_vector post = true
    /\ anns_field (classify fields) = Some (fs_name f)
    /\ vectorType (classify fields) = DataTypeMap (fs_data_type f)
    /\ dim (classify fields) = search_dim f.
Proof.
  induction fields as [|x fields IH] using rev_ind; [discriminate|].
  intros Hex. rewrite classify_snoc. unfold classify_step.
  destruct (is_vector_field x) eqn:Ex.
  - exists fields, x, []. simpl. repeat split; auto.
  - rewrite existsb_app in Hex. simpl in Hex. rewrite Ex in Hex.
    rewrite orb_false_r in Hex.
    destruct (IH Hex) as (pre & f & post & Hsplit & Hf & Hpost & Ha & Ht & Hd).
    exists pre, f, (post ++ [x])%list. simpl. repeat split; auto.
    + rewrite Hsplit, <- app_assoc. reflexivity.
    + rewrite forallb_app, Hpost. unfold not_vector. simpl. rewrite Ex. reflexivity.
Qed.

Lemma classify_no_vector (fields : list FieldSchema) :
  forallb not_vector fields = true ->
  vectorType (classify fields) = None /\ anns_field (classify fields) = None.
Proof.
  induction fields as [|x fields IH] using rev_ind; [split; reflexivity|].
  rewrite forallb_app. simpl. rewrite andb_true_r.
  intros H. apply andb_true_iff in H. destruct H as [Hl Hx].
  rewrite classify_snoc. unfold classify_step.
  unfold not_vector in Hx. apply negb_true_iff in Hx. rewrite Hx. simpl.
  exact (IH Hl).
Qed.

Context {srv : Server}.

(** What a [search] call does once its parameters pass the check and the
    schema has arrived. *)
Lemma search_run (data : SearchData) (info : DescribeCollectionResponse)
      (log : list WireCall) :
  checkSearchParams data = None ->
  describe_reply (s_collection_name data) = Ok info ->
  let req := search_request data (classify (dc_fields info)) in
  search data log
  = ((log ++ [DescribeCollection (s_collection_name data)])
       ++ [Search req (or_timeout (s_timeout data) this_timeout)],
     match search_reply req with
     | Ok promise =>
         match decode_results (round_decimal data) promise with
         | Ok rows => Ok {| status := sr_status promise; results := rows |}
         | Throw e => Throw (Rethrown e)
         end
     | Throw e => Throw (Rethrown e)
     end)%list.
Proof.
  intros Hcheck Hdescribe req.
  unfold search, bind, guard, rethrow, call, lift, ret.
  rewrite Hcheck, Hdescribe. simpl. fold req.
  destruct (search_reply req) as [promise|e]; [|reflexivity].
  destruct (decode_results (round_decimal data) promise); reflexivity.
Qed.
End SearchBuilder.

(** C2, as the code has it: when the schema has a vector-kind field, the
    anns field, the placeholder type and the dimension come from the last
    vector-kind field in schema order (no vector field follows it), and the
    default output fields, used when the caller gives no [output_fields],
    are the names of exactly the non-vector fields in schema order. *)
Theorem search_anns_field_is_last_vector_field (ext : Externals)
        (fields : list FieldSchema) :
  existsb is_vector_field fields = true ->
  exists pre f post,
    fields = (pre ++ f :: post)%list
    /\ is_vector_field f = true
    /\ forallb not_vector post = true
    /\ anns_field (classify fields) = Some (fs_name f)
    /\ vectorType (classify fields) = DataTypeMap (fs_data_type f)
    /\ dim (classify fields) = search_dim f
    /\ defaultOutputFields (classify fields)
       = map fs_name (filter not_vector fields)
    /\ forall data : SearchData,
        (s_search_params data = None ->
         sp_anns_field (make_search_params data (classify fields))
         = Some (fs_name f))
        /\ map ph_type (w_placeholder_group (search_request data (classify fields)))
           = [DataTypeMap (fs_data_type f)]
        /\ (s_output_fields data = None ->
            w_output_fields (search_request data (classify fields))
            = map fs_name (filter not_vector fields)).
Proof.
  intros Hex.
  destruct (classify_last_vector fields Hex)
    as (pre & f & post & Hsplit & Hf & Hpost & Ha & Ht & Hd).
  exists pre, f, post. repeat split; auto.
  - apply classify_defaultOutputFields.
  - intros Hnone. unfold make_search_params. rewrite Hnone. simpl. exact Ha.
  - simpl. rewrite Ht. reflexivity.
  - intros Hnone. simpl. rewrite Hnone. apply classify_defaultOutputFields.
Qed.

Lemma search_anns_field_is_last_vector_field_witness :
  exists pre f post,
    two_vector_fields = (pre ++ f :: post)%list
    /\ @is_vector_field reference_externals f = true
    /\ forallb (@not_vector reference_externals) post = true
    /\ anns_field (@classify reference_externals two_vector_fields)
       = Some (fs_name f).
Proof.
  destruct (search_anns_field_is_last_vector_field
              reference_externals two_vector_fields eq_refl)
    as (pre & f & post & H1 & H2 & H3 & H4 & _).
  exists pre, f, post. auto.
Defined.

(** C2 as stated fails: with two vector fields the anns field is not the
    first of them. *)
Lemma search_anns_field_not_first_vector_field :
  find (@is_vector_field reference_externals) two_vector_fields
  = Some (field "a" "FloatVector" [("dim", "4")])
  /\ anns_field (@classify reference_externals two_vector_fields) = Some "b"
  /\ vectorType (@classify reference_externals two_vector_fields)
     = Some DataType.BinaryVector
  /\ anns_field (@classify reference_externals two_vector_fields)
     <> Some (fs_name (field "a" "FloatVector" [("dim", "4")])).
Proof. repeat split; try reflexivity. discriminate. Qed.

(** C3, as the code has it: with no vector-kind field in the schema the
    builder throws nothing.  The vector type and the anns field stay
    undefined, the query vectors are packed as float vectors, and the
    [Search] request is sent; the call then ends as the server's reply and
    its decoding decide. *)
Theorem search_without_vector_field_sends_request (ext : Externals)
        (srv : Server) (data : SearchData) (info : DescribeCollectionResponse) :
  checkSearchParams data = None ->
  describe_reply (s_collection_name data) = Ok info ->
  forallb not_vector (dc_fields info) = true ->
  let schema := classify (dc_fields info) in
  let req := search_request data schema in
  vectorType schema = None
  /\ anns_field schema = None
  /\ w_placeholder_group req
     = [{| ph_tag := "$0"; ph_type := None;
           ph_values := map parseFloatVectorToBytes (searchVectors data) |}]
  /\ fst (search data [])
     = [DescribeCollection (s_collection_name data);
        Search req (or_timeout (s_timeout data) this_timeout)]
  /\ snd (search data [])
     = match search_reply req with
       | Ok promise =>
           match decode_results (round_decimal data) promise with
           | Ok rows => Ok {| status := sr_status promise; results := rows |}
           | Throw e => Throw (Rethrown e)
           end
       | Throw e => Throw (Rethrown e)
       end.
Proof.
  intros Hcheck Hdescribe Hnone schema req.
  destruct (classify_no_vector (dc_fields info) Hnone) as [Htype Hanns].
  fold schema in Htype, Hanns.
  rewrite (search_run data info [] Hcheck Hdescribe). fold schema. fold req.
  repeat split; auto.
  unfold req, search_request, placeholders. simpl. rewrite Htype. reflexivity.
Qed.

Lemma search_without_vector_field_sends_request_witness :
  existsb is_Search
          (fst (@search reference_externals
                        (reference_server scalar_fields no_results)
                        (simple_search (VArr [jnum 1; jnum 2])) []))
  = true.
Proof.
  pose proof (search_without_vector_field_sends_request
                reference_externals
                (reference_server scalar_fields no_results)
                (simple_search (VArr [jnum 1; jnum 2]))
                {| dc_status := success; dc_fields := scalar_fields |}
                eq_refl eq_refl eq_refl) as H.
  destruct H as (_ & _ & _ & Hlog & _).
  rewrite Hlog. reflexivity.
Defined.

(** C3 as stated fails: a search on a schema with no vector field returns
    normally, after the [Search] call has gone out. *)
Lemma search_without_vector_field_no_error :
  snd (@search reference_externals (reference_server scalar_fields no_results)
               (simple_search (VArr [jnum 1; jnum 2])) [])
  = Ok {| status := success; results := [] |}
  /\ existsb is_Search
       (fst (@search reference_externals
                     (reference_server scalar_fields no_results)
                     (simple_search (VArr [jnum 1; jnum 2])) []))
     = true.
Proof. split; reflexivity. Qed.

(** C7: [round_decimal] is the explicit [search_params.round_decimal]
    whenever that is neither [undefined] nor [null], whatever the simple
    [params] hold; when [search_params] is absent or its value is
    [undefined] or [null], it is [params?.round_decimal].  [search] hands
    this value to the result decoder. *)
Theorem round_decimal_precedence (ext : Externals) (srv : Server)
        (data : SearchData) :
  (forall sp,
      s_search_params data = Some sp ->
      sp_round_decimal sp <> VUndefined ->
      sp_round_decimal sp <> VNull ->
      round_decimal data = sp_round_decimal sp)
  /\ ((s_search_params data = None
       \/ exists sp, s_search_params data = Some sp
                     /\ (sp_round_decimal sp = VUndefined
                         \/ sp_round_decimal sp = VNull)) ->
      round_decimal data
      = match s_params data with
        | Some params => obj_get params "round_decimal"
        | None => VUndefined
        end)
  /\ (forall info promise,
         checkSearchParams data = None ->
         describe_reply (s_collection_name data) = Ok info ->
         search_reply (search_request data (classify (dc_fields info)))
         = Ok promise ->
         snd (search data [])
         = match decode_results (round_decimal data) promise with
           | Ok rows => Ok {| status := sr_status promise; results := rows |}
           | Throw e => Throw (Rethrown e)
           end).
Proof.
  split; [|split].
  - intros sp Hsp Hu Hn. unfold round_decimal, explicit_round_decimal.
    rewrite Hsp. destruct (sp_round_decimal sp); try reflexivity; congruence.
  - unfold round_decimal, explicit_round_decimal, simple_round_decimal.
    intros [Hnone|[sp [Hsp [Hrd|Hrd]]]].
    + rewrite Hnone. reflexivity.
    + rewrite Hsp, Hrd. reflexivity.
    + rewrite Hsp, Hrd. reflexivity.
  - intros info promise Hcheck Hdescribe Hreply.
    rewrite (search_run data info [] Hcheck Hdescribe). simpl.
    rewrite Hreply. reflexivity.
Qed.

Lemma round_decimal_precedence_witness :
  round_decimal (search_with (Some (sample_search_params (jnum 2)))
                             (Some [("round_decimal", jnum 5)]))
  = jnum 2
  /\ round_decimal (search_with (Some (sample_search_params VNull))
                                (Some [("round_decimal", jnum 5)]))
     = jnum 5
  /\ round_decimal (search_with None (Some [("round_decimal", jnum 5)]))
     = jnum 5.
Proof.
  split; [|split].
  - apply (proj1 (round_decimal_precedence
                    reference_externals (reference_server [] no_results)
                    (search_with (Some (sample_search_params (jnum 2)))
                                 (Some [("round_decimal", jnum 5)])))
                 (sample_search_params (jnum 2)) eq_refl);
      discriminate.
  - apply (proj1 (proj2 (round_decimal_precedence
                    reference_externals (reference_server [] no_results)
                    (search_with (Some (sample_search_params VNull))
                                 (Some [("round_decimal", jnum 5)]))))).
    right. exists (sample_search_params VNull). split; [reflexivity|].
    right; reflexivity.
  - apply (proj1 (proj2 (round_decimal_precedence
                    reference_externals (reference_server [] no_results)
                    (search_with None (Some [("round_decimal", jnum 5)]))))).
    left; reflexivity.
Defined.

(** ** The encoder of [insert] *)

Lemma Map_get_set_same {V} (m : JsMap V) (k : string) (v : V) :
  Map_get (Map_set m k v) k = Some v.
Proof.
  induction m as [|[k0 v0] rest IH]; simpl.
  - rewrite String.eqb_refl. reflexivity.
  - destruct (String.eqb k k0) eqn:E; simpl; rewrite E; [reflexivity|exact IH].
Qed.

Lemma Map_get_set_other {V} (m : JsMap V) (k k' : string) (v : V) :
  k <> k' -> Map_get (Map_set m k' v) k = Map_get m k.
Proof.
  intros Hne. induction m as [|[k0 v0] rest IH]; simpl.
  - destruct (String.eqb k k') eqn:E; [apply String.eqb_eq in E; contradiction|reflexivity].
  - destruct (String.eqb k' k0) eqn:E'; simpl.
    + apply String.eqb_eq in E'; subst k0.
      destruct (String.eqb k k') eqn:E; [apply String.eqb_eq in E; contradiction|reflexivity].
    + destruct (String.eqb k k0); [reflexivity|exact IH].
Qed.

Lemma arr_set_nth (a : list JsValue) (i : nat) (v : JsValue) :
  nth i (arr_set a i v) VUndefined = v.
Proof.
  revert a. induction i as [|i IH]; intros [|x rest]; simpl; auto.
Qed.

Lemma stringify_truthy (x : JsValue) :
  truthy x = true -> exists s, JSON_stringify x = Some s.
Proof.
  destruct x as [| |[|]|[|s|q]|s|l|o|b]; intros H;
    try (simpl in H; discriminate H); eexists; reflexivity.
Qed.

Lemma stringify_or_object (x : JsValue) :
  exists s, JSON_stringify (js_or x (VObj [])) = Some s
            /\ (truthy x = false -> s = "{}").
Proof.
  unfold js_or. destruct (truthy x) eqn:E.
  - destruct (stringify_truthy x E) as [s Hs]. exists s. split; [exact Hs|discriminate].
  - exists "{}". split; reflexivity.
Qed.

Section Encoder.
Context {ext : Externals}.

Lemma field_sig_set (fd : JsMap Target) (name : string) (target : Target)
      (value : list JsValue) :
  Map_get fd name = Some target ->
  forall nm, field_sig (Map_set fd name (with_value target value)) nm
             = field_sig fd nm.
Proof.
  intros Hget nm. unfold field_sig.
  destruct (string_dec nm name) as [->|Hne].
  - rewrite Map_get_set_same, Hget. reflexivity.
  - rewrite Map_get_set_other by exact Hne. reflexivity.
Qed.

(** The possible outcomes of one turn of the inner loop. *)
Lemma encode_field_cases (i : nat) (v : JsObject) (fd : JsMap Target)
      (name : string) (k : nat) :
  match encode_field i v fd name k with
  | Ok fd' =>
      exists target value,
        Map_get fd name = Some target
        /\ encode_value (DataTypeMap (t_type target)) (t_value target) i
                        (obj_get v name) = Ok value
        /\ fd' = Map_set fd name (with_value target value)
  | Throw e =>
      (Map_get fd name = None /\ e = INSERT_CHECK_WRONG_FIELD i)
      \/ (exists target,
             Map_get fd name = Some target
             /\ ((DataTypeMap (t_type target) = Some DataType.BinaryVector
                  /\ ((js_length (obj_get v name) = Throw TypeError
                       /\ e = TypeError)
                      \/ (exists len,
                             js_length (obj_get v name) = Ok len
                             /\ js_strict_neq len
                                  (js_div (t_dim target) (inject_Z 8)) = true
                             /\ e = INSERT_CHECK_WRONG_DIM)))
                 \/ (is_vector_type (DataTypeMap (t_type target)) = true
                     /\ js_iterate (obj_get v name) = Throw TypeError
                     /\ e = TypeError)))
  end.
Proof.
  unfold encode_field.
  destruct (Map_get fd name) as [target|] eqn:Hget; [|left; auto].
  destruct (is_type (DataTypeMap (t_type target)) DataType.BinaryVector) eqn:Hbin.
  - assert (Hty : DataTypeMap (t_type target) = Some DataType.BinaryVector).
    { destruct (DataTypeMap (t_type target)) as [[]|]; simpl in Hbin;
        try discriminate; reflexivity. }
    destruct (js_length (obj_get v name)) as [len|e] eqn:Hlen; simpl.
    + destruct (js_strict_neq len (js_div (t_dim target) (inject_Z 8))) eqn:Hneq; simpl.
      * right. exists target. split; [reflexivity|]. left. split; [exact Hty|].
        right. exists len. auto.
      * rewrite Hty. simpl.
        destruct (js_iterate (obj_get v name)) as [vals|e] eqn:Hit; simpl.
        -- exists target, (t_value target ++ vals)%list.
           rewrite Hty. simpl. rewrite Hit. simpl. auto.
        -- right. exists target. split; [reflexivity|]. right.
           rewrite Hty. split; [reflexivity|].
           destruct (obj_get v name); simpl in Hit; inversion Hit; auto.
    + right. exists target. split; [reflexivity|]. left. split; [exact Hty|].
      left. destruct (obj_get v name); simpl in Hlen; inversion Hlen; auto.
  - simpl.
    destruct (DataTypeMap (t_type target)) as [ty|] eqn:Hty.
    + destruct ty; simpl in Hbin; try discriminate; simpl;
        try (exists target; eexists; rewrite Hty; simpl; repeat split; reflexivity).
      * destruct (stringify_or_object (obj_get v name)) as [s [Hs _]].
        rewrite Hs. simpl. exists target; eexists. rewrite Hty. simpl.
        rewrite Hs. repeat split; reflexivity.
      * destruct (js_iterate (obj_get v name)) as [vals|e] eqn:Hit; simpl.
        -- exists target; eexists. rewrite Hty. simpl. rewrite Hit. simpl.
           repeat split; reflexivity.
        -- right. exists target. split; [reflexivity|]. right.
           rewrite Hty. split; [reflexivity|].
           destruct (obj_get v name); simpl in Hit; inversion Hit; auto.
    + simpl. exists target; eexists. rewrite Hty. simpl. repeat split; reflexivity.
Qed.

Lemma encode_field_sig (i : nat) (v : JsObject) (fd fd' : JsMap Target)
      (name : string) (k : nat) :
  encode_field i v fd name k = Ok fd' ->
  forall nm, field_sig fd' nm = field_sig fd nm.
Proof.
  intros Hrun. pose proof (encode_field_cases i v fd name k) as H.
  rewrite Hrun in H. destruct H as (target & value & Hget & _ & ->).
  apply field_sig_set. exact Hget.
Qed.

Lemma encode_keys_sig (i : nat) (v : JsObject) (keys : list string) (j : nat)
      (fd fd' : JsMap Target) :
  forEach_from j (encode_field i v) keys fd = Ok fd' ->
  forall nm, field_sig fd' nm = field_sig fd nm.
Proof.
  intros Hrun.
  refine (forEach_from_inv (fun s => forall nm, field_sig s nm = field_sig fd nm)
                           _ _ _ _ _ _ _ Hrun).
  - intros s x k s' _ Hs Hstep nm.
    rewrite (encode_field_sig _ _ _ _ _ _ Hstep). apply Hs.
  - reflexivity.
Qed.

Lemma encode_row_sig (fd fd' : JsMap Target) (v : JsObject) (i : nat) :
  encode_row fd v i = Ok fd' -> forall nm, field_sig fd' nm = field_sig fd nm.
Proof. apply encode_keys_sig. Qed.

Lemma encode_field_mismatch (i : nat) (v : JsObject) (fd : JsMap Target)
      (name : string) (k : nat) :
  mismatch (field_sig fd name) (obj_get v name) ->
  encode_field i v fd name k = Throw INSERT_CHECK_WRONG_DIM.
Proof.
  intros (ty & d & len & Hsig & Hty & Hlen & Hneq).
  unfold field_sig in Hsig. unfold encode_field.
  destruct (Map_get fd name) as [target|]; [|discriminate].
  simpl in Hsig. inversion Hsig; subst.
  rewrite Hty. simpl. rewrite Hlen. simpl. rewrite Hneq. reflexivity.
Qed.

Lemma encode_keys_mismatch (i : nat) (v : JsObject) (name : string) :
  forall (keys : list string) (j : nat) (fd : JsMap Target),
    In name keys ->
    mismatch (field_sig fd name) (obj_get v name) ->
    exists e, forEach_from j (encode_field i v) keys fd = Throw e.
Proof.
  induction keys as [|k0 rest IH]; intros j fd Hin Hbad; [contradiction|].
  simpl. destruct (encode_field i v fd k0 j) as [fd1|e] eqn:Hstep; simpl;
    [|eauto].
  destruct Hin as [->|Hin].
  - rewrite (encode_field_mismatch i v fd name j Hbad) in Hstep. discriminate.
  - apply IH; [exact Hin|].
    rewrite (encode_field_sig _ _ _ _ _ _ Hstep). exact Hbad.
Qed.

Lemma encode_rows_mismatch (row : JsObject) (name : string) :
  forall (rows : list JsObject) (i : nat) (fd : JsMap Target),
    In row rows -> In name (Object_keys row) ->
    mismatch (field_sig fd name) (obj_get row name) ->
    exists e, forEach_from i encode_row rows fd = Throw e.
Proof.
  induction rows as [|r rest IH]; intros i fd Hin Hkey Hbad; [contradiction|].
  simpl. destruct (encode_row fd r i) as [fd1|e] eqn:Hstep; simpl; [|eauto].
  destruct Hin as [->|Hin].
  - unfold encode_row, forEach in Hstep.
    destruct (encode_keys_mismatch i row name _ 0%nat fd Hkey Hbad) as [e He].
    rewrite He in Hstep. discriminate.
  - apply IH; auto. rewrite (encode_row_sig _ _ _ _ Hstep). exact Hbad.
Qed.

(** Where a dimension error comes from. *)
Lemma encode_field_wrong_dim (i : nat) (v : JsObject) (fd : JsMap Target)
      (name : string) (k : nat) :
  encode_field i v fd name k = Throw INSERT_CHECK_WRONG_DIM ->
  exists target len,
    Map_get fd name = Some target
    /\ DataTypeMap (t_type target) = Some DataType.BinaryVector
    /\ js_length (obj_get v name) = Ok len
    /\ js_strict_neq len (js_div (t_dim target) (inject_Z 8)) = true.
Proof.
  intros Hrun. pose proof (encode_field_cases i v fd name k) as H.
  rewrite Hrun in H.
  destruct H as [[_ H]|(target & Hget & [[Hty [[_ H]|(len & Hlen & Hneq & _)]]|(_ & _ & H)])];
    try discriminate.
  exists target, len. auto.
Qed.

Lemma encode_field_error (i : nat) (v : JsObject) (fd : JsMap Target)
      (name : string) (k : nat) (e : Error) :
  encode_field i v fd name k = Throw e -> encoder_error e.
Proof.
  intros Hrun. pose proof (encode_field_cases i v fd name k) as H.
  rewrite Hrun in H. unfold encoder_error.
  destruct H as [[_ ->]|(target & _ & [[_ [[_ ->]|(len & _ & _ & ->)]]|(_ & _ & ->)])];
    eauto.
Qed.

Lemma forEach_from_error {A St} (P : Error -> Prop)
      (f : St -> A -> nat -> Result St) :
  (forall s x j e, f s x j = Throw e -> P e) ->
  forall (l : list A) (i : nat) (s : St) (e : Error),
    forEach_from i f l s = Throw e -> P e.
Proof.
  intros Hf. induction l as [|x rest IH]; intros i s e Hrun; simpl in Hrun;
    [discriminate|].
  destruct (f s x i) as [s1|e1] eqn:E; simpl in Hrun.
  - exact (IH _ _ _ Hrun).
  - inversion Hrun; subst. exact (Hf _ _ _ _ E).
Qed.

Lemma encode_rows_error (rows : list JsObject) (fd : JsMap Target) (e : Error) :
  encode_rows rows fd = Throw e -> encoder_error e.
Proof.
  apply forEach_from_error. intros s row i e0.
  apply forEach_from_error. intros s' name j e1. apply encode_field_error.
Qed.
End Encoder.

Section EncoderOutcome.
Context {ext : Externals}.

Lemma encode_field_entry_ok (i : nat) (v : JsObject) (fd : JsMap Target)
      (name : string) (k : nat) (e : Error) :
  entry_ok (field_sig fd name) (obj_get v name) ->
  encode_field i v fd name k = Throw e ->
  e = INSERT_CHECK_WRONG_DIM.
Proof.
  intros (ty & d & Hsig & Harr) Hrun.
  pose proof (encode_field_cases i v fd name k) as H. rewrite Hrun in H.
  unfold field_sig in Hsig.
  destruct H as [[Hnone _]|(target & Hget & H)].
  - rewrite Hnone in Hsig. discriminate.
  - rewrite Hget in Hsig. simpl in Hsig. inversion Hsig; subst.
    destruct H as [[Hty [[Hlen _]|(len & _ & _ & He)]]|(Hvec & Hit & _)].
    + destruct Harr as [l Hl].
      { unfold is_vector_type. rewrite Hty. reflexivity. }
      rewrite Hl in Hlen. discriminate.
    + exact He.
    + destruct (Harr Hvec) as [l Hl]. rewrite Hl in Hit. discriminate.
Qed.

Lemma encode_keys_entry_ok (i : nat) (v : JsObject) (e : Error) :
  forall (keys : list string) (j : nat) (fd : JsMap Target),
    (forall name, In name keys -> entry_ok (field_sig fd name) (obj_get v name)) ->
    forEach_from j (encode_field i v) keys fd = Throw e ->
    e = INSERT_CHECK_WRONG_DIM.
Proof.
  induction keys as [|k0 rest IH]; intros j fd Hok Hrun; simpl in Hrun;
    [discriminate|].
  destruct (encode_field i v fd k0 j) as [fd1|e1] eqn:Hstep; simpl in Hrun.
  - apply (IH (S j) fd1); [|exact Hrun].
    intros name Hin. rewrite (encode_field_sig _ _ _ _ _ _ Hstep).
    apply Hok. right; exact Hin.
  - inversion Hrun; subst.
    apply (encode_field_entry_ok i v fd k0 j); [|exact Hstep].
    apply Hok. left; reflexivity.
Qed.

Lemma encode_rows_entry_ok (e : Error) :
  forall (rows : list JsObject) (i : nat) (fd : JsMap Target),
    (forall row name, In row rows -> In name (Object_keys row) ->
                      entry_ok (field_sig fd name) (obj_get row name)) ->
    forEach_from i encode_row rows fd = Throw e ->
    e = INSERT_CHECK_WRONG_DIM.
Proof.
  induction rows as [|r rest IH]; intros i fd Hok Hrun; simpl in Hrun;
    [discriminate|].
  destruct (encode_row fd r i) as [fd1|e1] eqn:Hstep; simpl in Hrun.
  - apply (IH (S i) fd1); [|exact Hrun].
    intros row name Hin Hkey. rewrite (encode_row_sig _ _ _ _ Hstep).
    apply Hok; [right; exact Hin|exact Hkey].
  - inversion Hrun; subst.
    apply (encode_keys_entry_ok i r e (Object_keys r) 0%nat fd); [|exact Hstep].
    intros name Hkey. apply Hok; [left; reflexivity|exact Hkey].
Qed.

Lemma rows_well_formed_entry_ok (fd : JsMap Target) (rows : list JsObject) :
  rows_well_formed fd rows ->
  forall row name, In row rows -> In name (Object_keys row) ->
                   entry_ok (field_sig fd name) (obj_get row name).
Proof.
  intros Hwf row name Hin Hkey.
  destruct (Hwf row name Hin Hkey) as (target & Hget & Harr).
  exists (t_type target), (t_dim target). unfold field_sig. rewrite Hget.
  split; [reflexivity|exact Harr].
Qed.

(** Where a dimension error of the whole encoder comes from. *)
Lemma encode_rows_wrong_dim :
  forall (rows : list JsObject) (i : nat) (fd : JsMap Target),
    forEach_from i encode_row rows fd = Throw INSERT_CHECK_WRONG_DIM ->
    exists row name,
      In row rows /\ In name (Object_keys row)
      /\ mismatch (field_sig fd name) (obj_get row name).
Proof.
  induction rows as [|r rest IH]; intros i fd Hrun; simpl in Hrun;
    [discriminate|].
  destruct (encode_row fd r i) as [fd1|e1] eqn:Hstep; simpl in Hrun.
  - destruct (IH _ _ Hrun) as (row & name & Hin & Hkey & Hbad).
    exists row, name. split; [right; exact Hin|split; [exact Hkey|]].
    rewrite <- (encode_row_sig _ _ _ _ Hstep). exact Hbad.
  - inversion Hrun; subst. clear Hrun IH.
    unfold encode_row, forEach in Hstep.
    assert (Hkeys : forall (keys : list string) (j : nat) (fd0 : JsMap Target),
               (forall nm, field_sig fd0 nm = field_sig fd nm) ->
               forEach_from j (encode_field i r) keys fd0
               = Throw INSERT_CHECK_WRONG_DIM ->
               exists name, In name keys
                            /\ mismatch (field_sig fd name) (obj_get r name)).
    { induction keys as [|k0 ks IHk]; intros j fd0 Hsame Hk; simpl in Hk;
        [discriminate|].
      destruct (encode_field i r fd0 k0 j) as [fd2|e2] eqn:Hf; simpl in Hk.
      - destruct (IHk (S j) fd2) as (name & Hin & Hbad); [|exact Hk|].
        + intros nm. rewrite (encode_field_sig _ _ _ _ _ _ Hf). apply Hsame.
        + exists name. split; [right; exact Hin|exact Hbad].
      - inversion Hk; subst.
        destruct (encode_field_wrong_dim _ _ _ _ _ Hf)
          as (target & len & Hget & Hty & Hlen & Hneq).
        exists k0. split; [left; reflexivity|].
        exists (t_type target), (t_dim target), len.
        rewrite <- Hsame. unfold field_sig. rewrite Hget. auto. }
    destruct (Hkeys _ _ _ (fun nm => eq_refl) Hstep) as (name & Hin & Hbad).
    exists r, name. split; [left; reflexivity|split; assumption].
Qed.

Context {srv : Server}.

(** What an [insert] call does once the request passes the checks and the
    schema has arrived. *)
Lemma insert_run (data : InsertReq) (rows : list JsObject)
      (info : DescribeCollectionResponse) (log : list WireCall) :
  checkCollectionName (ins_collection_name data) = None ->
  ins_fields_data data = Some rows ->
  rows <> [] ->
  describe_reply (ins_collection_name data) = Ok info ->
  is_success (dc_status info) = true ->
  insert data log
  = match encode_rows rows (resolve (dc_fields info)) with
    | Throw e => (log ++ [DescribeCollection (ins_collection_name data)], Throw e)
    | Ok fieldsData =>
        match mapR to_column (Map_values fieldsData) with
        | Throw e =>
            (log ++ [DescribeCollection (ins_collection_name data)], Throw e)
        | Ok columns =>
            let params :=
              {| ip_collection_name := ins_collection_name data;
                 ip_partition_name := ins_partition_name data;
                 ip_hash_keys := ins_hash_keys data;
                 ip_num_rows := List.length rows;
                 ip_fields_data := columns |} in
            ((log ++ [DescribeCollection (ins_collection_name data)])
               ++ [Insert params (or_timeout (ins_timeout data) this_timeout)],
             insert_reply params)
        end
    end%list.
Proof.
  intros Hcheck Hrows Hne Hdescribe Hok.
  unfold insert, bind, guard, call, lift, ret, throw.
  rewrite Hcheck, Hrows. simpl.
  destruct rows as [|row rest]; [contradiction|].
  rewrite Hdescribe, Hok. simpl.
  destruct (encode_rows (row :: rest) (resolve (dc_fields info)))
    as [fieldsData|e]; [|reflexivity].
  destruct (mapR to_column (Map_values fieldsData)); reflexivity.
Qed.
End EncoderOutcome.

(** ** What [insert] sends and what it refuses *)

(** C6, as the code has it: when a row holds a binary-vector value whose
    length differs from the field's dimension / 8, [insert] throws after
    the [DescribeCollection] call and sends no [Insert] request.  The error
    is the dimension error, the wrong-field error of some row or a
    [TypeError]; it is the dimension error whenever every key of every row
    names a resolved field and every vector value is an array. *)
Theorem insert_binary_length_mismatch_fails (ext : Externals) (srv : Server)
        (data : InsertReq) (rows : list JsObject)
        (info : DescribeCollectionResponse)
        (row : JsObject) (name : string) (target : Target) (len : JsValue) :
  checkCollectionName (ins_collection_name data) = None ->
  ins_fields_data data = Some rows ->
  describe_reply (ins_collection_name data) = Ok info ->
  is_success (dc_status info) = true ->
  In row rows ->
  In name (Object_keys row) ->
  Map_get (resolve (dc_fields info)) name = Some target ->
  DataTypeMap (t_type target) = Some DataType.BinaryVector ->
  js_length (obj_get row name) = Ok len ->
  js_strict_neq len (js_div (t_dim target) (inject_Z 8)) = true ->
  exists e,
    insert data [] = ([DescribeCollection (ins_collection_name data)], Throw e)
    /\ existsb is_Insert (fst (insert data [])) = false
    /\ (e = INSERT_CHECK_WRONG_DIM
        \/ (exists i, e = INSERT_CHECK_WRONG_FIELD i)
        \/ e = TypeError)
    /\ (rows_well_formed (resolve (dc_fields info)) rows ->
        e = INSERT_CHECK_WRONG_DIM).
Proof.
  intros Hcheck Hrows Hdescribe Hok Hin Hkey Hget Hty Hlen Hneq.
  assert (Hne : rows <> []) by (intros ->; contradiction).
  assert (Hbad : mismatch (field_sig (resolve (dc_fields info)) name)
                          (obj_get row name)).
  { exists (t_type target), (t_dim target), len.
    unfold field_sig. rewrite Hget. auto. }
  destruct (encode_rows_mismatch row name rows 0%nat _ Hin Hkey Hbad) as [e He].
  fold (forEach encode_row rows (resolve (dc_fields info))) in He.
  fold (encode_rows rows (resolve (dc_fields info))) in He.
  exists e.
  rewrite (insert_run data rows info [] Hcheck Hrows Hne Hdescribe Hok), He.
  repeat split.
  - exact (encode_rows_error _ _ _ He).
  - intros Hwf.
    apply (encode_rows_entry_ok e rows 0%nat (resolve (dc_fields info))).
    + apply rows_well_formed_entry_ok. exact Hwf.
    + exact He.
Qed.

Lemma insert_binary_length_mismatch_fails_witness :
  @insert reference_externals (reference_server binary_field no_results)
          (insert_of [short_binary_row]) []
  = ([DescribeCollection "c"], Throw INSERT_CHECK_WRONG_DIM).
Proof.
  destruct (insert_binary_length_mismatch_fails
              reference_externals (reference_server binary_field no_results)
              (insert_of [short_binary_row]) [short_binary_row]
              {| dc_status := success; dc_fields := binary_field |}
              short_binary_row "bv"
              (target_of "bv" "BinaryVector" (num_of_Z 16) []) (jnum 1)
              eq_refl eq_refl eq_refl eq_refl
              (or_introl eq_refl) (or_introl eq_refl)
              eq_refl eq_refl eq_refl eq_refl)
    as (e & Hrun & _ & _ & Hdim).
  rewrite Hrun, Hdim; [reflexivity|].
  intros row name [<-|[]] [<-|[]].
  exists (target_of "bv" "BinaryVector" (num_of_Z 16) []).
  split; [reflexivity|]. intros _. exists [jnum 1]. reflexivity.
Defined.

(** C6 as stated fails: a row whose first key is unknown to the schema and
    whose binary vector is too short is rejected with the wrong-field
    error, not with the dimension error. *)
Lemma insert_binary_length_mismatch_wrong_field :
  js_length (obj_get unknown_then_short_binary_row "bv") = Ok (jnum 1)
  /\ js_strict_neq (jnum 1) (js_div (num_of_Z 16) (inject_Z 8)) = true
  /\ @insert reference_externals (reference_server binary_field no_results)
             (insert_of [unknown_then_short_binary_row]) []
     = ([DescribeCollection "c"], Throw (INSERT_CHECK_WRONG_FIELD 0))
  /\ INSERT_CHECK_WRONG_FIELD 0 <> INSERT_CHECK_WRONG_DIM.
Proof. repeat split; try reflexivity. discriminate. Qed.

(** C10: a float-vector array of any length passes the encoder without a
    length check and all its elements are appended to the field's flat
    buffer; a dimension error, of one field or of the whole encoder, always
    comes from a binary-vector field. *)
Theorem float_vector_never_length_checked (ext : Externals) :
  (forall (i : nat) (v : JsObject) (fd : JsMap Target) (name : string)
          (k : nat) (target : Target) (l : list JsValue),
      Map_get fd name = Some target ->
      DataTypeMap (t_type target) = Some DataType.FloatVector ->
      obj_get v name = VArr l ->
      encode_field i v fd name k
      = Ok (Map_set fd name (with_value target (t_value target ++ l)%list)))
  /\ (forall (i : nat) (v : JsObject) (fd : JsMap Target) (name : string)
             (k : nat),
         encode_field i v fd name k = Throw INSERT_CHECK_WRONG_DIM ->
         exists target,
           Map_get fd name = Some target
           /\ DataTypeMap (t_type target) = Some DataType.BinaryVector)
  /\ (forall (rows : list JsObject) (fd : JsMap Target),
         encode_rows rows fd = Throw INSERT_CHECK_WRONG_DIM ->
         exists row name target,
           In row rows /\ In name (Object_keys row)
           /\ Map_get fd name = Some target
           /\ DataTypeMap (t_type target) = Some DataType.BinaryVector).
Proof.
  split; [|split].
  - intros i v fd name k target l Hget Hty Hval.
    unfold encode_field. rewrite Hget, Hty, Hval. reflexivity.
  - intros i v fd name k Hrun.
    destruct (encode_field_wrong_dim i v fd name k Hrun)
      as (target & len & Hget & Hty & _).
    exists target. auto.
  - intros rows fd Hrun.
    destruct (encode_rows_wrong_dim rows 0%nat fd Hrun)
      as (row & name & Hin & Hkey & ty & d & len & Hsig & Hty & _).
    unfold field_sig in Hsig.
    destruct (Map_get fd name) as [target|] eqn:Hget; [|discriminate].
    simpl in Hsig. inversion Hsig; subst.
    exists row, name, target. auto.
Qed.

Lemma float_vector_never_length_checked_witness :
  @encode_field reference_externals 0 short_float_row
                (resolve float_field) "v" 0
  = Ok [("v", target_of "v" "FloatVector" (num_of_Z 4) [jnum 1; jnum 2])]
  /\ (exists target,
         Map_get (resolve binary_field) "bv" = Some target
         /\ reference_DataTypeMap (t_type target) = Some DataType.BinaryVector)
  /\ (exists row name target,
         In row [short_binary_row] /\ In name (Object_keys row)
         /\ Map_get (resolve binary_field) name = Some target
         /\ reference_DataTypeMap (t_type target) = Some DataType.BinaryVector).
Proof.
  destruct (float_vector_never_length_checked reference_externals)
    as (Hfloat & Hfield & Hrows).
  split; [|split].
  - exact (Hfloat 0%nat short_float_row (resolve float_field) "v" 0%nat
                  (target_of "v" "FloatVector" (num_of_Z 4) [])
                  [jnum 1; jnum 2] eq_refl eq_refl eq_refl).
  - exact (Hfield 0%nat short_binary_row (resolve binary_field) "bv" 0%nat
                  eq_refl).
  - exact (Hrows [short_binary_row] (resolve binary_field) eq_refl).
Defined.

(** C8, as the code has it: for a row that has a property for a JSON-typed
    field, the entry written at the row's index is a buffer with the JSON
    text of the value when the value is truthy, and with the text of the
    empty object when it is falsy; a row with no property for the field
    leaves the field's accumulator as it was. *)
Theorem json_field_encoding (ext : Externals) :
  (forall (i : nat) (v : JsObject) (fd : JsMap Target) (name : string)
          (k : nat) (target : Target),
      Map_get fd name = Some target ->
      DataTypeMap (t_type target) = Some DataType.JSON ->
      exists s,
        JSON_stringify (if truthy (obj_get v name) then obj_get v name
                        else VObj []) = Some s
        /\ (truthy (obj_get v name) = false -> s = "{}")
        /\ encode_field i v fd name k
           = Ok (Map_set fd name
                   (with_value target
                      (arr_set (t_value target) i (VBuf (Buffer_from s)))))
        /\ nth i (arr_set (t_value target) i (VBuf (Buffer_from s))) VUndefined
           = VBuf (Buffer_from s))
  /\ (forall (fd fd' : JsMap Target) (v : JsObject) (i : nat) (name : string),
         ~ In name (Object_keys v) ->
         encode_row fd v i = Ok fd' ->
         Map_get fd' name = Map_get fd name).
Proof.
  split.
  - intros i v fd name k target Hget Hty.
    destruct (stringify_or_object (obj_get v name)) as [s [Hs Hfalsy]].
    exists s. unfold js_or in Hs. repeat split; auto.
    + unfold encode_field. rewrite Hget, Hty. simpl.
      unfold js_or. rewrite Hs. reflexivity.
    + apply arr_set_nth.
  - intros fd fd' v i name Hnot Hrun. unfold encode_row, forEach in Hrun.
    assert (Hgen : forall (keys : list string) (j : nat) (fd0 fd1 : JsMap Target),
               ~ In name keys ->
               forEach_from j (encode_field i v) keys fd0 = Ok fd1 ->
               Map_get fd1 name = Map_get fd0 name).
    { induction keys as [|k0 ks IH]; intros j fd0 fd1 Hn Hk; simpl in Hk.
      - inversion Hk; reflexivity.
      - destruct (encode_field i v fd0 k0 j) as [fd2|e] eqn:Hstep; simpl in Hk;
          [|discriminate].
        rewrite (IH (S j) fd2 fd1); [|intros H; apply Hn; right; exact H|exact Hk].
        pose proof (encode_field_cases i v fd0 k0 j) as Hc. rewrite Hstep in Hc.
        destruct Hc as (target & value & _ & _ & ->).
        apply Map_get_set_other. intros ->. apply Hn. left; reflexivity. }
    exact (Hgen _ _ _ _ Hnot Hrun).
Qed.

Lemma json_field_encoding_witness :
  (exists s,
      JSON_stringify (VObj []) = Some s
      /\ @encode_field reference_externals 0 zero_json_row (resolve json_field)
                       "tags" 0
         = Ok (Map_set (resolve json_field) "tags"
                 (with_value (target_of "tags" "JSON" NaN [])
                    (arr_set [] 0 (VBuf (Buffer_from s))))))
  /\ Map_get [("tags", target_of "tags" "JSON" NaN [VBuf (Buffer_from "{}")])]
             "age"
     = Map_get (resolve json_field) "age".
Proof.
  destruct (json_field_encoding reference_externals) as (Hentry & Habsent).
  split.
  - destruct (Hentry 0%nat zero_json_row (resolve json_field) "tags" 0%nat
                     (target_of "tags" "JSON" NaN []) eq_refl eq_refl)
      as (s & Hs & _ & Hrun & _).
    exists s. split; [exact Hs|exact Hrun].
  - apply (Habsent (resolve json_field) _ zero_json_row 0%nat "age").
    + intros [H|[]]. discriminate H.
    + reflexivity.
Defined.

(** C8 as stated fails: the value 0 of a JSON-typed field is encoded as the
    text of the empty object, not as its own JSON text. *)
Lemma json_field_zero_encoded_as_object :
  @encode_rows reference_externals [zero_json_row] (resolve json_field)
  = Ok [("tags", target_of "tags" "JSON" NaN [VBuf (Buffer_from "{}")])]
  /\ JSON_stringify (obj_get zero_json_row "tags") = Some "0"
  /\ Buffer_from "{}" <> Buffer_from "0".
Proof. repeat split; try reflexivity. discriminate. Qed.




(** ** The vector columns of [query] *)

Section Unflatten.
Variable d : nat.
Variable dq : Q.
Hypothesis d_pos : (0 < d)%nat.
Hypothesis dq_d : (dq == inject_Z (Z.of_nat d))%Q.

Lemma row_index_div (i : nat) : row_index i (Num dq) = Some (i / d)%nat.
Proof.
  unfold row_index.
  destruct (Qeq_bool dq (inject_Z 0)) eqn:E.
  - apply Qeq_bool_iff in E. rewrite dq_d in E.
    assert (Hz : Z.of_nat d = 0%Z) by (apply inject_Z_injective; exact E).
    lia.
  - assert (Hfloor : Qfloor (inject_Z (Z.of_nat i) / dq)
                     = (Z.of_nat i / Z.of_nat d)%Z).
    { rewrite dq_d. symmetry. apply Zdiv_Qdiv. }
    rewrite Hfloor, <- Nat2Z.inj_div.
    destruct (Z.ltb_spec (Z.of_nat (i / d)) 0) as [Hneg|_]; [lia|].
    rewrite Nat2Z.id. reflexivity.
Qed.

Lemma push_at_rows_so_far (full : list (list JsNum)) (partial : list JsNum)
      (v : JsNum) :
  push_at (rows_so_far full partial) (List.length full) v
  = rows_so_far full (partial ++ [v]).
Proof.
  unfold rows_so_far. induction full as [|row full IH]; simpl.
  - destruct partial; reflexivity.
  - rewrite IH. reflexivity.
Qed.

Lemma unflatten_partial (full : list (list JsNum)) :
  forall (c partial : list JsNum) (i : nat),
    i = (List.length full * d + List.length partial)%nat ->
    (List.length partial + List.length c <= d)%nat ->
    unflatten_from i (Num dq) c (rows_so_far full partial)
    = rows_so_far full (partial ++ c).
Proof.
  induction c as [|v c IH]; intros partial i Hi Hlen; simpl.
  - rewrite app_nil_r. reflexivity.
  - simpl in Hlen. rewrite row_index_div.
    assert (Hdiv : (i / d = List.length full)%nat).
    { subst i. rewrite Nat.div_add_l by lia.
      rewrite Nat.div_small by lia. lia. }
    rewrite Hdiv, push_at_rows_so_far.
    rewrite (IH (partial ++ [v])%list (S i)).
    + rewrite <- app_assoc. reflexivity.
    + rewrite length_app. simpl. lia.
    + rewrite length_app. simpl. lia.
Qed.

Lemma unflatten_from_app (dim : JsNum) :
  forall (a b : list JsNum) (i : nat) (data : list (option (list JsNum))),
    unflatten_from i dim (a ++ b) data
    = unflatten_from (i + List.length a) dim b (unflatten_from i dim a data).
Proof.
  induction a as [|v a IH]; intros b i data; simpl.
  - rewrite Nat.add_0_r. reflexivity.
  - rewrite IH. f_equal. lia.
Qed.

Lemma rows_so_far_done (full : list (list JsNum)) (c : list JsNum) :
  c <> [] -> rows_so_far full c = map Some (full ++ [c]).
Proof.
  intros Hc. unfold rows_so_far. rewrite map_app. simpl.
  destruct c; [contradiction|reflexivity].
Qed.

Lemma chunks_fuel_nil (fuel : nat) : chunks_fuel fuel d [] = [].
Proof. destruct fuel; reflexivity. Qed.

Lemma unflatten_chunks_fuel :
  forall (fuel : nat) (l : list JsNum) (full : list (list JsNum)),
    (List.length l <= fuel)%nat ->
    unflatten_from (List.length full * d) (Num dq) l (map Some full)
    = map Some (full ++ chunks_fuel fuel d l).
Proof.
  induction fuel as [|fuel IH]; intros l full Hlen.
  - destruct l; [|simpl in Hlen; lia]. simpl. rewrite app_nil_r. reflexivity.
  - destruct l as [|x l'] eqn:El.
    + simpl. rewrite app_nil_r. reflexivity.
    + rewrite <- El in *.
      assert (Hl : (1 <= List.length l)%nat) by (rewrite El; simpl; lia).
      assert (Hchunks : chunks_fuel (S fuel) d l
                        = firstn d l :: chunks_fuel fuel d (skipn d l)).
      { rewrite El. reflexivity. }
      rewrite Hchunks. clear Hchunks.
      assert (Hc : firstn d l <> []).
      { rewrite El. destruct d; [lia|discriminate]. }
      assert (Hfirst : unflatten_from (List.length full * d) (Num dq)
                                      (firstn d l) (map Some full)
                       = map Some (full ++ [firstn d l])).
      { rewrite <- (rows_so_far_done full (firstn d l) Hc).
        replace (map Some full) with (rows_so_far full []).
        - apply (unflatten_partial full (firstn d l) []).
          + simpl. lia.
          + simpl. apply firstn_le_length.
        - unfold rows_so_far. apply app_nil_r. }
      rewrite <- (firstn_skipn d l) at 1.
      rewrite unflatten_from_app, Hfirst.
      destruct (Nat.le_gt_cases d (List.length l)) as [Hge|Hlt].
      * assert (Hd : List.length (firstn d l) = d).
        { rewrite length_firstn. lia. }
        rewrite Hd.
        replace (List.length full * d + d)%nat
          with (List.length (full ++ [firstn d l]) * d)%nat
          by (rewrite length_app; simpl; lia).
        rewrite IH.
        -- rewrite <- app_assoc. reflexivity.
        -- rewrite length_skipn. lia.
      * rewrite (skipn_all2 l) by lia. simpl.
        rewrite chunks_fuel_nil. reflexivity.
Qed.

Lemma unflatten_chunks (l : list JsNum) :
  unflatten_from 0 (Num dq) l [] = map Some (chunks d l).
Proof.
  exact (unflatten_chunks_fuel (List.length l) l [] (le_n _)).
Qed.

Lemma chunks_fuel_concat :
  forall (fuel : nat) (l : list JsNum),
    (List.length l <= fuel)%nat -> List.concat (chunks_fuel fuel d l) = l.
Proof.
  induction fuel as [|fuel IH]; intros l Hlen.
  - destruct l; [reflexivity|simpl in Hlen; lia].
  - destruct l as [|x l'] eqn:El; [reflexivity|].
    rewrite <- El in *.
    replace (chunks_fuel (S fuel) d l)
      with (firstn d l :: chunks_fuel fuel d (skipn d l))
      by (rewrite El; reflexivity).
    assert (Hl : (1 <= List.length l)%nat) by (rewrite El; simpl; lia).
    simpl. rewrite IH.
    + apply firstn_skipn.
    + rewrite length_skipn. lia.
Qed.

Lemma chunks_fuel_full :
  forall (fuel : nat) (l : list JsNum) (k : nat),
    (List.length l <= fuel)%nat ->
    List.length l = (k * d)%nat ->
    List.length (chunks_fuel fuel d l) = k
    /\ Forall (fun c => List.length c = d) (chunks_fuel fuel d l).
Proof.
  induction fuel as [|fuel IH]; intros l k Hlen Hk.
  - destruct l; [|simpl in Hlen; lia]. simpl in *.
    split; [|constructor]. destruct k; [reflexivity|simpl in Hk; lia].
  - destruct l as [|x l'] eqn:El.
    + simpl in *. split; [|constructor].
      destruct k; [reflexivity|simpl in Hk; lia].
    + rewrite <- El in *.
      replace (chunks_fuel (S fuel) d l)
        with (firstn d l :: chunks_fuel fuel d (skipn d l))
        by (rewrite El; reflexivity).
      assert (Hl : (1 <= List.length l)%nat) by (rewrite El; simpl; lia).
      destruct k as [|k']; [simpl in Hk; lia|].
      assert (Hge : (d <= List.length l)%nat) by (simpl in Hk; lia).
      destruct (IH (skipn d l) k') as [Hn Hall].
      * rewrite length_skipn. lia.
      * rewrite length_skipn. simpl in Hk. lia.
      * split; [simpl; rewrite Hn; reflexivity|].
        constructor; [rewrite length_firstn; lia|exact Hall].
Qed.
End Unflatten.

Lemma eighth_of (d : nat) :
  (Qred (inject_Z (Z.of_nat (8 * d)) / inject_Z 8) == inject_Z (Z.of_nat d))%Q.
Proof.
  rewrite Qred_correct, Nat2Z.inj_mul.
  unfold Qeq, Qdiv, Qmult, Qinv, inject_Z. cbn [Qnum Qden].
  change (Z.pos (1 * 8)) with 8%Z. lia.
Qed.

(** C9: a float-vector column of positive dimension [d] decodes to the
    consecutive slices of [d] elements of its flat array, and a binary
    column of dimension [8 * d] to the consecutive slices of [d] bytes, in
    order and without holes.  The slices concatenate back to the flat
    array, and when its length is [k * d] there are [k] of them, each of
    length [d].  The column of dimension 4 holding 1 to 8 decodes to
    [[1,2,3,4],[5,6,7,8]]. *)
Theorem query_vector_unflatten :
  (forall (vectors : VectorField) (data : list JsNum) (d : nat),
      vf_data vectors = float_vector data ->
      Number (Some (vf_dim vectors)) = num_of_nat d ->
      (0 < d)%nat ->
      decode_vector_column vectors = map Some (chunks d data))
  /\ (forall (vectors : VectorField) (buffer : list byte) (d : nat),
         vf_data vectors = binary_vector buffer ->
         Number (Some (vf_dim vectors)) = num_of_nat (8 * d) ->
         (0 < d)%nat ->
         decode_vector_column vectors
         = map Some (chunks d (bytes_as_numbers buffer)))
  /\ (forall (d : nat) (l : list JsNum),
         (0 < d)%nat ->
         List.concat (chunks d l) = l
         /\ forall k : nat,
             List.length l = (k * d)%nat ->
             List.length (chunks d l) = k
             /\ Forall (fun c => List.length c = d) (chunks d l))
  /\ decode_vector_column eight_floats
     = [Some (map num_of_Z [1; 2; 3; 4]%Z); Some (map num_of_Z [5; 6; 7; 8]%Z)].
Proof.
  split; [|split; [|split]].
  - intros vectors data d Hdata Hdim Hpos.
    unfold decode_vector_column, query_dim, vectorValue.
    rewrite Hdata, Hdim. apply unflatten_chunks; [exact Hpos|reflexivity].
  - intros vectors buffer d Hdata Hdim Hpos.
    unfold decode_vector_column, query_dim, vectorValue.
    rewrite Hdata, Hdim. unfold num_of_nat, num_of_Z, js_div.
    apply unflatten_chunks; [exact Hpos|apply eighth_of].
  - intros d l Hpos. split.
    + apply chunks_fuel_concat; [exact Hpos|apply le_n].
    + intros k Hk. apply chunks_fuel_full; [exact Hpos|apply le_n|exact Hk].
  - vm_compute. reflexivity.
Qed.

Lemma query_vector_unflatten_witness :
  decode_vector_column eight_floats
  = map Some (chunks 4 (map num_of_Z [1; 2; 3; 4; 5; 6; 7; 8]%Z))
  /\ decode_vector_column four_bytes
     = map Some (chunks 2 (bytes_as_numbers ["a"; "b"; "c"; "d"]%byte))
  /\ List.length (chunks 4 (map num_of_Z [1; 2; 3; 4; 5; 6; 7; 8]%Z)) = 2%nat.
Proof.
  destruct query_vector_unflatten as (Hfloat & Hbinary & Hchunks & _).
  split; [|split].
  - apply (Hfloat eight_floats _ 4%nat eq_refl eq_refl). lia.
  - apply (Hbinary four_bytes _ 2%nat eq_refl eq_refl). lia.
  - apply (proj2 (Hchunks 4%nat (map num_of_Z [1; 2; 3; 4; 5; 6; 7; 8]%Z)
                          ltac:(lia)) 2%nat).
    reflexivity.
Defined.

(** * Further properties of [insert] *)

Lemma nth_arr_set (a : list JsValue) (i j : nat) (x : JsValue) :
  nth i (arr_set a j x) VUndefined
  = if (i =? j)%nat then x else nth i a VUndefined.
Proof.
  revert a i. induction j as [|j IH]; intros [|y rest] [|i]; simpl;
    try reflexivity.
  all: try (destruct i; reflexivity).
  - rewrite IH. destruct (i =? j)%nat; [reflexivity|destruct i; reflexivity].
  - apply IH.
Qed.

Lemma length_arr_set (a : list JsValue) (j : nat) (x : JsValue) :
  List.length (arr_set a j x) = Nat.max (List.length a) (S j).
Proof.
  revert a. induction j as [|j IH]; intros [|y rest]; simpl;
    try rewrite IH; simpl; lia.
Qed.

Lemma arr_set_idem (a : list JsValue) (j : nat) (x : JsValue) :
  arr_set (arr_set a j x) j x = arr_set a j x.
Proof.
  revert a. induction j as [|j IH]; intros [|y rest]; simpl; auto;
    rewrite IH; reflexivity.
Qed.

Lemma obj_get_absent (o : JsObject) (k : string) :
  ~ In k (Object_keys o) -> obj_get o k = VUndefined.
Proof.
  induction o as [|[k0 v0] rest IH]; simpl; intros Hn; [reflexivity|].
  destruct (String.eqb_spec k k0) as [->|Hne].
  - exfalso. apply Hn. left; reflexivity.
  - apply IH. intros H. apply Hn. right; exact H.
Qed.

Lemma has_key_In (row : JsObject) (name : string) :
  has_key row name = true <-> In name (Object_keys row).
Proof.
  unfold has_key. rewrite existsb_exists. split.
  - intros (k & Hin & Heq). apply String.eqb_eq in Heq. subst k. exact Hin.
  - intros Hin. exists name. split; [exact Hin|apply String.eqb_refl].
Qed.

Section Columns.
Context {ext : Externals}.

(** What one turn of the inner loop does to the accumulator of [name]. *)
Lemma encode_field_target (j : nat) (v : JsObject) (fd fd1 : JsMap Target)
      (k0 name : string) (k : nat) (t : Target) :
  encode_field j v fd k0 k = Ok fd1 ->
  Map_get fd name = Some t ->
  (k0 <> name -> Map_get fd1 name = Some t)
  /\ (k0 = name ->
      exists value,
        encode_value (DataTypeMap (t_type t)) (t_value t) j (obj_get v name)
        = Ok value
        /\ Map_get fd1 name = Some (with_value t value)).
Proof.
  intros Hrun Hget. pose proof (encode_field_cases j v fd k0 k) as H.
  rewrite Hrun in H. destruct H as (target & value & Hget0 & Hval & ->).
  split.
  - intros Hne. rewrite Map_get_set_other by congruence. exact Hget.
  - intros ->. rewrite Hget in Hget0. inversion Hget0; subst target.
    exists value. split; [exact Hval|apply Map_get_set_same].
Qed.

Lemma encode_keys_scalar (j : nat) (v : JsObject) (name : string) :
  forall (keys : list string) (k : nat) (fd fd1 : JsMap Target) (t : Target),
    forEach_from k (encode_field j v) keys fd = Ok fd1 ->
    Map_get fd name = Some t ->
    plain_scalar (DataTypeMap (t_type t)) = true ->
    exists t1,
      Map_get fd1 name = Some t1
      /\ t_type t1 = t_type t
      /\ t_value t1
         = if existsb (String.eqb name) keys
           then arr_set (t_value t) j (obj_get v name)
           else t_value t.
Proof.
  induction keys as [|k0 rest IH]; intros k fd fd1 t Hrun Hget Hty;
    simpl in Hrun.
  - inversion Hrun; subst. exists t. auto.
  - destruct (encode_field j v fd k0 k) as [fd0|e] eqn:Hstep; simpl in Hrun;
      [|discriminate].
    destruct (encode_field_target _ _ _ _ _ name _ _ Hstep Hget) as [Hother Hsame].
    simpl. destruct (String.eqb_spec name k0) as [Heq|Hne].
    + destruct (Hsame (eq_sym Heq)) as (value & Hval & Hget0).
      assert (Hvalue : value = arr_set (t_value t) j (obj_get v name)).
      { destruct (DataTypeMap (t_type t)) as [[]|]; simpl in Hty, Hval;
          try discriminate; inversion Hval; reflexivity. }
      destruct (IH _ _ _ _ Hrun Hget0 Hty) as (t1 & Hget1 & Hty1 & Hv1).
      exists t1. split; [exact Hget1|split; [exact Hty1|]].
      rewrite Hv1. simpl. rewrite Hvalue.
      destruct (existsb (String.eqb name) rest); [apply arr_set_idem|reflexivity].
    + assert (Hget0 : Map_get fd0 name = Some t) by (apply Hother; congruence).
      exact (IH _ _ _ _ Hrun Hget0 Hty).
Qed.

Lemma encode_rows_scalar (name : string) :
  forall (rows : list JsObject) (j : nat) (fd fd' : JsMap Target) (t : Target),
    forEach_from j encode_row rows fd = Ok fd' ->
    Map_get fd name = Some t ->
    plain_scalar (DataTypeMap (t_type t)) = true ->
    (List.length (t_value t) <= j)%nat ->
    exists t',
      Map_get fd' name = Some t'
      /\ (List.length (t_value t') <= j + List.length rows)%nat
      /\ forall i,
          nth i (t_value t') VUndefined
          = if (i <? j)%nat then nth i (t_value t) VUndefined
            else obj_get (nth (i - j) rows []) name.
Proof.
  induction rows as [|r rest IH]; intros j fd fd' t Hrun Hget Hty Hlen;
    simpl in Hrun.
  - inversion Hrun; subst. exists t. split; [exact Hget|split; [simpl; lia|]].
    intros i. destruct (Nat.ltb_spec i j); [reflexivity|].
    rewrite nth_overflow by lia. destruct (i - j)%nat; reflexivity.
  - destruct (encode_row fd r j) as [fd0|e] eqn:Hstep; simpl in Hrun;
      [|discriminate].
    unfold encode_row, forEach in Hstep.
    destruct (encode_keys_scalar j r name _ _ _ _ _ Hstep Hget Hty)
      as (t0 & Hget0 & Hty0 & Hv0).
    fold (has_key r name) in Hv0.
    assert (Hlen0 : (List.length (t_value t0) <= S j)%nat).
    { rewrite Hv0. destruct (has_key r name); [|lia].
      rewrite length_arr_set. lia. }
    assert (Hty0' : plain_scalar (DataTypeMap (t_type t0)) = true)
      by (rewrite Hty0; exact Hty).
    destruct (IH (S j) fd0 fd' t0 Hrun Hget0 Hty0' Hlen0)
      as (t' & Hget' & Hlen' & Hnth).
    exists t'. split; [exact Hget'|split; [simpl; lia|]].
    intros i. rewrite Hnth.
    destruct (Nat.ltb_spec i (S j)) as [Hlt|Hge].
    + rewrite Hv0. destruct (Nat.ltb_spec i j) as [Hlt'|Hge'].
      * destruct (has_key r name); [|reflexivity].
        rewrite nth_arr_set.
        destruct (Nat.eqb_spec i j); [lia|reflexivity].
      * assert (i = j) by lia. subst i. rewrite Nat.sub_diag. simpl.
        destruct (has_key r name) eqn:Hk.
        -- rewrite nth_arr_set, Nat.eqb_refl. reflexivity.
        -- rewrite nth_overflow by lia. symmetry. apply obj_get_absent.
           intros Hin. apply has_key_In in Hin. congruence.
    + destruct (Nat.ltb_spec i j); [lia|].
      replace (i - j)%nat with (S (i - S j)) by lia. reflexivity.
Qed.

Lemma encode_keys_vector (j : nat) (v : JsObject) (name : string) :
  forall (keys : list string) (k : nat) (fd fd1 : JsMap Target) (t : Target),
    NoDup keys ->
    forEach_from k (encode_field j v) keys fd = Ok fd1 ->
    Map_get fd name = Some t ->
    is_vector_type (DataTypeMap (t_type t)) = true ->
    exists t1,
      Map_get fd1 name = Some t1
      /\ t_type t1 = t_type t
      /\ t_value t1
         = (t_value t
              ++ if existsb (String.eqb name) keys
                 then match js_iterate (obj_get v name) with
                      | Ok vals => vals
                      | Throw _ => []
                      end
                 else [])%list.
Proof.
  induction keys as [|k0 rest IH]; intros k fd fd1 t Hnd Hrun Hget Hty;
    simpl in Hrun.
  - inversion Hrun; subst. exists t. simpl. rewrite app_nil_r. auto.
  - destruct (encode_field j v fd k0 k) as [fd0|e] eqn:Hstep; simpl in Hrun;
      [|discriminate].
    inversion Hnd as [|k0' rest' Hnotin Hnd']; subst.
    destruct (encode_field_target _ _ _ _ _ name _ _ Hstep Hget) as [Hother Hsame].
    simpl. destruct (String.eqb_spec name k0) as [Heq|Hne].
    + subst k0. destruct (Hsame eq_refl) as (value & Hval & Hget0).
      assert (Hvalue : js_iterate (obj_get v name) = Ok
                         (match js_iterate (obj_get v name) with
                          | Ok vals => vals | Throw _ => [] end)
                       /\ value = (t_value t ++
                                     match js_iterate (obj_get v name) with
                                     | Ok vals => vals | Throw _ => [] end)%list).
      { unfold is_vector_type in Hty.
        destruct (DataTypeMap (t_type t)) as [[]|]; simpl in Hty, Hval;
          try discriminate;
          destruct (js_iterate (obj_get v name)); simpl in Hval;
            try discriminate; inversion Hval; auto. }
      destruct Hvalue as [_ Hvalue].
      destruct (IH _ _ _ _ Hnd' Hrun Hget0 Hty) as (t1 & Hget1 & Hty1 & Hv1).
      exists t1. split; [exact Hget1|split; [exact Hty1|]].
      rewrite Hv1. simpl.
      assert (Hrest : existsb (String.eqb name) rest = false).
      { destruct (existsb (String.eqb name) rest) eqn:E; [|reflexivity].
        exfalso. apply Hnotin. apply existsb_exists in E.
        destruct E as (k1 & Hin & Heq). apply String.eqb_eq in Heq.
        subst k1. exact Hin. }
      rewrite Hrest, app_nil_r. exact Hvalue.
    + assert (Hget0 : Map_get fd0 name = Some t) by (apply Hother; congruence).
      exact (IH _ _ _ _ Hnd' Hrun Hget0 Hty).
Qed.

Lemma encode_rows_vector (name : string) :
  forall (rows : list JsObject) (j : nat) (fd fd' : JsMap Target) (t : Target),
    Forall (fun row => NoDup (Object_keys row)) rows ->
    forEach_from j encode_row rows fd = Ok fd' ->
    Map_get fd name = Some t ->
    is_vector_type (DataTypeMap (t_type t)) = true ->
    exists t',
      Map_get fd' name = Some t'
      /\ t_value t' = (t_value t ++ flat_map (row_elements name) rows)%list.
Proof.
  induction rows as [|r rest IH]; intros j fd fd' t Hnd Hrun Hget Hty;
    simpl in Hrun.
  - inversion Hrun; subst. exists t. simpl. rewrite app_nil_r. auto.
  - destruct (encode_row fd r j) as [fd0|e] eqn:Hstep; simpl in Hrun;
      [|discriminate].
    inversion Hnd as [|r' rest' Hr Hrest]; subst.
    unfold encode_row, forEach in Hstep.
    destruct (encode_keys_vector j r name _ _ _ _ _ Hr Hstep Hget Hty)
      as (t0 & Hget0 & Hty0 & Hv0).
    assert (Hty0' : is_vector_type (DataTypeMap (t_type t0)) = true)
      by (rewrite Hty0; exact Hty).
    destruct (IH (S j) fd0 fd' t0 Hrest Hrun Hget0 Hty0') as (t' & Hget' & Hv').
    exists t'. split; [exact Hget'|].
    rewrite Hv', Hv0. simpl. unfold row_elements at 2, has_key.
    rewrite <- app_assoc. reflexivity.
Qed.
End Columns.

Lemma Map_set_fresh {V} (m : JsMap V) (k : string) (v : V) :
  ~ In k (map fst m) -> Map_set m k v = (m ++ [(k, v)])%list.
Proof.
  induction m as [|[k0 v0] rest IH]; simpl; intros Hn; [reflexivity|].
  destruct (String.eqb_spec k k0) as [->|Hne].
  - exfalso. apply Hn. left; reflexivity.
  - rewrite IH; [reflexivity|]. intros H. apply Hn. right; exact H.
Qed.

Lemma Map_new_nodup {V} (entries : list (string * V)) :
  NoDup (map fst entries) -> Map_new entries = entries.
Proof.
  unfold Map_new.
  assert (Hgen : forall (l acc : list (string * V)),
             NoDup (map fst (acc ++ l)) ->
             fold_left (fun m kv => Map_set m (fst kv) (snd kv)) l acc
             = (acc ++ l)%list).
  { induction l as [|[k v] rest IH]; intros acc Hnd; simpl.
    - rewrite app_nil_r. reflexivity.
    - rewrite Map_set_fresh.
      + rewrite IH; rewrite <- app_assoc; [reflexivity|exact Hnd].
      + rewrite map_app in Hnd. simpl in Hnd.
        apply NoDup_remove_2 in Hnd. intros H. apply Hnd.
        apply in_or_app. left; exact H. }
  intros Hnd. exact (Hgen entries [] Hnd).
Qed.

Lemma Map_get_In {V} (m : JsMap V) (k : string) (v : V) :
  Map_get m k = Some v -> In (k, v) m.
Proof.
  induction m as [|[k0 v0] rest IH]; simpl; [discriminate|].
  destruct (String.eqb_spec k k0) as [->|Hne].
  - intros H; inversion H; subst. left; reflexivity.
  - intros H. right. exact (IH H).
Qed.

Lemma Map_get_nodup {V} (m : JsMap V) (k : string) (v : V) :
  NoDup (map fst m) -> In (k, v) m -> Map_get m k = Some v.
Proof.
  induction m as [|[k0 v0] rest IH]; simpl; intros Hnd Hin; [contradiction|].
  inversion Hnd as [|k0' rest' Hnotin Hnd']; subst.
  destruct Hin as [Heq|Hin].
  - inversion Heq; subst. rewrite String.eqb_refl. reflexivity.
  - destruct (String.eqb_spec k k0) as [->|Hne].
    + exfalso. apply Hnotin. apply (in_map fst) in Hin. exact Hin.
    + exact (IH Hnd' Hin).
Qed.

Lemma Map_get_None {V} (m : JsMap V) (k : string) :
  Map_get m k = None <-> ~ In k (map fst m).
Proof.
  induction m as [|[k0 v0] rest IH]; simpl.
  - split; auto.
  - destruct (String.eqb_spec k k0) as [->|Hne].
    + split; [discriminate|]. intros H. exfalso. apply H. left; reflexivity.
    + rewrite IH. split.
      * intros H [Heq|Hin]; [congruence|exact (H Hin)].
      * intros H Hin. apply H. right; exact Hin.
Qed.

Lemma Map_set_keys {V} (m : JsMap V) (k : string) (v : V) :
  forall k', In k' (map fst (Map_set m k v)) <-> k' = k \/ In k' (map fst m).
Proof.
  intros k'. induction m as [|[k0 v0] rest IH]; simpl.
  - split; [intros [H|[]]; auto|intros [H|[]]; auto].
  - destruct (String.eqb_spec k k0) as [->|Hne]; simpl.
    + split; [intros [H|H]; auto|intros [H|[H|H]]; auto].
    + rewrite IH. split; [intros [H|[H|H]]; auto|intros [H|[H|H]]; auto].
Qed.

Lemma Map_new_keys {V} (entries : list (string * V)) :
  forall k, In k (map fst (Map_new entries)) <-> In k (map fst entries).
Proof.
  unfold Map_new.
  assert (Hgen : forall (l acc : list (string * V)) k,
             In k (map fst (fold_left (fun m kv => Map_set m (fst kv) (snd kv))
                                      l acc))
             <-> In k (map fst acc) \/ In k (map fst l)).
  { induction l as [|[k0 v0] rest IH]; intros acc k; simpl.
    - split; [auto|intros [H|[]]; exact H].
    - rewrite IH, Map_set_keys. split.
      + intros [[H|H]|H]; auto.
      + intros [H|[H|H]]; auto. }
  intros k. rewrite Hgen. simpl. split; [intros [[]|H]; exact H|auto].
Qed.

Lemma mapR_In {A B} (f : A -> Result B) :
  forall (l : list A) (ys : list B) (x : A),
    mapR f l = Ok ys -> In x l -> exists y, In y ys /\ f x = Ok y.
Proof.
  induction l as [|a rest IH]; intros ys x Hrun Hin; [contradiction|].
  simpl in Hrun. destruct (f a) as [b|e] eqn:Hfa; simpl in Hrun; [|discriminate].
  destruct (mapR f rest) as [bs|e] eqn:Hrest; simpl in Hrun; [|discriminate].
  inversion Hrun; subst. destruct Hin as [->|Hin].
  - exists b. split; [left; reflexivity|exact Hfa].
  - destruct (IH bs x eq_refl Hin) as (y & Hy & Hfx).
    exists y. split; [right; exact Hy|exact Hfx].
Qed.

Section ColumnsSent.
Context {ext : Externals}.

Lemma skeleton_set (fd : JsMap Target) (name : string) (target : Target)
      (value : list JsValue) :
  Map_get fd name = Some target ->
  skeleton (Map_set fd name (with_value target value)) = skeleton fd.
Proof.
  induction fd as [|[k0 t0] rest IH]; simpl; [discriminate|].
  destruct (String.eqb_spec name k0) as [->|Hne]; simpl.
  - intros H; inversion H; subst. reflexivity.
  - intros H. rewrite (IH H). reflexivity.
Qed.

Lemma encode_rows_skeleton (rows : list JsObject) (fd fd' : JsMap Target) :
  encode_rows rows fd = Ok fd' -> skeleton fd' = skeleton fd.
Proof.
  intros Hrun. unfold encode_rows, forEach in Hrun.
  refine (forEach_from_inv (fun s => skeleton s = skeleton fd)
                           _ _ _ _ _ _ _ Hrun); [|reflexivity].
  intros s row i s' _ Hs Hrow. unfold encode_row, forEach in Hrow.
  refine (forEach_from_inv (fun s0 => skeleton s0 = skeleton fd)
                           _ _ _ _ _ _ _ Hrow); [|exact Hs].
  intros s0 name k s1 _ Hs0 Hstep.
  pose proof (encode_field_cases i row s0 name k) as H. rewrite Hstep in H.
  destruct H as (target & value & Hget & _ & ->).
  rewrite (skeleton_set _ _ _ _ Hget). exact Hs0.
Qed.

Lemma resolve_nodup (fields : list FieldSchema) :
  NoDup (map fs_name (filter kept fields)) ->
  resolve fields = map resolve_field (filter kept fields).
Proof.
  intros Hnd. unfold resolve. apply Map_new_nodup.
  rewrite map_map. exact Hnd.
Qed.

Lemma resolve_None (fields : list FieldSchema) (name : string) :
  Map_get (resolve fields) name = None
  <-> forall f, In f fields -> fs_name f = name -> kept f = false.
Proof.
  rewrite Map_get_None. unfold resolve. rewrite Map_new_keys, map_map.
  change (map (fun x => fst (resolve_field x)) (filter kept fields))
    with (map fs_name (filter kept fields)).
  rewrite in_map_iff. split.
  - intros Hn f Hin Hname. destruct (kept f) eqn:Hk; [|reflexivity].
    exfalso. apply Hn. exists f. split; [exact Hname|].
    apply filter_In. split; assumption.
  - intros Hall (f & Hname & Hin). apply filter_In in Hin.
    destruct Hin as [Hin Hk].
    assert (Hk' : kept f = true) by exact Hk.
    rewrite (Hall f Hin Hname) in Hk'. discriminate.
Qed.

Lemma to_column_ok (t : Target) (col : ColumnBuffer) :
  to_column t = Ok col ->
  col_field_name col = t_name t
  /\ DataTypeMap (t_type t) = Some (col_type col)
  /\ supported (DataTypeMap (t_type t)) = true
  /\ (col_type col = DataType.FloatVector ->
      col_payload col = vectors_float (t_dim t) (t_value t))
  /\ (col_type col = DataType.BinaryVector ->
      col_payload col
      = vectors_binary (t_dim t) (parseBinaryVectorToBytes (VArr (t_value t))))
  /\ (is_vector_type (Some (col_type col)) = false ->
      exists dataKey, col_payload col = scalars dataKey (t_value t)).
Proof.
  unfold to_column.
  destruct (DataTypeMap (t_type t)) as [ty|]; [|discriminate].
  destruct ty; simpl; try discriminate;
    intros H; inversion H; subst; simpl;
      repeat split; try discriminate; eauto.
Qed.

Lemma to_column_unsupported (t : Target) :
  supported (DataTypeMap (t_type t)) = false ->
  to_column t = Throw (INSERT_CHECK_WRONG_DATA_TYPE (t_type t)).
Proof.
  unfold to_column.
  destruct (DataTypeMap (t_type t)) as [[]|]; simpl; try discriminate;
    reflexivity.
Qed.

Lemma to_column_supported (t : Target) :
  supported (DataTypeMap (t_type t)) = true -> exists col, to_column t = Ok col.
Proof.
  unfold to_column.
  destruct (DataTypeMap (t_type t)) as [[]|]; simpl; try discriminate; eauto.
Qed.

Lemma mapR_to_column_names :
  forall (l : list Target) (cols : list ColumnBuffer),
    mapR to_column l = Ok cols ->
    map col_field_name cols = map t_name l
    /\ map (fun c => Some (col_type c)) cols
       = map (fun t => DataTypeMap (t_type t)) l.
Proof.
  induction l as [|t rest IH]; intros cols Hrun; simpl in Hrun.
  - inversion Hrun; subst. split; reflexivity.
  - destruct (to_column t) as [c|e] eqn:Hc; simpl in Hrun; [|discriminate].
    destruct (mapR to_column rest) as [cs|e] eqn:Hrest; simpl in Hrun;
      [|discriminate].
    inversion Hrun; subst. destruct (IH cs eq_refl) as [Hn Ht].
    destruct (to_column_ok t c Hc) as (Hname & Hty & _).
    simpl. rewrite Hn, Ht, Hname, Hty. split; reflexivity.
Qed.

Lemma mapR_to_column_unsupported :
  forall l : list Target,
    (exists t, In t l /\ supported (DataTypeMap (t_type t)) = false) ->
    exists t, In t l /\ supported (DataTypeMap (t_type t)) = false
              /\ mapR to_column l
                 = Throw (INSERT_CHECK_WRONG_DATA_TYPE (t_type t)).
Proof.
  induction l as [|t rest IH]; intros (t0 & Hin & Hbad); [contradiction|].
  simpl. destruct (supported (DataTypeMap (t_type t))) eqn:Hs.
  - destruct Hin as [->|Hin]; [congruence|].
    destruct (IH (ex_intro _ t0 (conj Hin Hbad))) as (t1 & Hin1 & Hbad1 & Hrun).
    exists t1. split; [right; exact Hin1|split; [exact Hbad1|]].
    destruct (to_column_supported t Hs) as [c Hc]. rewrite Hc, Hrun. reflexivity.
  - exists t. split; [left; reflexivity|split; [exact Hs|]].
    rewrite (to_column_unsupported t Hs). reflexivity.
Qed.

Lemma mapR_to_column_error (l : list Target) (e : Error) :
  mapR to_column l = Throw e ->
  exists ty, e = INSERT_CHECK_WRONG_DATA_TYPE ty.
Proof.
  induction l as [|t rest IH]; simpl; [discriminate|].
  destruct (to_column t) as [c|e0] eqn:Hc; simpl.
  - destruct (mapR to_column rest) as [cs|e1]; simpl; [discriminate|].
    intros H; inversion H; subst. apply IH. reflexivity.
  - intros H; inversion H; subst. unfold to_column in Hc.
    destruct (DataTypeMap (t_type t)) as [[]|]; simpl in Hc;
      try discriminate; inversion Hc; eauto.
Qed.

(** Where a wrong-field error comes from: the row of that index. *)
Lemma encode_rows_wrong_field (i : nat) :
  forall (rows : list JsObject) (j : nat) (fd : JsMap Target),
    forEach_from j encode_row rows fd = Throw (INSERT_CHECK_WRONG_FIELD i) ->
    (j <= i)%nat
    /\ exists row name,
        nth_error rows (i - j) = Some row
        /\ In name (Object_keys row)
        /\ Map_get fd name = None.
Proof.
  induction rows as [|r rest IH]; intros j fd Hrun; simpl in Hrun;
    [discriminate|].
  destruct (encode_row fd r j) as [fd1|e1] eqn:Hstep; simpl in Hrun.
  - destruct (IH _ _ Hrun) as (Hle & row & name & Hnth & Hkey & Hnone).
    split; [lia|]. exists row, name.
    replace (i - j)%nat with (S (i - S j)) by lia. simpl.
    split; [exact Hnth|split; [exact Hkey|]].
    pose proof (encode_row_sig _ _ _ _ Hstep name) as Hsig.
    unfold field_sig in Hsig. rewrite Hnone in Hsig. simpl in Hsig.
    destruct (Map_get fd name); [discriminate|reflexivity].
  - inversion Hrun; subst. clear Hrun IH.
    unfold encode_row, forEach in Hstep.
    assert (Hkeys : forall (keys : list string) (k : nat) (fd0 : JsMap Target),
               (forall nm, field_sig fd0 nm = field_sig fd nm) ->
               forEach_from k (encode_field j r) keys fd0
               = Throw (INSERT_CHECK_WRONG_FIELD i) ->
               i = j /\ exists name, In name keys /\ Map_get fd name = None).
    { induction keys as [|k0 ks IHk]; intros k fd0 Hsame Hk; simpl in Hk;
        [discriminate|].
      destruct (encode_field j r fd0 k0 k) as [fd2|e2] eqn:Hf; simpl in Hk.
      - destruct (IHk (S k) fd2) as (Hi & name & Hin & Hnone); [|exact Hk|].
        + intros nm. rewrite (encode_field_sig _ _ _ _ _ _ Hf). apply Hsame.
        + split; [exact Hi|]. exists name. split; [right; exact Hin|exact Hnone].
      - inversion Hk; subst.
        pose proof (encode_field_cases j r fd0 k0 k) as Hc. rewrite Hf in Hc.
        destruct Hc as [[Hnone Heq]|(target & _ & [[_ [[_ Heq]|(len & _ & _ & Heq)]]|(_ & _ & Heq)])];
          try discriminate.
        inversion Heq; subst. split; [reflexivity|].
        exists k0. split; [left; reflexivity|].
        pose proof (Hsame k0) as Hsig. unfold field_sig in Hsig.
        rewrite Hnone in Hsig. simpl in Hsig.
        destruct (Map_get fd k0); [discriminate|reflexivity]. }
    destruct (Hkeys _ _ _ (fun nm => eq_refl) Hstep) as (Hi & name & Hin & Hnone).
    subst i. split; [lia|]. exists r, name. rewrite Nat.sub_diag. simpl. auto.
Qed.

Context {srv : Server}.

(** What has happened when [insert] has sent its request. *)
Lemma insert_sent (data : InsertReq) (rows : list JsObject)
      (info : DescribeCollectionResponse) (params : InsertParams)
      (timeout : option Z) :
  checkCollectionName (ins_collection_name data) = None ->
  ins_fields_data data = Some rows ->
  describe_reply (ins_collection_name data) = Ok info ->
  is_success (dc_status info) = true ->
  In (Insert params timeout) (fst (insert data [])) ->
  exists fd',
    encode_rows rows (resolve (dc_fields info)) = Ok fd'
    /\ mapR to_column (Map_values fd') = Ok (ip_fields_data params)
    /\ ip_num_rows params = List.length rows.
Proof.
  intros Hcheck Hrows Hdescribe Hok Hin.
  destruct rows as [|row rest].
  - unfold insert, bind, guard, ret, throw in Hin.
    rewrite Hcheck, Hrows in Hin. simpl in Hin. contradiction.
  - rewrite (insert_run data (row :: rest) info [] Hcheck Hrows
                        ltac:(discriminate) Hdescribe Hok) in Hin.
    destruct (encode_rows (row :: rest) (resolve (dc_fields info)))
      as [fd'|e] eqn:Henc;
      [|simpl in Hin; destruct Hin as [H|[]]; discriminate H].
    destruct (mapR to_column (Map_values fd')) as [cols|e] eqn:Hcols;
      [|simpl in Hin; destruct Hin as [H|[]]; discriminate H].
    simpl in Hin. destruct Hin as [H|[H|[]]]; [discriminate H|].
    inversion H; subst. exists fd'. simpl. repeat split; auto.
Qed.
End ColumnsSent.

Section InsertExtras.
Context {ext : Externals}.

(** The encoder keeps the name, the declared type and the dimension of
    every accumulator. *)
Lemma encode_rows_target (rows : list JsObject) (fd fd' : JsMap Target)
      (name : string) (t : Target) :
  encode_rows rows fd = Ok fd' ->
  Map_get fd name = Some t ->
  exists t',
    Map_get fd' name = Some t'
    /\ t_name t' = t_name t /\ t_type t' = t_type t /\ t_dim t' = t_dim t.
Proof.
  intros Hrun Hget. unfold encode_rows, forEach in Hrun.
  set (P := fun s : JsMap Target =>
              exists t', Map_get s name = Some t'
                         /\ t_name t' = t_name t /\ t_type t' = t_type t
                         /\ t_dim t' = t_dim t).
  assert (Hfield : forall i v s k0 k s',
             P s -> encode_field i v s k0 k = Ok s' -> P s').
  { intros i v s k0 k s' (t0 & Hget0 & Hn & Hty & Hd) Hstep.
    destruct (encode_field_target _ _ _ _ _ name _ _ Hstep Hget0)
      as [Hother Hsame].
    destruct (string_dec k0 name) as [Heq|Hne].
    - destruct (Hsame Heq) as (value & _ & Hget1).
      exists (with_value t0 value). simpl. auto.
    - exists t0. auto. }
  refine (forEach_from_inv P _ _ _ _ _ _ _ Hrun).
  - intros s row i s' _ Hs Hrow. unfold encode_row, forEach in Hrow.
    refine (forEach_from_inv P _ _ _ _ _ _ _ Hrow); [|exact Hs].
    intros s0 k0 k s1 _ Hs0 Hstep. exact (Hfield _ _ _ _ _ _ Hs0 Hstep).
  - exists t. auto.
Qed.

Lemma resolve_lookup_nodup (fields : list FieldSchema) (f : FieldSchema) :
  NoDup (map fs_name (filter kept fields)) ->
  In f fields -> kept f = true ->
  Map_get (resolve fields) (fs_name f) = Some (snd (resolve_field f)).
Proof.
  intros Hnd Hin Hk. rewrite (resolve_nodup fields Hnd).
  apply Map_get_nodup.
  - rewrite map_map. exact Hnd.
  - change (fs_name f, snd (resolve_field f)) with (resolve_field f).
    apply in_map. apply filter_In. split; assumption.
Qed.

Lemma eighth_test (n d : Z) :
  Qeq_bool (inject_Z n) (Qred (inject_Z d / inject_Z 8)) = (d =? 8 * n)%Z.
Proof.
  destruct (Z.eqb_spec d (8 * n)%Z) as [Heq|Hne].
  - apply Qeq_bool_iff. rewrite Qred_correct. subst d.
    unfold Qeq, Qdiv, Qmult, Qinv, inject_Z. cbn [Qnum Qden].
    change (Z.pos (1 * 8)) with 8%Z. lia.
  - destruct (Qeq_bool (inject_Z n) (Qred (inject_Z d / inject_Z 8))) eqn:E;
      [|reflexivity].
    exfalso. apply Hne. apply Qeq_bool_iff in E. rewrite Qred_correct in E.
    unfold Qeq, Qdiv, Qmult, Qinv, inject_Z in E. cbn [Qnum Qden] in E.
    change (Z.pos (1 * 8)) with 8%Z in E. lia.
Qed.
End InsertExtras.

(** X1: the columns of a request [insert] sends are those of the schema
    fields that are not auto-id primary keys, in schema order, each under
    the field's name and declared type, and [num_rows] is the number of
    rows. *)
Theorem insert_columns_follow_schema (ext : Externals) (srv : Server)
        (data : InsertReq) (rows : list JsObject)
        (info : DescribeCollectionResponse) (params : InsertParams)
        (timeout : option Z) :
  checkCollectionName (ins_collection_name data) = None ->
  ins_fields_data data = Some rows ->
  describe_reply (ins_collection_name data) = Ok info ->
  is_success (dc_status info) = true ->
  NoDup (map fs_name (filter kept (dc_fields info))) ->
  In (Insert params timeout) (fst (insert data [])) ->
  map col_field_name (ip_fields_data params)
  = map fs_name (filter kept (dc_fields info))
  /\ map (fun c => Some (col_type c)) (ip_fields_data params)
     = map (fun f => DataTypeMap (fs_data_type f)) (filter kept (dc_fields info))
  /\ ip_num_rows params = List.length rows.
Proof.
  intros Hcheck Hrows Hdescribe Hok Hnd Hin.
  destruct (insert_sent data rows info params timeout
                        Hcheck Hrows Hdescribe Hok Hin)
    as (fd' & Henc & Hcols & Hnum).
  destruct (mapR_to_column_names _ _ Hcols) as [Hnames Htypes].
  pose proof (encode_rows_skeleton _ _ _ Henc) as Hsk.
  rewrite (resolve_nodup _ Hnd) in Hsk.
  assert (Hn : map t_name (Map_values fd')
               = map (fun e => fst (fst (snd e))) (skeleton fd')).
  { unfold skeleton, Map_values. rewrite !map_map. reflexivity. }
  assert (Ht : map (fun t => DataTypeMap (t_type t)) (Map_values fd')
               = map (fun e => DataTypeMap (snd (fst (snd e)))) (skeleton fd')).
  { unfold skeleton, Map_values. rewrite !map_map. reflexivity. }
  rewrite Hnames, Htypes, Hn, Ht, Hsk. unfold skeleton. rewrite !map_map.
  repeat split; auto.
Qed.

Lemma insert_columns_follow_schema_witness :
  map col_field_name (ip_fields_data people_params) = ["age"; "v"]
  /\ ip_num_rows people_params = 2%nat.
Proof.
  destruct (insert_columns_follow_schema
              reference_externals (reference_server people_fields no_results)
              (insert_of people_rows) people_rows people_info people_params
              None eq_refl eq_refl eq_refl eq_refl) as (Hnames & _ & Hnum).
  - repeat (constructor; [simpl; intuition discriminate|]). constructor.
  - right; left; reflexivity.
  - split; [exact Hnames|exact Hnum].
Defined.

(** X2: in a request [insert] sends, the column of a scalar field other
    than JSON holds at index [i] the value row [i] has under the field's
    name, [undefined] when the row has none, and is no longer than the row
    list. *)
Theorem insert_scalar_column_transposes_rows (ext : Externals) (srv : Server)
        (data : InsertReq) (rows : list JsObject)
        (info : DescribeCollectionResponse) (params : InsertParams)
        (timeout : option Z) (f : FieldSchema) :
  checkCollectionName (ins_collection_name data) = None ->
  ins_fields_data data = Some rows ->
  describe_reply (ins_collection_name data) = Ok info ->
  is_success (dc_status info) = true ->
  NoDup (map fs_name (filter kept (dc_fields info))) ->
  In (Insert params timeout) (fst (insert data [])) ->
  In f (dc_fields info) ->
  kept f = true ->
  plain_scalar (DataTypeMap (fs_data_type f)) = true ->
  exists col dataKey values,
    In col (ip_fields_data params)
    /\ col_field_name col = fs_name f
    /\ col_payload col = scalars dataKey values
    /\ (List.length values <= List.length rows)%nat
    /\ forall i, nth i values VUndefined = obj_get (nth i rows []) (fs_name f).
Proof.
  intros Hcheck Hrows Hdescribe Hok Hnd Hin Hf Hk Hty.
  destruct (insert_sent data rows info params timeout
                        Hcheck Hrows Hdescribe Hok Hin)
    as (fd' & Henc & Hcols & _).
  pose proof (resolve_lookup_nodup _ f Hnd Hf Hk) as Hget.
  destruct (encode_rows_target _ _ _ _ _ Henc Hget)
    as (t' & Hget' & Hname & Htype & _).
  destruct (encode_rows_scalar (fs_name f) rows 0%nat _ _ _ Henc Hget Hty
                               (Nat.le_0_l _))
    as (t'' & Hget'' & Hlen & Hnth).
  rewrite Hget' in Hget''. inversion Hget''; subst t''. clear Hget''.
  assert (Hin' : In t' (Map_values fd')).
  { apply Map_get_In in Hget'. apply (in_map snd) in Hget'. exact Hget'. }
  destruct (mapR_In to_column _ _ _ Hcols Hin') as (col & Hcol & Hto).
  destruct (to_column_ok _ _ Hto) as (Hcname & Hcty & _ & _ & _ & Hscalar).
  destruct Hscalar as [dataKey Hpayload].
  { rewrite Htype in Hcty. simpl in Hcty. rewrite Hcty in Hty.
    destruct (col_type col); simpl in Hty; try discriminate; reflexivity. }
  exists col, dataKey, (t_value t').
  split; [exact Hcol|]. split; [rewrite Hcname, Hname; reflexivity|].
  split; [exact Hpayload|]. split; [exact Hlen|].
  intros i. rewrite Hnth. simpl. rewrite Nat.sub_0_r. reflexivity.
Qed.

Lemma insert_scalar_column_transposes_rows_witness :
  exists col dataKey values,
    In col (ip_fields_data people_params)
    /\ col_field_name col = "age"
    /\ col_payload col = scalars dataKey values
    /\ nth 1 values VUndefined = jnum 40.
Proof.
  destruct (insert_scalar_column_transposes_rows
              reference_externals (reference_server people_fields no_results)
              (insert_of people_rows) people_rows people_info people_params
              None (field "age" "Int64" [])
              eq_refl eq_refl eq_refl eq_refl)
    as (col & dataKey & values & Hin & Hname & Hpayload & _ & Hnth).
  - repeat (constructor; [simpl; intuition discriminate|]). constructor.
  - right; left; reflexivity.
  - right; left; reflexivity.
  - reflexivity.
  - reflexivity.
  - exists col, dataKey, values. repeat split; auto.
Defined.

(** X3: in a request [insert] sends, the flat buffer of a float-vector
    field is the concatenation, in row order, of the elements of the values
    the rows have under the field's name; a row without the field adds
    nothing. *)
Theorem insert_float_column_concatenates_rows (ext : Externals) (srv : Server)
        (data : InsertReq) (rows : list JsObject)
        (info : DescribeCollectionResponse) (params : InsertParams)
        (timeout : option Z) (f : FieldSchema) :
  checkCollectionName (ins_collection_name data) = None ->
  ins_fields_data data = Some rows ->
  describe_reply (ins_collection_name data) = Ok info ->
  is_success (dc_status info) = true ->
  NoDup (map fs_name (filter kept (dc_fields info))) ->
  Forall (fun row => NoDup (Object_keys row)) rows ->
  In (Insert params timeout) (fst (insert data [])) ->
  In f (dc_fields info) ->
  kept f = true ->
  DataTypeMap (fs_data_type f) = Some DataType.FloatVector ->
  exists col,
    In col (ip_fields_data params)
    /\ col_field_name col = fs_name f
    /\ col_payload col
       = vectors_float (Number (findKeyValue (fs_type_params f) "dim"))
                       (flat_map (row_elements (fs_name f)) rows).
Proof.
  intros Hcheck Hrows Hdescribe Hok Hnd Hkeys Hin Hf Hk Hty.
  destruct (insert_sent data rows info params timeout
                        Hcheck Hrows Hdescribe Hok Hin)
    as (fd' & Henc & Hcols & _).
  pose proof (resolve_lookup_nodup _ f Hnd Hf Hk) as Hget.
  destruct (encode_rows_target _ _ _ _ _ Henc Hget)
    as (t' & Hget' & Hname & Htype & Hdim).
  assert (Hvec : is_vector_type
                   (DataTypeMap (t_type (snd (resolve_field f)))) = true).
  { simpl. unfold is_vector_type. rewrite Hty. reflexivity. }
  destruct (encode_rows_vector (fs_name f) rows 0%nat _ _ _ Hkeys Henc Hget Hvec)
    as (t'' & Hget'' & Hvalue).
  rewrite Hget' in Hget''. inversion Hget''; subst t''. clear Hget''.
  assert (Hin' : In t' (Map_values fd')).
  { apply Map_get_In in Hget'. apply (in_map snd) in Hget'. exact Hget'. }
  destruct (mapR_In to_column _ _ _ Hcols Hin') as (col & Hcol & Hto).
  destruct (to_column_ok _ _ Hto) as (Hcname & Hcty & _ & Hfloat & _).
  rewrite Htype in Hcty. simpl in Hcty. rewrite Hty in Hcty.
  inversion Hcty as [Hct].
  exists col. split; [exact Hcol|]. split; [rewrite Hcname, Hname; reflexivity|].
  rewrite (Hfloat (eq_sym Hct)), Hdim, Hvalue. reflexivity.
Qed.

Lemma insert_float_column_concatenates_rows_witness :
  exists col,
    In col (ip_fields_data people_params)
    /\ col_field_name col = "v"
    /\ col_payload col
       = vectors_float (num_of_Z 2) [jnum 1; jnum 2; jnum 3; jnum 4].
Proof.
  destruct (insert_float_column_concatenates_rows
              reference_externals (reference_server people_fields no_results)
              (insert_of people_rows) people_rows people_info people_params
              None (field "v" "FloatVector" [("dim", "2")])
              eq_refl eq_refl eq_refl eq_refl)
    as (col & Hin & Hname & Hpayload).
  - repeat (constructor; [simpl; intuition discriminate|]). constructor.
  - repeat constructor; simpl; intuition discriminate.
  - right; left; reflexivity.
  - right; right; left; reflexivity.
  - reflexivity.
  - reflexivity.
  - exists col. repeat split; auto.
Defined.

(** X4: when [insert] stops after [DescribeCollection] with the wrong-field
    error of index [i], row [i] of the request has a key that names no
    field of the schema other than auto-id primary keys. *)
Theorem insert_wrong_field_names_the_row (ext : Externals) (srv : Server)
        (data : InsertReq) (rows : list JsObject)
        (info : DescribeCollectionResponse) (i : nat) :
  checkCollectionName (ins_collection_name data) = None ->
  ins_fields_data data = Some rows ->
  describe_reply (ins_collection_name data) = Ok info ->
  is_success (dc_status info) = true ->
  insert data []
  = ([DescribeCollection (ins_collection_name data)],
     Throw (INSERT_CHECK_WRONG_FIELD i)) ->
  exists row name,
    nth_error rows i = Some row
    /\ In name (Object_keys row)
    /\ forall f, In f (dc_fields info) -> fs_name f = name ->
                 fs_is_primary_key f = true /\ fs_autoID f = true.
Proof.
  intros Hcheck Hrows Hdescribe Hok Hrun.
  destruct rows as [|row0 rest].
  - unfold insert, bind, guard, ret, throw in Hrun.
    rewrite Hcheck, Hrows in Hrun. simpl in Hrun. discriminate.
  - rewrite (insert_run data (row0 :: rest) info [] Hcheck Hrows
                        ltac:(discriminate) Hdescribe Hok) in Hrun.
    destruct (encode_rows (row0 :: rest) (resolve (dc_fields info)))
      as [fd'|e] eqn:Henc.
    + destruct (mapR to_column (Map_values fd')) as [cols|e] eqn:Hcols.
      * simpl in Hrun. discriminate.
      * destruct (mapR_to_column_error _ _ Hcols) as [ty ->].
        inversion Hrun.
    + inversion Hrun; subst e.
      destruct (encode_rows_wrong_field i _ 0%nat _ Henc)
        as (_ & row & name & Hnth & Hkey & Hnone).
      rewrite Nat.sub_0_r in Hnth.
      exists row, name. split; [exact Hnth|split; [exact Hkey|]].
      intros f Hf Hname.
      pose proof (proj1 (resolve_None _ _) Hnone f Hf Hname) as Hk.
      unfold kept in Hk.
      destruct (fs_is_primary_key f), (fs_autoID f); simpl in Hk;
        try discriminate; auto.
Qed.

Lemma insert_wrong_field_names_the_row_witness :
  exists row name,
    nth_error rows_with_id 1 = Some row /\ In name (Object_keys row).
Proof.
  destruct (insert_wrong_field_names_the_row
              reference_externals (reference_server people_fields no_results)
              (insert_of rows_with_id) rows_with_id people_info 1%nat
              eq_refl eq_refl eq_refl eq_refl eq_refl)
    as (row & name & Hnth & Hkey & _).
  exists row, name. split; assumption.
Defined.

(** X5: the resolved map of [insert] has no entry for a name exactly when
    every schema field of that name is an auto-id primary key; when the
    names of the other fields are distinct, each of them resolves to its
    own declared type and dimension parameter, with an empty buffer. *)
Theorem resolve_excludes_auto_id_primary_keys (fields : list FieldSchema) :
  (forall name,
      Map_get (resolve fields) name = None
      <-> forall f, In f fields -> fs_name f = name ->
                    fs_is_primary_key f = true /\ fs_autoID f = true)
  /\ (NoDup (map fs_name (filter kept fields)) ->
      forall f, In f fields ->
                fs_is_primary_key f = false \/ fs_autoID f = false ->
                Map_get (resolve fields) (fs_name f)
                = Some {| t_name := fs_name f;
                          t_type := fs_data_type f;
                          t_dim := Number (findKeyValue (fs_type_params f) "dim");
                          t_value := [] |}).
Proof.
  split.
  - intros name. rewrite resolve_None. split; intros H f Hf Hname.
    + pose proof (H f Hf Hname) as Hk. unfold kept in Hk.
      destruct (fs_is_primary_key f), (fs_autoID f); simpl in Hk;
        try discriminate; auto.
    + destruct (H f Hf Hname) as [Hp Ha]. unfold kept. rewrite Hp, Ha.
      reflexivity.
  - intros Hnd f Hf Hkeep.
    apply (resolve_lookup_nodup fields f Hnd Hf).
    unfold kept. destruct Hkeep as [-> | ->]; simpl;
      [reflexivity|apply orb_true_r].
Qed.

Lemma resolve_excludes_auto_id_primary_keys_witness :
  Map_get (resolve people_fields) "id" = None
  /\ Map_get (resolve people_fields) "v"
     = Some (target_of "v" "FloatVector" (num_of_Z 2) []).
Proof.
  destruct (resolve_excludes_auto_id_primary_keys people_fields)
    as [Hnone Hsome].
  split.
  - apply Hnone. intros f [<-|[<-|[<-|[]]]] Hname; try discriminate Hname.
    split; reflexivity.
  - apply (Hsome ltac:(repeat (constructor; [simpl; intuition discriminate|]);
                       constructor)
                 (field "v" "FloatVector" [("dim", "2")])).
    + right; right; left; reflexivity.
    + left; reflexivity.
Defined.

(** X6: for a binary-vector field of integer dimension [d], an array of
    [n] elements passes the length test exactly when [d = 8 * n]; it is
    then appended to the field's flat buffer, and refused with the
    dimension error otherwise. *)
Theorem binary_vector_length_test (ext : Externals) (i : nat) (v : JsObject)
        (fd : JsMap Target) (name : string) (k : nat) (target : Target)
        (l : list JsValue) (d : Z) :
  Map_get fd name = Some target ->
  DataTypeMap (t_type target) = Some DataType.BinaryVector ->
  t_dim target = num_of_Z d ->
  obj_get v name = VArr l ->
  encode_field i v fd name k
  = if (d =? 8 * Z.of_nat (List.length l))%Z
    then Ok (Map_set fd name (with_value target (t_value target ++ l)%list))
    else Throw INSERT_CHECK_WRONG_DIM.
Proof.
  intros Hget Hty Hdim Hval.
  assert (Htest : js_strict_neq (VNum (num_of_nat (List.length l)))
                                (js_div (num_of_Z d) (inject_Z 8))
                  = negb (d =? 8 * Z.of_nat (List.length l))%Z).
  { unfold js_strict_neq, js_num_neq, js_num_eq, js_div, num_of_nat, num_of_Z.
    rewrite eighth_test. reflexivity. }
  unfold encode_field. rewrite Hget, Hty, Hdim, Hval.
  cbn [is_type DataType.eqb js_length bindR]. rewrite Htest.
  destruct (d =? 8 * Z.of_nat (List.length l))%Z; reflexivity.
Qed.

Lemma binary_vector_length_test_witness :
  @encode_field reference_externals 0 two_byte_row (resolve binary_field) "bv" 0
  = Ok [("bv", target_of "bv" "BinaryVector" (num_of_Z 16) [jnum 1; jnum 2])]
  /\ @encode_field reference_externals 0 short_binary_row
                   (resolve binary_field) "bv" 0
     = Throw INSERT_CHECK_WRONG_DIM.
Proof.
  split.
  - exact (binary_vector_length_test
             reference_externals 0%nat two_byte_row (resolve binary_field)
             "bv" 0%nat (target_of "bv" "BinaryVector" (num_of_Z 16) [])
             [jnum 1; jnum 2] 16%Z eq_refl eq_refl eq_refl eq_refl).
  - exact (binary_vector_length_test
             reference_externals 0%nat short_binary_row (resolve binary_field)
             "bv" 0%nat (target_of "bv" "BinaryVector" (num_of_Z 16) [])
             [jnum 1] 16%Z eq_refl eq_refl eq_refl eq_refl).
Defined.

(** X7: when the schema has a field, other than an auto-id primary key,
    whose declared type has no wire key, [insert] sends no request whatever
    the rows are: it throws, and if the rows themselves pass the encoder
    the error is the wrong-data-type error naming such a field's type. *)
Theorem insert_unsupported_type_never_sent (ext : Externals) (srv : Server)
        (data : InsertReq) (rows : list JsObject)
        (info : DescribeCollectionResponse) (g : FieldSchema) :
  checkCollectionName (ins_collection_name data) = None ->
  ins_fields_data data = Some rows ->
  rows <> [] ->
  describe_reply (ins_collection_name data) = Ok info ->
  is_success (dc_status info) = true ->
  NoDup (map fs_name (filter kept (dc_fields info))) ->
  In g (dc_fields info) ->
  kept g = true ->
  supported (DataTypeMap (fs_data_type g)) = false ->
  existsb is_Insert (fst (insert data [])) = false
  /\ exists e,
      snd (insert data []) = Throw e
      /\ forall fd',
          encode_rows rows (resolve (dc_fields info)) = Ok fd' ->
          exists h,
            In h (dc_fields info) /\ kept h = true
            /\ supported (DataTypeMap (fs_data_type h)) = false
            /\ e = INSERT_CHECK_WRONG_DATA_TYPE (fs_data_type h).
Proof.
  intros Hcheck Hrows Hne Hdescribe Hok Hnd Hg Hk Hbad.
  rewrite (insert_run data rows info [] Hcheck Hrows Hne Hdescribe Hok).
  destruct (encode_rows rows (resolve (dc_fields info))) as [fd'|e] eqn:Henc.
  - pose proof (encode_rows_skeleton _ _ _ Henc) as Hsk.
    rewrite (resolve_nodup _ Hnd) in Hsk.
    assert (Hvalues : forall t, In t (Map_values fd') ->
                                exists h, In h (filter kept (dc_fields info))
                                          /\ t_type t = fs_data_type h).
    { intros t Ht. unfold Map_values in Ht. apply in_map_iff in Ht.
      destruct Ht as ([k0 t0] & Heq & Hin0). simpl in Heq. subst t0.
      assert (Hin1 : In (k0, (t_name t, t_type t, t_dim t)) (skeleton fd')).
      { unfold skeleton. apply in_map_iff. exists (k0, t). auto. }
      rewrite Hsk in Hin1. unfold skeleton in Hin1. rewrite map_map in Hin1.
      apply in_map_iff in Hin1. destruct Hin1 as (h & Heq & Hh).
      simpl in Heq. inversion Heq; subst. exists h. auto. }
    assert (Hexists : exists t, In t (Map_values fd')
                                /\ supported (DataTypeMap (t_type t)) = false).
    { assert (Hin1 : In (fs_name g, (fs_name g, fs_data_type g,
                                     Number (findKeyValue (fs_type_params g) "dim")))
                        (skeleton fd')).
      { rewrite Hsk. unfold skeleton. rewrite map_map. apply in_map_iff.
        exists g. split; [reflexivity|]. apply filter_In. auto. }
      unfold skeleton in Hin1. apply in_map_iff in Hin1.
      destruct Hin1 as ([k0 t] & Heq & Hin0). simpl in Heq.
      inversion Heq as [[Hk0 Hn Ht Hd]].
      exists t. split; [apply (in_map snd) in Hin0; exact Hin0|].
      rewrite Ht. exact Hbad. }
    destruct (mapR_to_column_unsupported _ Hexists) as (t & Ht & Hs & Hrun).
    rewrite Hrun. simpl. split; [reflexivity|].
    eexists. split; [reflexivity|]. intros fd0 Heq0.
    destruct (Hvalues t Ht) as (h & Hh & Hty). apply filter_In in Hh.
    exists h. rewrite <- Hty. destruct Hh. auto.
  - simpl. split; [reflexivity|]. exists e. split; [reflexivity|].
    intros fd0 Heq0. discriminate.
Qed.

Lemma insert_unsupported_type_never_sent_witness :
  existsb is_Insert
          (fst (@insert reference_externals
                        (reference_server fields_with_string no_results)
                        (insert_of [[("age", jnum 30)]]) []))
  = false.
Proof.
  apply (proj1 (insert_unsupported_type_never_sent
                  reference_externals
                  (reference_server fields_with_string no_results)
                  (insert_of [[("age", jnum 30)]]) [[("age", jnum 30)]]
                  {| dc_status := success; dc_fields := fields_with_string |}
                  (field "note" "String" [])
                  eq_refl eq_refl ltac:(discriminate) eq_refl eq_refl
                  ltac:(repeat (constructor; [simpl; intuition discriminate|]);
                        constructor)
                  (or_intror (or_introl eq_refl)) eq_refl eq_refl)).
Defined.

(** * Further properties of the result decoder of [search] *)

Lemma firstn_add {A} (a b : nat) (l : list A) :
  firstn (a + b) l = (firstn a l ++ firstn b (skipn a l))%list.
Proof.
  revert l. induction a as [|a IH]; intros [|x l]; simpl; try reflexivity.
  - destruct b; reflexivity.
  - rewrite IH. reflexivity.
Qed.

Section SearchRows.
Context {ext : Externals}.

Lemma decode_scores_scores (rd : JsValue) (cols : list DecodedColumn)
      (ids : option (list JsValue)) (index : nat) (topk : Z) :
  (forall c, In c cols -> d_field_name c <> "score") ->
  forall (spliced : list JsNum) (k : nat) (res res' : list JsObject),
    forEach_from k
      (fun results score scoreIndex =>
         bindR (decode_score rd cols ids index topk score scoreIndex)
               (fun result => Ok (results ++ [result])%list))
      spliced res = Ok res' ->
    map score_of res'
    = (map score_of res ++ map (fun s => VNum (fixedScore rd s)) spliced)%list.
Proof.
  intros Hnames. induction spliced as [|s rest IH]; intros k res res' Hrun;
    simpl in Hrun.
  - inversion Hrun; subst. rewrite app_nil_r. reflexivity.
  - destruct (decode_score rd cols ids index topk s k) as [row|e] eqn:Hrow;
      simpl in Hrun; [|discriminate].
    rewrite (IH _ _ _ Hrun), map_app. simpl. unfold score_of at 2.
    rewrite (decode_score_score _ _ _ _ _ _ _ _ Hnames Hrow).
    rewrite <- app_assoc. reflexivity.
Qed.

Lemma decode_scores_rows (rd : JsValue) (cols : list DecodedColumn)
      (ids : option (list JsValue)) (index : nat) (topk : Z) :
  forall (spliced : list JsNum) (k : nat) (res res' : list JsObject),
    forEach_from k
      (fun results score scoreIndex =>
         bindR (decode_score rd cols ids index topk score scoreIndex)
               (fun result => Ok (results ++ [result])%list))
      spliced res = Ok res' ->
    exists rows,
      res' = (res ++ rows)%list
      /\ List.length rows = List.length spliced
      /\ forall i row,
          nth_error rows i = Some row ->
          exists s, nth_error spliced i = Some s
                    /\ decode_score rd cols ids index topk s (k + i) = Ok row.
Proof.
  induction spliced as [|s rest IH]; intros k res res' Hrun; simpl in Hrun.
  - inversion Hrun; subst. exists []. rewrite app_nil_r.
    split; [reflexivity|split; [reflexivity|]].
    intros [|i] row H; discriminate H.
  - destruct (decode_score rd cols ids index topk s k) as [row0|e] eqn:Hrow;
      simpl in Hrun; [|discriminate].
    destruct (IH _ _ _ Hrun) as (rows & Hres & Hlen & Hnth).
    exists (row0 :: rows). rewrite Hres, <- app_assoc. simpl.
    split; [reflexivity|split; [rewrite Hlen; reflexivity|]].
    intros [|i] row H; simpl in H.
    + inversion H; subst. exists s. rewrite Nat.add_0_r. auto.
    + destruct (Hnth i row H) as (s' & Hs' & Hd).
      exists s'. split; [exact Hs'|].
      replace (k + S i)%nat with (S k + i)%nat by lia. exact Hd.
Qed.

(** The loop over [topks] only ever appends rows. *)
Lemma decode_queries_append (rd : JsValue) (cols : list DecodedColumn)
      (ids : option (list JsValue)) :
  forall (topks : list Z) (j : nat) (st st' : list JsNum * list JsObject),
    forEach_from j (decode_query rd cols ids) topks st = Ok st' ->
    exists more, snd st' = (snd st ++ more)%list.
Proof.
  induction topks as [|v rest IH]; intros j st st' Hrun; simpl in Hrun.
  - inversion Hrun; subst. exists []. rewrite app_nil_r. reflexivity.
  - destruct (decode_query rd cols ids st v j) as [st1|e] eqn:Hq;
      simpl in Hrun; [|discriminate].
    unfold decode_query, forEach in Hq.
    destruct (forEach_from 0 _ (firstn (Z.to_nat v) (fst st)) (snd st))
      as [res1|e] eqn:Hrows; simpl in Hq; [|discriminate].
    inversion Hq; subst st1. clear Hq.
    destruct (decode_scores_rows _ _ _ _ _ _ _ _ _ Hrows) as (rows & -> & _).
    destruct (IH _ _ _ Hrun) as (more & Hmore). simpl in Hmore.
    exists (rows ++ more)%list. rewrite Hmore, <- app_assoc. reflexivity.
Qed.

Lemma decode_queries_scores (rd : JsValue) (cols : list DecodedColumn)
      (ids : option (list JsValue)) :
  (forall c, In c cols -> d_field_name c <> "score") ->
  forall (topks : list Z) (j : nat) (st st' : list JsNum * list JsObject),
    forEach_from j (decode_query rd cols ids) topks st = Ok st' ->
    map score_of (snd st')
    = (map score_of (snd st)
         ++ map (fun s => VNum (fixedScore rd s))
                (firstn (fold_right (fun v acc => Z.to_nat v + acc)%nat 0%nat topks)
                        (fst st)))%list.
Proof.
  intros Hnames.
  induction topks as [|v rest IH]; intros j st st' Hrun; simpl in Hrun.
  - inversion Hrun; subst. simpl. rewrite app_nil_r. reflexivity.
  - destruct (decode_query rd cols ids st v j) as [st1|e] eqn:Hq;
      simpl in Hrun; [|discriminate].
    unfold decode_query, forEach in Hq.
    destruct (forEach_from 0 _ (firstn (Z.to_nat v) (fst st)) (snd st))
      as [res1|e] eqn:Hrows; simpl in Hq; [|discriminate].
    inversion Hq; subst st1. clear Hq.
    rewrite (IH _ _ _ Hrun). simpl.
    rewrite (decode_scores_scores _ _ _ _ _ Hnames _ _ _ _ Hrows).
    rewrite firstn_add, map_app, <- app_assoc. reflexivity.
Qed.

Lemma project_fields_keep (i : Z) (k : string) :
  forall (cols : list DecodedColumn) (j : nat) (result row : JsObject),
    (forall c, In c cols -> d_field_name c <> k) ->
    forEach_from j (project_field i) cols result = Ok row ->
    obj_get row k = obj_get result k.
Proof.
  intros cols j result row Hnames Hrun.
  refine (forEach_from_inv (fun r => obj_get r k = obj_get result k)
                           _ _ _ _ _ _ _ Hrun); [|reflexivity].
  intros s x n s' Hin Hs Hstep.
  rewrite (project_field_keeps _ _ _ _ _ _ (Hnames x Hin) Hstep). exact Hs.
Qed.

Lemma project_fields_field (i : Z) (col : DecodedColumn) :
  forall (cols : list DecodedColumn) (j : nat) (result row : JsObject),
    NoDup (map d_field_name cols) ->
    In col cols ->
    forEach_from j (project_field i) cols result = Ok row ->
    project_field i [] col 0
    = Ok [(d_field_name col, obj_get row (d_field_name col))].
Proof.
  induction cols as [|c0 rest IH]; intros j result row Hnd Hin Hrun;
    [contradiction|].
  simpl in Hrun. simpl in Hnd.
  inversion Hnd as [|n0 ns Hnotin Hnd']; subst.
  destruct (project_field i result c0 j) as [r1|e] eqn:Hstep; simpl in Hrun;
    [|discriminate].
  destruct Hin as [->|Hin].
  - assert (Hkeep : obj_get row (d_field_name col) = obj_get r1 (d_field_name col)).
    { apply (project_fields_keep i _ rest (S j) r1 row); [|exact Hrun].
      intros c Hc Heq. apply Hnotin. rewrite <- Heq. apply in_map. exact Hc. }
    rewrite Hkeep. clear Hkeep Hrun IH.
    unfold project_field in *.
    destruct (String.eqb (d_type col) "JSON").
    + destruct (arr_get (d_data col) i); try discriminate;
        (destruct (JSON_parse _) as [v|e]; simpl in *; [|discriminate];
         inversion Hstep; subst; rewrite obj_get_set_same; reflexivity).
    + inversion Hstep; subst. rewrite obj_get_set_same. reflexivity.
  - exact (IH _ _ _ Hnd' Hin Hrun).
Qed.
End SearchRows.

(** X8: the scores of the result rows are, in order, the first scores of
    the reply, as many as [topks] counts in total (or all of them when the
    reply has fewer), each formatted by [round_decimal]; no column may be
    named [score]. *)
Theorem search_scores_in_order (ext : Externals) (rd : JsValue)
        (promise : SearchRes) (r : SearchResultData) (rows : list JsObject) :
  sr_results promise = Some r ->
  (forall item, In item (res_fields_data r) -> r_field_name item <> "score") ->
  decode_results rd promise = Ok rows ->
  map score_of rows
  = map (fun s => VNum (fixedScore rd s))
        (firstn (total_topk (res_topks r)) (res_scores r))
  /\ List.length rows
     = Nat.min (total_topk (res_topks r)) (List.length (res_scores r)).
Proof.
  intros Hr Hnames Hrun. unfold decode_results in Hrun. rewrite Hr in Hrun.
  unfold forEach in Hrun.
  destruct (forEach_from 0 _ (res_topks r) (res_scores r, [])) as [st|e] eqn:Hloop;
    simpl in Hrun; [|discriminate].
  inversion Hrun; subst rows. clear Hrun.
  assert (Hscores : map score_of (snd st)
                    = map (fun s => VNum (fixedScore rd s))
                          (firstn (total_topk (res_topks r)) (res_scores r))).
  { refine (decode_queries_scores rd _ _ _ _ _ _ _ Hloop).
    intros c Hc. apply in_map_iff in Hc. destruct Hc as (item & <- & Hitem).
    simpl. exact (Hnames item Hitem). }
  split; [exact Hscores|].
  apply (f_equal (@List.length JsValue)) in Hscores.
  rewrite !length_map, length_firstn in Hscores. exact Hscores.
Qed.

Lemma search_scores_in_order_witness :
  map score_of two_and_three_rows = map jnum [90; 80; 70; 60; 50]%Z.
Proof.
  exact (proj1 (search_scores_in_order
                  reference_externals VUndefined two_and_three
                  two_and_three_data two_and_three_rows eq_refl
                  ltac:(intros item [<-|[]]; simpl; discriminate)
                  eq_refl)).
Defined.

(** X9: the rows of the first query of a reply are the first rows of the
    result, and row [i] of them reads position [i]: it reports [ids[i]]
    under [id] when no column has that name, and, when the column names are
    distinct, the [i]-th element of every column under the column's name,
    parsed as JSON for a column of type JSON. *)
Theorem search_first_query_reads_in_place (ext : Externals) (rd : JsValue)
        (promise : SearchRes) (r : SearchResultData) (k : Z) (rest : list Z)
        (rows : list JsObject) (i : nat) :
  sr_results promise = Some r ->
  res_topks r = k :: rest ->
  decode_results rd promise = Ok rows ->
  (i < Nat.min (Z.to_nat k) (List.length (res_scores r)))%nat ->
  exists row,
    nth_error rows i = Some row
    /\ ((forall item, In item (res_fields_data r) -> r_field_name item <> "id") ->
        obj_get row "id" = id_at (res_ids r) (Z.of_nat i))
    /\ (NoDup (map r_field_name (res_fields_data r)) ->
        forall item,
          In item (res_fields_data r) ->
          let x := arr_get (d_data (decode_column item)) (Z.of_nat i) in
          if String.eqb (r_type item) "JSON"
          then JSON_parse x = Ok (obj_get row (r_field_name item))
          else obj_get row (r_field_name item) = x).
Proof.
  intros Hr Htopks Hrun Hi. unfold decode_results in Hrun.
  rewrite Hr, Htopks in Hrun. unfold forEach in Hrun. simpl in Hrun.
  set (cols := map decode_column (res_fields_data r)) in *.
  destruct (decode_query rd cols (res_ids r) (res_scores r, []) k 0)
    as [st1|e] eqn:Hq; simpl in Hrun; [|discriminate].
  destruct (forEach_from 1 _ rest st1) as [st|e] eqn:Hloop; simpl in Hrun;
    [|discriminate].
  inversion Hrun; subst rows. clear Hrun.
  unfold decode_query, forEach in Hq. simpl fst in Hq. simpl snd in Hq.
  destruct (forEach_from 0 _ (firstn (Z.to_nat k) (res_scores r)) [])
    as [res1|e] eqn:Hrows; simpl in Hq; [|discriminate].
  inversion Hq; subst st1. clear Hq.
  destruct (decode_scores_rows _ _ _ _ _ _ _ _ _ Hrows)
    as (rows0 & Hres1 & Hlen & Hnth).
  simpl in Hres1. subst res1.
  destruct (decode_queries_append _ _ _ _ _ _ _ Hloop) as (more & Hmore).
  simpl in Hmore. rewrite length_firstn in Hlen.
  destruct (nth_error rows0 i) as [row|] eqn:Hrow;
    [|apply nth_error_None in Hrow; lia].
  exists row. split.
  { rewrite Hmore, nth_error_app1 by lia. exact Hrow. }
  destruct (Hnth i row Hrow) as (s & _ & Hdecode).
  unfold decode_score, forEach in Hdecode. simpl in Hdecode.
  split.
  - intros Hnames.
    assert (Hn : forall c, In c cols -> d_field_name c <> "id").
    { intros c Hc. apply in_map_iff in Hc. destruct Hc as (item & <- & Hitem).
      simpl. exact (Hnames item Hitem). }
    rewrite (project_fields_keep _ "id" cols 0%nat _ row Hn Hdecode).
    reflexivity.
  - intros Hnd item Hitem x.
    assert (Hcol : In (decode_column item) cols) by (apply in_map; exact Hitem).
    assert (Hnd' : NoDup (map d_field_name cols)).
    { unfold cols. rewrite map_map. exact Hnd. }
    change (absolute_index 0 i k) with (Z.of_nat i) in Hdecode.
    pose proof (project_fields_field _ _ cols 0%nat _ row Hnd' Hcol Hdecode) as Hp.
    unfold project_field in Hp. simpl in Hp. subst x. simpl.
    destruct (String.eqb (r_type item) "JSON").
    + destruct (arr_get _ _); try discriminate;
        (destruct (JSON_parse _) as [v|e]; simpl in Hp; [|discriminate];
         inversion Hp; reflexivity).
    + congruence.
Qed.

Lemma search_first_query_reads_in_place_witness :
  exists row,
    nth_error two_and_three_rows 1 = Some row
    /\ obj_get row "id" = jnum 11
    /\ obj_get row "age" = jnum 21.
Proof.
  destruct (search_first_query_reads_in_place
              reference_externals VUndefined two_and_three two_and_three_data
              2%Z [3%Z] two_and_three_rows 1%nat
              eq_refl eq_refl eq_refl ltac:(simpl; lia))
    as (row & Hnth & Hid & Hcols).
  exists row. split; [exact Hnth|]. split.
  - apply Hid. intros item [<-|[]]. simpl. discriminate.
  - apply (Hcols ltac:(repeat constructor; simpl; intuition)
                 {| r_type := "Int64"; r_field_name := "age";
                    r_column := Some (map jnum [20; 21; 22; 23; 24]%Z) |}).
    left; reflexivity.
Defined.

(** * Properties of [query] *)

Lemma cell_set_field_same (results : list (option JsObject)) (i : nat)
      (name : string) (d : JsValue) :
  cell (set_field results i name d) i name = Some d.
Proof.
  unfold cell. revert results. induction i as [|i IH]; intros [|[row|] rest];
    simpl; try apply IH.
  - rewrite String.eqb_refl. reflexivity.
  - rewrite obj_get_set_same. reflexivity.
  - rewrite String.eqb_refl. reflexivity.
Qed.

Lemma cell_nil (i : nat) (name : string) : cell [] i name = None.
Proof. unfold cell. destruct i; reflexivity. Qed.

Lemma cell_set_field_other (results : list (option JsObject)) (i i' : nat)
      (name name' : string) (d d' : JsValue) :
  cell results i name = Some d ->
  i <> i' \/ name <> name' ->
  cell (set_field results i' name' d') i name = Some d.
Proof.
  revert results i.
  induction i' as [|i' IH]; intros results i Hcell Hne.
  - destruct results as [|[row|] rest].
    + rewrite cell_nil in Hcell. discriminate.
    + destruct i as [|i]; [|exact Hcell].
      unfold cell in *. simpl in *.
      destruct Hne as [Hne|Hne]; [contradiction|].
      rewrite obj_get_set_other by exact Hne. exact Hcell.
    + destruct i as [|i]; [discriminate Hcell|exact Hcell].
  - destruct results as [|x rest].
    + rewrite cell_nil in Hcell. discriminate.
    + destruct i as [|i].
      * destruct x; exact Hcell.
      * assert (Hrest : cell (set_field rest i' name' d') i name = Some d).
        { apply IH; [exact Hcell|].
          destruct Hne as [Hne|Hne]; [left; lia|right; exact Hne]. }
        destruct x; exact Hrest.
Qed.

Lemma length_set_field (results : list (option JsObject)) (i : nat)
      (name : string) (d : JsValue) :
  List.length (set_field results i name d)
  = Nat.max (List.length results) (S i).
Proof.
  revert results. induction i as [|i IH]; intros [|[row|] rest]; simpl;
    try rewrite IH; simpl; lia.
Qed.

Lemma transpose_column_keeps (name name0 : string) (i : nat) (d : JsValue) :
  forall (column : list (option JsValue)) (j : nat)
         (results : list (option JsObject)),
    cell results i name0 = Some d ->
    name0 <> name \/ (i < j)%nat ->
    cell (transpose_column name j column results) i name0 = Some d.
Proof.
  induction column as [|[x|] rest IH]; intros j results Hcell Hne; simpl.
  - exact Hcell.
  - apply IH.
    + apply cell_set_field_other; [exact Hcell|].
      destruct Hne as [Hne|Hlt]; [right; exact Hne|left; lia].
    + destruct Hne as [Hne|Hlt]; [left; exact Hne|right; lia].
  - apply IH; [exact Hcell|].
    destruct Hne as [Hne|Hlt]; [left; exact Hne|right; lia].
Qed.

Lemma transpose_column_sets (name : string) :
  forall (column : list (option JsValue)) (j : nat)
         (results : list (option JsObject)) (i : nat) (d : JsValue),
    nth_error column i = Some (Some d) ->
    cell (transpose_column name j column results) (j + i) name = Some d.
Proof.
  induction column as [|[x|] rest IH]; intros j results i d Hnth.
  - destruct i; discriminate Hnth.
  - destruct i as [|i]; simpl in Hnth; simpl.
    + inversion Hnth; subst. rewrite Nat.add_0_r.
      apply transpose_column_keeps; [apply cell_set_field_same|right; lia].
    + replace (j + S i)%nat with (S j + i)%nat by lia. apply IH. exact Hnth.
  - destruct i as [|i]; simpl in Hnth; [discriminate|]. simpl.
    replace (j + S i)%nat with (S j + i)%nat by lia. apply IH. exact Hnth.
Qed.

Lemma transpose_keeps (name0 : string) (i : nat) (d : JsValue) :
  forall (cols : list (string * list (option JsValue)))
         (results : list (option JsObject)),
    cell results i name0 = Some d ->
    ~ In name0 (map fst cols) ->
    cell (fold_left (fun res v => transpose_column (fst v) 0 (snd v) res)
                    cols results) i name0 = Some d.
Proof.
  induction cols as [|[n0 c0] rest IH]; intros results Hcell Hnotin; simpl.
  - exact Hcell.
  - apply IH.
    + apply transpose_column_keeps; [exact Hcell|].
      left. intros Heq. apply Hnotin. left. symmetry. exact Heq.
    + intros Hin. apply Hnotin. right. exact Hin.
Qed.

Lemma transpose_cell (cols : list (string * list (option JsValue)))
      (name : string) (column : list (option JsValue)) (i : nat) (d : JsValue) :
  NoDup (map fst cols) ->
  In (name, column) cols ->
  nth_error column i = Some (Some d) ->
  cell (transpose cols) i name = Some d.
Proof.
  unfold transpose. generalize (@nil (option JsObject)) as results.
  induction cols as [|[n0 c0] rest IH]; intros results Hnd Hin Hnth;
    [contradiction|].
  simpl. inversion Hnd as [|n0' ns Hnotin Hnd']; subst.
  destruct Hin as [Heq|Hin].
  - inversion Heq; subst. apply transpose_keeps; [|exact Hnotin].
    exact (transpose_column_sets name column 0%nat results i d Hnth).
  - apply IH; assumption.
Qed.

Lemma length_transpose_column (name : string) :
  forall (values : list JsValue) (j : nat) (results : list (option JsObject)),
    List.length (transpose_column name j (map Some values) results)
    = match values with
      | [] => List.length results
      | _ => Nat.max (List.length results) (j + List.length values)
      end.
Proof.
  induction values as [|x rest IH]; intros j results; simpl; [reflexivity|].
  rewrite IH, length_set_field. destruct rest; simpl; lia.
Qed.

Lemma mapR_success {A B} (f : A -> Result B) (g : A -> B) :
  forall l : list A,
    (forall x, In x l -> f x = Ok (g x)) -> mapR f l = Ok (map g l).
Proof.
  induction l as [|x rest IH]; intros H; simpl; [reflexivity|].
  rewrite (H x (or_introl eq_refl)). simpl.
  rewrite IH; [reflexivity|]. intros y Hy. apply H. right; exact Hy.
Qed.

Section QueryRows.
Context {ext : Externals} {qext : QueryExternals} {dsrv : DataServer}.

Lemma query_run (data : QueryReq) (promise : QueryRes) :
  checkCollectionName (q_collection_name data) = None ->
  query_reply data (parseObjectToKeyValue (query_params_object data))
  = Ok promise ->
  query data []
  = ([Query data (parseObjectToKeyValue (query_params_object data))
            (or_timeout (q_timeout data) client_timeout)],
     match mapR decode_query_column (qr_fields_data promise) with
     | Ok fieldsData =>
         Ok {| q_status := qr_status promise; q_data := transpose fieldsData |}
     | Throw e => Throw e
     end).
Proof.
  intros Hcheck Hreply. unfold query, rpc_bind, rpc_call, rpc_ret, rpc_throw.
  rewrite Hcheck. simpl. rewrite Hreply.
  destruct (mapR decode_query_column (qr_fields_data promise)); reflexivity.
Qed.

Lemma decode_query_column_name (item : QueryColumn)
      (v : string * list (option JsValue)) :
  decode_query_column item = Ok v -> fst v = qc_field_name item.
Proof.
  unfold decode_query_column. destruct (qc_data item) as [vectors|key vs].
  - intros H; inversion H; reflexivity.
  - destruct (String.eqb key "json_data").
    + destruct (mapR parse_buffer vs); simpl; [|discriminate].
      intros H; inversion H; reflexivity.
    + intros H; inversion H; reflexivity.
Qed.

Lemma mapR_decode_names :
  forall (items : list QueryColumn) (cols : list (string * list (option JsValue))),
    mapR decode_query_column items = Ok cols ->
    map fst cols = map qc_field_name items.
Proof.
  induction items as [|item rest IH]; intros cols Hrun; simpl in Hrun.
  - inversion Hrun; reflexivity.
  - destruct (decode_query_column item) as [v|e] eqn:Hv; simpl in Hrun;
      [|discriminate].
    destruct (mapR decode_query_column rest) as [vs|e] eqn:Hrest;
      simpl in Hrun; [|discriminate].
    inversion Hrun; subst. simpl.
    rewrite (decode_query_column_name _ _ Hv), (IH vs eq_refl). reflexivity.
Qed.
End QueryRows.

(** X10: [query] sends one [Query] call and turns the columns of the reply
    into rows: when the column names are distinct, row [i] of the result
    holds, under each column's name, the [i]-th element of that column as
    decoded; for a scalar column other than JSON that is the [i]-th wire
    value. *)
Theorem query_transposes_columns (ext : Externals) (qext : QueryExternals)
        (dsrv : DataServer) (data : QueryReq) (promise : QueryRes)
        (res : QueryResults) :
  checkCollectionName (q_collection_name data) = None ->
  query_reply data (parseObjectToKeyValue (query_params_object data))
  = Ok promise ->
  NoDup (map qc_field_name (qr_fields_data promise)) ->
  snd (query data []) = Ok res ->
  fst (query data [])
  = [Query data (parseObjectToKeyValue (query_params_object data))
           (or_timeout (q_timeout data) client_timeout)]
  /\ q_status res = qr_status promise
  /\ (forall item column i d,
         In item (qr_fields_data promise) ->
         decode_query_column item = Ok (qc_field_name item, column) ->
         nth_error column i = Some (Some d) ->
         cell (q_data res) i (qc_field_name item) = Some d)
  /\ (forall item key values i d,
         In item (qr_fields_data promise) ->
         qc_data item = column_scalars key values ->
         String.eqb key "json_data" = false ->
         nth_error values i = Some d ->
         cell (q_data res) i (qc_field_name item) = Some d).
Proof.
  intros Hcheck Hreply Hnd Hres.
  rewrite (query_run data promise Hcheck Hreply) in *. simpl in Hres.
  destruct (mapR decode_query_column (qr_fields_data promise))
    as [cols|e] eqn:Hcols; [|discriminate].
  inversion Hres; subst res. clear Hres. simpl.
  assert (Hgeneral : forall item column i d,
             In item (qr_fields_data promise) ->
             decode_query_column item = Ok (qc_field_name item, column) ->
             nth_error column i = Some (Some d) ->
             cell (transpose cols) i (qc_field_name item) = Some d).
  { intros item column i d Hitem Hdec Hnth.
    apply (transpose_cell cols (qc_field_name item) column i d).
    - rewrite (mapR_decode_names _ _ Hcols). exact Hnd.
    - destruct (mapR_In decode_query_column _ _ _ Hcols Hitem) as (v & Hv & Hdv).
      rewrite Hdec in Hdv. inversion Hdv; subst. exact Hv.
    - exact Hnth. }
  repeat split; [exact Hgeneral|].
  intros item key values i d Hitem Hdata Hkey Hnth.
  apply (Hgeneral item (map Some values) i d Hitem).
  - unfold decode_query_column. rewrite Hdata, Hkey. reflexivity.
  - rewrite nth_error_map, Hnth. reflexivity.
Qed.

Lemma query_transposes_columns_witness :
  cell [Some [("age", jnum 30); ("v", VArr [jnum 1; jnum 2])];
        Some [("age", jnum 40); ("v", VArr [jnum 3; jnum 4])]]
       1 "age"
  = Some (jnum 40).
Proof.
  destruct (query_transposes_columns
              reference_externals reference_query_externals
              (reference_data_server two_entities 0)
              (query_of "age > 0") two_entities
              {| q_status := success;
                 q_data :=
                   [Some [("age", jnum 30); ("v", VArr [jnum 1; jnum 2])];
                    Some [("age", jnum 40); ("v", VArr [jnum 3; jnum 4])]] |}
              eq_refl eq_refl
              ltac:(repeat (constructor; [simpl; intuition discriminate|]);
                    constructor)
              eq_refl) as (_ & _ & _ & Hscalar).
  apply (Hscalar {| qc_field_name := "age";
                    qc_data := column_scalars "long_data" [jnum 30; jnum 40] |}
                 "long_data" [jnum 30; jnum 40] 1%nat (jnum 40)).
  - left; reflexivity.
  - reflexivity.
  - reflexivity.
  - reflexivity.
Defined.

Lemma mapR_length {A B} (f : A -> Result B) :
  forall (l : list A) (ys : list B),
    mapR f l = Ok ys -> List.length ys = List.length l.
Proof.
  induction l as [|x rest IH]; intros ys Hrun; simpl in Hrun.
  - inversion Hrun; reflexivity.
  - destruct (f x); simpl in Hrun; [|discriminate].
    destruct (mapR f rest) as [bs|e] eqn:Hrest; simpl in Hrun; [|discriminate].
    inversion Hrun; subst. simpl. rewrite (IH bs eq_refl). reflexivity.
Qed.

Lemma length_transpose_dense (name : string) (values : list JsValue)
      (results : list (option JsObject)) :
  List.length (transpose_column name 0 (map Some values) results)
  = Nat.max (List.length results) (List.length values).
Proof.
  rewrite length_transpose_column. destruct values; simpl; lia.
Qed.

Section QueryCount.
Context {ext : Externals}.

Lemma decode_scalars_dense (item : QueryColumn)
      (v : string * list (option JsValue)) :
  is_scalars item = true ->
  decode_query_column item = Ok v ->
  exists values,
    snd v = map Some values /\ List.length values = scalar_length item.
Proof.
  unfold is_scalars, scalar_length, decode_query_column.
  destruct (qc_data item) as [vectors|key vs]; [discriminate|]. intros _.
  destruct (String.eqb key "json_data").
  - destruct (mapR parse_buffer vs) as [parsed|e] eqn:Hp; simpl; [|discriminate].
    intros H; inversion H; subst. exists parsed.
    split; [reflexivity|exact (mapR_length _ _ _ Hp)].
  - intros H; inversion H; subst. exists vs. auto.
Qed.

Lemma length_transpose_scalars :
  forall (items : list QueryColumn)
         (cols : list (string * list (option JsValue)))
         (results : list (option JsObject)),
    forallb is_scalars items = true ->
    mapR decode_query_column items = Ok cols ->
    List.length
      (fold_left (fun res v => transpose_column (fst v) 0 (snd v) res)
                 cols results)
    = Nat.max (List.length results) (list_max (map scalar_length items)).
Proof.
  induction items as [|item rest IH]; intros cols results Hall Hrun;
    simpl in Hrun.
  - inversion Hrun; subst. simpl. lia.
  - simpl in Hall. apply andb_true_iff in Hall. destruct Hall as [Hitem Hrest].
    destruct (decode_query_column item) as [v|e] eqn:Hv; simpl in Hrun;
      [|discriminate].
    destruct (mapR decode_query_column rest) as [vs|e] eqn:Hvs;
      simpl in Hrun; [|discriminate].
    inversion Hrun; subst cols. simpl.
    destruct (decode_scalars_dense item v Hitem Hv) as (values & Hsnd & Hlen).
    rewrite (IH vs _ Hrest eq_refl), Hsnd, length_transpose_dense, Hlen. lia.
Qed.
End QueryCount.

(** X11: for a reply whose columns are all scalar, [query] returns as many
    rows as the longest column has values. *)
Theorem query_row_count (ext : Externals) (qext : QueryExternals)
        (dsrv : DataServer) (data : QueryReq) (promise : QueryRes)
        (res : QueryResults) :
  checkCollectionName (q_collection_name data) = None ->
  query_reply data (parseObjectToKeyValue (query_params_object data))
  = Ok promise ->
  forallb is_scalars (qr_fields_data promise) = true ->
  snd (query data []) = Ok res ->
  List.length (q_data res)
  = list_max (map scalar_length (qr_fields_data promise)).
Proof.
  intros Hcheck Hreply Hall Hres.
  rewrite (query_run data promise Hcheck Hreply) in Hres. simpl in Hres.
  destruct (mapR decode_query_column (qr_fields_data promise))
    as [cols|e] eqn:Hcols; [|discriminate].
  inversion Hres; subst res. simpl. unfold transpose.
  rewrite (length_transpose_scalars _ _ [] Hall Hcols). reflexivity.
Qed.

Lemma query_row_count_witness :
  List.length [Some [("age", jnum 30)]; Some [("age", jnum 40)]] = 2%nat.
Proof.
  exact (query_row_count
           reference_externals reference_query_externals
           (reference_data_server
              {| qr_status := success;
                 qr_fields_data :=
                   [{| qc_field_name := "age";
                       qc_data := column_scalars "long_data" [jnum 30; jnum 40] |}] |}
              0)
           (query_of "age > 0") _
           {| q_status := success;
              q_data := [Some [("age", jnum 30)]; Some [("age", jnum 40)]] |}
           eq_refl eq_refl eq_refl eq_refl).
Defined.

Lemma unflatten_no_index (dim : JsNum) :
  (forall i, row_index i dim = None) ->
  forall (l : list JsNum) (j : nat) (data : list (option (list JsNum))),
    unflatten_from j dim l data = data.
Proof.
  intros Hnone. induction l as [|v rest IH]; intros j data; simpl;
    [reflexivity|].
  rewrite Hnone. apply IH.
Qed.

(** X12: a vector column whose dimension reads as [NaN] or as 0 decodes to
    no rows at all, whatever its data: every element is filed under a
    property that is no index of the array. *)
Theorem query_vector_without_dimension (ext : Externals) (name : string)
        (vectors : VectorField) :
  Number (Some (vf_dim vectors)) = NaN
  \/ Number (Some (vf_dim vectors)) = num_of_Z 0 ->
  decode_vector_column vectors = []
  /\ decode_query_column
       {| qc_field_name := name; qc_data := column_vectors vectors |}
     = Ok (name, []).
Proof.
  intros Hdim.
  assert (Hempty : decode_vector_column vectors = []).
  { unfold decode_vector_column. apply unflatten_no_index. intros i.
    unfold query_dim.
    destruct (vf_data vectors); destruct Hdim as [-> | ->]; reflexivity. }
  split; [exact Hempty|].
  unfold decode_query_column. simpl. rewrite Hempty. reflexivity.
Qed.

Lemma query_vector_without_dimension_witness :
  decode_vector_column
    {| vf_dim := "0"; vf_data := float_vector (map num_of_Z [1; 2; 3]%Z) |}
  = []
  /\ decode_vector_column
       {| vf_dim := "x"; vf_data := float_vector (map num_of_Z [1; 2; 3]%Z) |}
     = [].
Proof.
  split.
  - exact (proj1 (query_vector_without_dimension
                    reference_externals "v"
                    {| vf_dim := "0";
                       vf_data := float_vector (map num_of_Z [1; 2; 3]%Z) |}
                    (or_intror eq_refl))).
  - exact (proj1 (query_vector_without_dimension
                    reference_externals "v"
                    {| vf_dim := "x";
                       vf_data := float_vector (map num_of_Z [1; 2; 3]%Z) |}
                    (or_introl eq_refl))).
Defined.

Lemma chunks_fuel_concat_rows (d : nat) :
  (0 < d)%nat ->
  forall (vecs : list (list JsNum)) (fuel : nat),
    Forall (fun v => List.length v = d) vecs ->
    (List.length (List.concat vecs) <= fuel)%nat ->
    chunks_fuel fuel d (List.concat vecs) = vecs.
Proof.
  intros Hd. induction vecs as [|v rest IH]; intros fuel Hall Hfuel.
  - simpl. apply chunks_fuel_nil.
  - inversion Hall as [|v' rest' Hv Hrest]; subst.
    simpl in Hfuel. rewrite length_app in Hfuel.
    destruct fuel as [|fuel]; [lia|].
    simpl List.concat.
    destruct (v ++ List.concat rest)%list as [|x l] eqn:El.
    + apply (f_equal (@List.length JsNum)) in El. rewrite length_app in El.
      simpl in El. lia.
    + rewrite <- El. 
      replace (chunks_fuel (S fuel) (List.length v) (v ++ List.concat rest))
        with (firstn (List.length v) (v ++ List.concat rest)
                :: chunks_fuel fuel (List.length v)
                     (skipn (List.length v) (v ++ List.concat rest)))
        by (rewrite El; reflexivity).
      rewrite firstn_app, Nat.sub_diag, firstn_all, firstn_O, app_nil_r.
      rewrite skipn_app, Nat.sub_diag, skipn_all. simpl skipn.
      rewrite IH; [reflexivity|exact Hrest|lia].
Qed.

Lemma vector_rows_elements (ext : Externals) (name : string)
      (vecs : list (list JsNum)) :
  flat_map (row_elements name) (vector_rows name vecs)
  = map VNum (List.concat vecs).
Proof.
  unfold vector_rows.
  induction vecs as [|v rest IH]; simpl; [reflexivity|].
  rewrite IH, map_app. f_equal.
  unfold row_elements, has_key. simpl. rewrite String.eqb_refl. reflexivity.
Qed.

Lemma vector_rows_keys (name : string) (vecs : list (list JsNum)) :
  Forall (fun row => NoDup (Object_keys row)) (vector_rows name vecs).
Proof.
  unfold vector_rows. apply Forall_forall. intros row Hin.
  apply in_map_iff in Hin. destruct Hin as (v & <- & _). simpl.
  constructor; [intros []|constructor].
Qed.

(** X13: round trip of float vectors.  For rows that hold one vector each
    under a float-vector field, all of the length [d] of the field's
    dimension, the request [insert] sends carries the field's column with
    the dimension [d] and the concatenation of the vectors as its flat
    buffer, and the vector decoder of [query], given that buffer under the
    same dimension, returns the very same vectors, row by row. *)
Theorem float_vector_round_trip (ext : Externals) (srv : Server)
        (data : InsertReq) (info : DescribeCollectionResponse)
        (params : InsertParams) (timeout : option Z) (f : FieldSchema)
        (dim : string) (vecs : list (list JsNum)) (d : nat) :
  checkCollectionName (ins_collection_name data) = None ->
  ins_fields_data data = Some (vector_rows (fs_name f) vecs) ->
  describe_reply (ins_collection_name data) = Ok info ->
  is_success (dc_status info) = true ->
  NoDup (map fs_name (filter kept (dc_fields info))) ->
  In (Insert params timeout) (fst (insert data [])) ->
  In f (dc_fields info) ->
  kept f = true ->
  DataTypeMap (fs_data_type f) = Some DataType.FloatVector ->
  findKeyValue (fs_type_params f) "dim" = Some dim ->
  Number (Some dim) = num_of_nat d ->
  (0 < d)%nat ->
  Forall (fun v => List.length v = d) vecs ->
  (exists col,
      In col (ip_fields_data params)
      /\ col_field_name col = fs_name f
      /\ col_payload col
         = vectors_float (num_of_nat d) (map VNum (List.concat vecs)))
  /\ decode_vector_column
       {| vf_dim := dim; vf_data := float_vector (List.concat vecs) |}
     = map Some vecs.
Proof.
  intros Hcheck Hrows Hdescribe Hok Hnd Hin Hf Hk Hty Hkey Hdim Hd Hall.
  split.
  - destruct (insert_sent data _ info params timeout
                          Hcheck Hrows Hdescribe Hok Hin)
      as (fd' & Henc & Hcols & _).
    pose proof (resolve_lookup_nodup _ f Hnd Hf Hk) as Hget.
    destruct (encode_rows_target _ _ _ _ _ Henc Hget)
      as (t' & Hget' & Hname & Htype & Htdim).
    assert (Hvec : is_vector_type
                     (DataTypeMap (t_type (snd (resolve_field f)))) = true).
    { simpl. unfold is_vector_type. rewrite Hty. reflexivity. }
    destruct (encode_rows_vector (fs_name f) _ 0%nat _ _ _
                                 (vector_rows_keys (fs_name f) vecs)
                                 Henc Hget Hvec)
      as (t'' & Hget'' & Hvalue).
    rewrite Hget' in Hget''. inversion Hget''; subst t''. clear Hget''.
    assert (Hin' : In t' (Map_values fd')).
    { apply Map_get_In in Hget'. apply (in_map snd) in Hget'. exact Hget'. }
    destruct (mapR_In to_column _ _ _ Hcols Hin') as (col & Hcol & Hto).
    destruct (to_column_ok _ _ Hto) as (Hcname & Hcty & _ & Hfloat & _).
    rewrite Htype in Hcty. simpl in Hcty. rewrite Hty in Hcty.
    inversion Hcty as [Hct].
    exists col. split; [exact Hcol|]. split; [rewrite Hcname, Hname; reflexivity|].
    rewrite (Hfloat (eq_sym Hct)), Htdim, Hvalue. simpl.
    rewrite Hkey, Hdim, (vector_rows_elements ext). reflexivity.
  - unfold decode_vector_column, query_dim, vectorValue.
    cbn [vf_data vf_dim]. rewrite Hdim. unfold num_of_nat, num_of_Z.
    rewrite (unflatten_chunks d _ Hd); [|reflexivity].
    unfold chunks. rewrite (chunks_fuel_concat_rows d Hd vecs _ Hall (le_n _)).
    reflexivity.
Qed.

Lemma float_vector_round_trip_witness :
  (exists col,
      In col (ip_fields_data two_vectors_params)
      /\ col_field_name col = "v"
      /\ col_payload col
         = vectors_float (num_of_nat 2) (map VNum (List.concat two_vectors)))
  /\ decode_vector_column
       {| vf_dim := "2"; vf_data := float_vector (List.concat two_vectors) |}
     = map Some two_vectors.
Proof.
  apply (float_vector_round_trip
           reference_externals (reference_server people_fields no_results)
           (insert_of (vector_rows "v" two_vectors)) people_info
           two_vectors_params None (field "v" "FloatVector" [("dim", "2")])
           "2" two_vectors 2%nat).
  - reflexivity.
  - reflexivity.
  - reflexivity.
  - reflexivity.
  - repeat (constructor; [simpl; intuition discriminate|]). constructor.
  - right; left; reflexivity.
  - right; right; left; reflexivity.
  - reflexivity.
  - reflexivity.
  - reflexivity.
  - reflexivity.
  - lia.
  - repeat constructor.
Defined.

(** * Properties of [flushSync] *)

Section Polling.
Context {dsrv : DataServer}.

Lemma polls_poll (log : list DataCall) (segIDs : list Z) :
  polls (log ++ [poll_call segIDs]) = S (polls log).
Proof.
  unfold polls. rewrite filter_app, length_app. simpl. lia.
Qed.

Lemma segIDs_of_concat (res : FlushResult) :
  segIDs_of res = List.concat (map snd (coll_segIDs res)).
Proof.
  unfold segIDs_of.
  assert (Hgen : forall (l : list (list Z)) (acc : list Z),
             fold_left (fun pre cur => (pre ++ cur)%list) l acc
             = (acc ++ List.concat l)%list).
  { induction l as [|x rest IH]; intros acc; simpl.
    - rewrite app_nil_r. reflexivity.
    - rewrite IH, <- app_assoc. reflexivity. }
  apply Hgen.
Qed.

(** The loop stops at the first poll that is not answered "not flushed". *)
Lemma poll_stops (segIDs : list Z) :
  forall (n fuel : nat) (log : list DataCall),
    (forall m, (m < n)%nat ->
               exists r, flush_state_reply (polls log + m) segIDs = Ok r
                         /\ flushed r = false) ->
    match flush_state_reply (polls log + n) segIDs with
    | Ok r => flushed r = true
    | Throw _ => True
    end ->
    (n < fuel)%nat ->
    poll fuel segIDs log
    = ((log ++ repeat (poll_call segIDs) (S n))%list,
       match flush_state_reply (polls log + n) segIDs with
       | Ok r => Ok (Some r)
       | Throw e => Throw e
       end).
Proof.
  induction n as [|n IH]; intros fuel log Hbefore Hlast Hfuel;
    (destruct fuel as [|fuel]; [lia|]); simpl;
    unfold rpc_bind, getFlushState, rpc_call; fold (poll_call segIDs).
  - rewrite Nat.add_0_r in *.
    destruct (flush_state_reply (polls log) segIDs) as [r|e]; [|reflexivity].
    rewrite Hlast. reflexivity.
  - destruct (Hbefore 0%nat ltac:(lia)) as (r0 & Hr0 & Hf0).
    rewrite Nat.add_0_r in Hr0. rewrite Hr0, Hf0.
    rewrite (IH fuel (log ++ [poll_call segIDs])%list).
    + rewrite polls_poll, <- app_assoc.
      replace (S (polls log) + n)%nat with (polls log + S n)%nat by lia.
      reflexivity.
    + intros m Hm. rewrite polls_poll.
      replace (S (polls log) + m)%nat with (polls log + S m)%nat by lia.
      apply Hbefore. lia.
    + rewrite polls_poll.
      replace (S (polls log) + n)%nat with (polls log + S n)%nat by lia.
      exact Hlast.
    + lia.
Qed.

Lemma poll_goes_on (segIDs : list Z) :
  forall (fuel : nat) (log : list DataCall),
    (forall m, exists r, flush_state_reply (polls log + m) segIDs = Ok r
                         /\ flushed r = false) ->
    poll fuel segIDs log
    = ((log ++ repeat (poll_call segIDs) fuel)%list, Ok None).
Proof.
  induction fuel as [|fuel IH]; intros log Hall; simpl.
  - unfold rpc_ret. rewrite app_nil_r. reflexivity.
  - unfold rpc_bind, getFlushState, rpc_call. fold (poll_call segIDs).
    destruct (Hall 0%nat) as (r0 & Hr0 & Hf0).
    rewrite Nat.add_0_r in Hr0. rewrite Hr0, Hf0.
    rewrite (IH (log ++ [poll_call segIDs])%list).
    + rewrite <- app_assoc. reflexivity.
    + intros m. rewrite polls_poll.
      replace (S (polls log) + m)%nat with (polls log + S m)%nat by lia.
      apply Hall.
Qed.
End Polling.

(** X14: [flushSync] polls the flush state of the segment ids of all
    flushed collections, in the order of the reply, and stops at the first
    poll that is answered "flushed" or with an error: after [n] polls
    answered "not flushed" it has sent [Flush] and [n + 1] polls, and it
    returns that last answer or throws that error. *)
Theorem flushSync_stops_at_first_flushed (dsrv : DataServer)
        (name : string) (names : list string) (timeout : option Z)
        (res : FlushResult) (n fuel : nat) :
  flush_reply (Some (name :: names)) = Ok res ->
  let segIDs := List.concat (map snd (coll_segIDs res)) in
  (forall m, (m < n)%nat ->
             exists r, flush_state_reply m segIDs = Ok r /\ flushed r = false) ->
  match flush_state_reply n segIDs with
  | Ok r => flushed r = true
  | Throw _ => True
  end ->
  (n < fuel)%nat ->
  flushSync fuel (Some (name :: names)) timeout []
  = (Flush (Some (name :: names)) (or_timeout timeout client_timeout)
       :: repeat (poll_call segIDs) (S n),
     match flush_state_reply n segIDs with
     | Ok r => Ok (Some r)
     | Throw e => Throw e
     end).
Proof.
  intros Hflush segIDs Hbefore Hlast Hfuel.
  unfold flushSync, rpc_bind, rpc_call. rewrite Hflush.
  rewrite segIDs_of_concat. fold segIDs. cbn [app].
  rewrite (poll_stops segIDs n fuel
                      [Flush (Some (name :: names))
                             (or_timeout timeout client_timeout)]
                      Hbefore Hlast Hfuel).
  reflexivity.
Qed.

Lemma flushSync_stops_at_first_flushed_witness :
  @flushSync (reference_data_server two_entities 2) 5 (Some ["c"]) None []
  = ([Flush (Some ["c"]) None;
      GetFlushState [1; 2; 3]%Z None;
      GetFlushState [1; 2; 3]%Z None;
      GetFlushState [1; 2; 3]%Z None],
     Ok (Some {| gfs_status := success; flushed := true |})).
Proof.
  apply (flushSync_stops_at_first_flushed
           (reference_data_server two_entities 2) "c" [] None
           {| fl_status := success;
              coll_segIDs := [("c", [1; 2]%Z); ("d", [3]%Z)] |}
           2%nat 5%nat eq_refl).
  - intros [|[|m]] Hm; [eexists; split; reflexivity ..|lia].
  - reflexivity.
  - lia.
Defined.

(** X15: while the server keeps answering "not flushed", [flushSync] never
    returns: whatever number of polls it is given, it sends them all and is
    still polling. *)
Theorem flushSync_polls_while_not_flushed (dsrv : DataServer)
        (name : string) (names : list string) (timeout : option Z)
        (res : FlushResult) :
  flush_reply (Some (name :: names)) = Ok res ->
  let segIDs := List.concat (map snd (coll_segIDs res)) in
  (forall m, exists r, flush_state_reply m segIDs = Ok r /\ flushed r = false) ->
  forall fuel,
    flushSync fuel (Some (name :: names)) timeout []
    = (Flush (Some (name :: names)) (or_timeout timeout client_timeout)
         :: repeat (poll_call segIDs) fuel,
       Ok None).
Proof.
  intros Hflush segIDs Hall fuel.
  unfold flushSync, rpc_bind, rpc_call. rewrite Hflush.
  rewrite segIDs_of_concat. fold segIDs. cbn [app].
  rewrite (poll_goes_on segIDs fuel
                        [Flush (Some (name :: names))
                               (or_timeout timeout client_timeout)]
                        Hall).
  reflexivity.
Qed.

Lemma flushSync_polls_while_not_flushed_witness :
  @flushSync never_flushed_server 3 (Some ["c"]) None []
  = ([Flush (Some ["c"]) None;
      GetFlushState [1; 2]%Z None;
      GetFlushState [1; 2]%Z None;
      GetFlushState [1; 2]%Z None],
     Ok None).
Proof.
  apply (flushSync_polls_while_not_flushed
           never_flushed_server "c" [] None
           {| fl_status := success; coll_segIDs := [("c", [1; 2]%Z)] |}
           eq_refl).
  intros m. eexists. split; reflexivity.
Defined.

(** * What [insert] and [search] put on the wire *)

(** X16: whatever the request and the server, [insert] calls
    [DescribeCollection] at most once and first, and [Insert] at most once
    and last; when it has sent [Insert], its outcome is the server's answer
    to it, and when it has not, it throws. *)
Theorem insert_wire_discipline (ext : Externals) (srv : Server)
        (data : InsertReq) :
  (fst (insert data []) = []
   \/ fst (insert data []) = [DescribeCollection (ins_collection_name data)]
   \/ exists params,
       fst (insert data [])
       = [DescribeCollection (ins_collection_name data);
          Insert params (or_timeout (ins_timeout data) this_timeout)]
       /\ snd (insert data []) = insert_reply params)
  /\ (existsb is_Insert (fst (insert data [])) = false ->
      exists e, snd (insert data []) = Throw e).
Proof.
  unfold insert, bind, guard, call, lift, ret, throw.
  destruct (checkCollectionName (ins_collection_name data)) as [e|]; simpl.
  { split; [left; reflexivity|]. intros _. eauto. }
  destruct (ins_fields_data data) as [[|row rest]|]; simpl;
    try (split; [left; reflexivity|]; intros _; eauto).
  destruct (describe_reply (ins_collection_name data)) as [info|e]; simpl.
  - destruct (is_success (dc_status info)); simpl.
    + destruct (encode_rows (row :: rest) (resolve (dc_fields info)))
        as [fd|e]; simpl.
      * destruct (mapR to_column (Map_values fd)) as [cols|e]; simpl.
        -- split; [right; right; eexists; split; reflexivity|].
           intros H. discriminate H.
        -- split; [right; left; reflexivity|]. intros _. eauto.
      * split; [right; left; reflexivity|]. intros _. eauto.
    + split; [right; left; reflexivity|]. intros _. eauto.
  - split; [right; left; reflexivity|]. intros _. eauto.
Qed.

(** X17: whatever the request and the server, [search] calls
    [DescribeCollection] at most once and first, and [Search] at most once
    and last; an error of the parameter check is thrown as it is before
    any call, and every later error is thrown wrapped in a new error. *)
Theorem search_wire_discipline (ext : Externals) (srv : Server)
        (data : SearchData) :
  (forall e, checkSearchParams data = Some e ->
             search data [] = ([], Throw e))
  /\ (checkSearchParams data = None ->
      (fst (search data []) = [DescribeCollection (s_collection_name data)]
       \/ exists req,
           fst (search data [])
           = [DescribeCollection (s_collection_name data);
              Search req (or_timeout (s_timeout data) this_timeout)])
      /\ forall e, snd (search data []) = Throw e -> exists e', e = Rethrown e').
Proof.
  unfold search, bind, guard, rethrow, call, lift, ret, throw. split.
  - intros e He. rewrite He. reflexivity.
  - intros Hcheck. rewrite Hcheck. simpl.
    destruct (describe_reply (s_collection_name data)) as [info|e0]; simpl.
    + destruct (search_reply _) as [promise|e0]; simpl.
      * destruct (decode_results (round_decimal data) promise) as [rows|e0];
          simpl.
        -- split; [right; eexists; reflexivity|]. intros e H. discriminate H.
        -- split; [right; eexists; reflexivity|].
           intros e H. inversion H. eauto.
      * split; [right; eexists; reflexivity|]. intros e H. inversion H. eauto.
    + split; [left; reflexivity|]. intros e H. inversion H. eauto.
Qed.

Lemma search_wire_discipline_witness :
  exists req,
    fst (@search reference_externals (reference_server scalar_fields no_results)
                 (simple_search (VArr [jnum 1; jnum 2])) [])
    = [DescribeCollection "c"; Search req None].
Proof.
  destruct (proj1 (proj2 (search_wire_discipline
                            reference_externals
                            (reference_server scalar_fields no_results)
                            (simple_search (VArr [jnum 1; jnum 2])))
                         eq_refl))
    as [H|H].
  - discriminate H.
  - exact H.
Defined.

Lemma insert_wire_discipline_witness :
  exists e,
    snd (@insert reference_externals (reference_server binary_field no_results)
                 (insert_of [short_binary_row]) [])
    = Throw e.
Proof.
  exact (proj2 (insert_wire_discipline
                  reference_externals (reference_server binary_field no_results)
                  (insert_of [short_binary_row]))
               eq_refl).
Defined.
